(** * data-grep: the backend search engine, embedded and verified

    A shallow embedding of the backend of the data-grep plugin:
    [utils/grep.ts] (filter builder, match extractor) and
    [services/grep.ts] (result store, transform evaluator, search
    orchestrator), with the handler and the frontend code that read its
    results: [getRequestData], the match viewer's escaping and
    highlighting, the event handlers of the frontend store and the
    percentage of the batch search.  JavaScript values are modelled as
    the code has them: strings are sequences of UTF-16 code units, a [Map]
    is an insertion-ordered association list, numbers used as sizes and
    indices are integers, thrown errors are an explicit completion. *)

From Stdlib Require Import String Ascii.
From Stdlib Require Import List ZArith NArith QArith Qround Qminmax Bool Lia Lqa.
Import ListNotations.
Local Open Scope Z_scope.

(* ===================================================================== *)
(** * JavaScript strings                                                  *)
(* ===================================================================== *)

(** A JavaScript string: its UTF-16 code units. *)
Definition jsstring := list N.

(** A string literal of the source (all literals of the source are ASCII). *)
Definition lit (s : string) : jsstring := map N_of_ascii (list_ascii_of_string s).

(** [s.length] *)
Definition len {A : Type} (l : list A) : Z := Z.of_nat (List.length l).

(** [a === b] on strings. *)
Fixpoint str_eqb (a b : jsstring) : bool :=
  match a, b with
  | [], [] => true
  | x :: a', y :: b' => (x =? y)%N && str_eqb a' b'
  | _, _ => false
  end.

(** [!s] for a string: only the empty string is falsy. *)
Definition isEmpty {A : Type} (l : list A) : bool :=
  match l with [] => true | _ => false end.

(** [s.startsWith(p)] *)
Fixpoint startsWith (s p : jsstring) : bool :=
  match p, s with
  | [], _ => true
  | _ :: _, [] => false
  | a :: p', b :: s' => (a =? b)%N && startsWith s' p'
  end.

Fixpoint indexOf_from (s search : jsstring) (i : Z) : Z :=
  if startsWith s search then i
  else match s with
       | [] => -1
       | _ :: s' => indexOf_from s' search (i + 1)
       end.

(** [s.indexOf(search)]: the index of the first occurrence, [-1] when there
    is none. *)
Definition indexOf (s search : jsstring) : Z := indexOf_from s search 0.

(** A relative index of [slice], clamped to [0, len]. *)
Definition clampIndex (n i : Z) : Z :=
  if i <? 0 then Z.max (n + i) 0 else Z.min i n.

(** [s.slice(a, b)], for strings and arrays. *)
Definition slice {A : Type} (l : list A) (a b : Z) : list A :=
  let from := clampIndex (len l) a in
  let to := clampIndex (len l) b in
  firstn (Z.to_nat (to - from)) (skipn (Z.to_nat from) l).

(** [a.slice(from)] *)
Definition sliceFrom {A : Type} (l : list A) (a : Z) : list A :=
  slice l a (len l).

(** White space and line terminators, the code units [trim] strips. *)
Definition isWhiteSpace (c : N) : bool :=
  existsb (N.eqb c)
    [9; 10; 11; 12; 13; 32; 160; 5760; 8192; 8193; 8194; 8195; 8196; 8197;
     8198; 8199; 8200; 8201; 8202; 8232; 8233; 8239; 8287; 12288; 65279]%N.

Fixpoint trimStart (s : jsstring) : jsstring :=
  match s with
  | [] => []
  | c :: s' => if isWhiteSpace c then trimStart s' else s
  end.

Definition trimEnd (s : jsstring) : jsstring := rev (trimStart (rev s)).

(** [s.trim()] *)
Definition trim (s : jsstring) : jsstring := trimEnd (trimStart s).

(** [s.replace(/c/g, rep)] for a one-character pattern [c] and a replacement
    [rep] without [$] patterns. *)
Fixpoint replaceAll (c : N) (rep : jsstring) (s : jsstring) : jsstring :=
  match s with
  | [] => []
  | x :: s' => (if (x =? c)%N then rep else [x]) ++ replaceAll c rep s'
  end.

(** [parts.join(sep)] *)
Fixpoint join (sep : jsstring) (parts : list jsstring) : jsstring :=
  match parts with
  | [] => []
  | [p] => p
  | p :: rest => p ++ sep ++ join sep rest
  end.

(** [/[^\x20-\x7E]/.test(s)] *)
Definition hasNonPrintable (s : jsstring) : bool :=
  existsb (fun c => negb ((32 <=? c)%N && (c <=? 126)%N)) s.

(* ===================================================================== *)
(** * Completions and the JavaScript runtime                              *)
(* ===================================================================== *)

(** The outcome of evaluating JavaScript code: a value, or a thrown error
    (kept by its message, which is all the code reads of it). *)
Inductive Completion (A : Type) : Type :=
| Normal (a : A)
| Throw (message : jsstring).
Arguments Normal {A} a.
Arguments Throw {A} message.

(** A [RegExp] object. *)
Record RegExp := mkRegExp { source : jsstring; flags : jsstring }.

(** One element of [text.matchAll(re)]: [match[0]], the capture groups
    [match[1..]] ([None] is [undefined]: the group did not participate) and
    [match.index]. *)
Record RegExpMatchArray := mkMatch {
  m_whole : jsstring;
  m_captures : list (option jsstring);
  m_index : Z
}.

(** What the program takes from the platform and does not define: the
    regular-expression engine and the rounding of number arithmetic. *)
Record Runtime := mkRuntime {
  (** [new RegExp(pattern, flags)] for a pattern string; throws a
      [SyntaxError] on an invalid pattern. *)
  RegExp_new : jsstring -> jsstring -> Completion RegExp;
  (** [Array.from(text.matchAll(re))] for a global [re]. *)
  String_matchAll : jsstring -> RegExp -> list RegExpMatchArray;
  (** The Number nearest to an exact quotient or product. *)
  round : Q -> Q
}.

(** [new RegExp(re, flags)] for a [RegExp] object [re]: the source of [re]
    with the flags given, those of [re] replaced. *)
Definition RegExp_from (re : RegExp) (fl : jsstring) : RegExp :=
  mkRegExp (source re) fl.

(** [match[i]] *)
Definition group (m : RegExpMatchArray) (i : Z) : option jsstring :=
  if i =? 0 then Some (m_whole m)
  else if i <? 0 then None
  else match nth_error (m_captures m) (Z.to_nat (i - 1)) with
       | Some g => g
       | None => None
       end.

(** The engine's guarantee for one match of [text]: [match[0]] is the text
    at [match.index]. *)
Definition match_in_text (text : jsstring) (m : RegExpMatchArray) : bool :=
  (0 <=? m_index m) && (m_index m <=? len text)
  && startsWith (skipn (Z.to_nat (m_index m)) text) (m_whole m).

(** A value a transform script can return. *)
Inductive JSValue :=
| VUndefined
| VNull
| VString (s : jsstring)
(** any other value (number, boolean, object, ...), by what [String(v)]
    does on it: the string form, or the error its conversion throws. *)
| VOther (toStr : Completion jsstring).

(** A transform script: its source text and what running
    [new Function("match", source)(value)] does.  A source that does not
    parse throws for every value. *)
Record Script := mkScript {
  script_source : jsstring;
  script_run : jsstring -> Completion JSValue
}.

(* ===================================================================== *)
(** * shared/results.ts                                                  *)
(* ===================================================================== *)

(** [number | null] and the like: [None] is [null].  Every field is
    required, so the defaults of the destructuring in
    [fetchAndProcessRequests] never apply. *)
Record GrepOptions := mkOptions {
  includeRequests : bool;
  includeResponses : bool;
  maxResults : option Z;
  matchGroups : option (list Z);
  onlyInScope : bool;
  skipLargeResponses : bool;
  customHTTPQL : option jsstring;
  cleanupOutput : bool;
  transformScript : option Script
}.

Inductive Source := request | response.

(** Request ids are the host's decimal ids; [Number(id)] and [String(id)]
    are read off the numeric value. *)
Record MatchResult := mkMatchResult {
  value : jsstring;
  requestId : N;
  source_ : Source;
  startIndex : Z;
  endIndex : Z
}.

(* ===================================================================== *)
(** * utils/grep.ts                                                      *)
(* ===================================================================== *)

Definition CLEANUP_EXTENSIONS : list jsstring :=
  map lit
    ["%.apng"; "%.avif"; "%.gif"; "%.jpg"; "%.jpeg"; "%.pjpeg"; "%.pjp";
     "%.png"; "%.svg"; "%.webp"; "%.bmp"; "%.ico"; "%.cur"; "%.tif";
     "%.tiff"; "%.mp4"; "%.mp3"; "%.ttf"]%string.

Definition backslash : N := 92.
Definition dquote : N := 34.

(** [regex.source.replace(/\\/g, "\\\\").replace(/"/g, '\\"')] *)
Definition escapeRegexStr (src : jsstring) : jsstring :=
  replaceAll dquote [backslash; dquote]
    (replaceAll backslash [backslash; backslash] src).

(** [if (s)] on [string | null]. *)
Definition truthyStr (s : option jsstring) : bool :=
  match s with
  | Some (_ :: _) => true
  | _ => false
  end.

Definition buildRegexFilter (regex : RegExp) (options : GrepOptions) : jsstring :=
  let escapedRegexStr := escapeRegexStr (source regex) in
  let regexFilter : jsstring := [] in
  let filters : list jsstring := [] in
  let filters :=
    if includeRequests options
    then filters ++ [lit "req.raw.regex:" ++ [dquote] ++ escapedRegexStr ++ [dquote]]
    else filters in
  let filters :=
    if includeResponses options
    then filters ++ [lit "resp.raw.regex:" ++ [dquote] ++ escapedRegexStr ++ [dquote]]
    else filters in
  let regexFilter :=
    if 0 <? len filters
    then lit "(" ++ join (lit " or ") filters ++ lit ")"
    else regexFilter in
  let regexFilter :=
    if truthyStr (customHTTPQL options)
    then match customHTTPQL options with
         | Some custom => custom ++ lit " and " ++ regexFilter
         | None => regexFilter
         end
    else regexFilter in
  let regexFilter :=
    if skipLargeResponses options
    then regexFilter ++ lit " and resp.len.lt:10485760"
    else regexFilter ++ lit " and resp.len.lt:104857600" in
  fold_left
    (fun regexFilter ext =>
       regexFilter ++ lit " and req.ext.nlike:" ++ [dquote] ++ ext ++ [dquote])
    CLEANUP_EXTENSIONS regexFilter.

Record ExtractedMatch := mkExtracted {
  e_value : jsstring;
  e_startIndex : Z;
  e_endIndex : Z
}.

(** The whole match with its own offsets. *)
Definition wholeMatch (m : RegExpMatchArray) : ExtractedMatch :=
  let matchIndex := m_index m in
  mkExtracted (m_whole m) matchIndex (matchIndex + len (m_whole m)).

(** The loop over [matchGroups]: [Some] is the match pushed before the
    [break], [None] is [foundMatch] still false at the end. *)
Fixpoint scanGroups (m : RegExpMatchArray) (matchGroups : list Z)
  : option ExtractedMatch :=
  match matchGroups with
  | [] => None
  | groupIndex :: rest =>
      match group m groupIndex with
      | Some groupValue =>
          let matchIndex := m_index m in
          let groupOffset := indexOf (m_whole m) groupValue in
          let startIndex :=
            matchIndex + (if groupOffset >=? 0 then groupOffset else 0) in
          Some (mkExtracted groupValue startIndex (startIndex + len groupValue))
      | None => scanGroups m rest
      end
  end.

(** One turn of the loop over the matches: what is pushed for [m]. *)
Definition extractOne (matchGroups : option (list Z)) (m : RegExpMatchArray)
  : ExtractedMatch :=
  match matchGroups with
  | None => wholeMatch m
  | Some [] => wholeMatch m
  | Some gs =>
      match scanGroups m gs with
      | Some e => e
      | None => wholeMatch m
      end
  end.

Definition extractMatches (rt : Runtime) (text : jsstring) (regex : RegExp)
  (matchGroups : option (list Z)) : list ExtractedMatch :=
  if isEmpty text then []
  else
    let matches := String_matchAll rt text (RegExp_from regex (lit "g")) in
    if isEmpty matches then []
    else
      fold_left (fun results m => results ++ [extractOne matchGroups m])
        matches [].

(* ===================================================================== *)
(** * The host and the module state of services/grep.ts                  *)
(* ===================================================================== *)

(** A [Map<string, V>]: the entries in insertion order. *)
Definition JSMap (V : Type) := list (jsstring * V).

Definition map_has {V : Type} (m : JSMap V) (k : jsstring) : bool :=
  existsb (fun kv => str_eqb (fst kv) k) m.

(** [m.set(k, v)]: a present key keeps its place, a new one goes last. *)
Fixpoint map_set {V : Type} (m : JSMap V) (k : jsstring) (v : V) : JSMap V :=
  match m with
  | [] => [(k, v)]
  | (k', v') :: m' =>
      if str_eqb k' k then (k', v) :: m' else (k', v') :: map_set m' k v
  end.

Definition map_values {V : Type} (m : JSMap V) : list V := map snd m.
Definition map_keys {V : Type} (m : JSMap V) : list jsstring := map fst m.
Definition map_size {V : Type} (m : JSMap V) : Z := len m.

(** [request.getRaw()?.toText() || ""] reads [getRaw]. *)
Record Request := mkRequest { getId : N; getRaw : option jsstring }.
Record Response := mkResponse { resp_getRaw : option jsstring }.
Record Item := mkItem { item_request : Request; item_response : option Response }.

Definition toText (raw : option jsstring) : jsstring :=
  match raw with Some s => s | None => [] end.

(** The host's answers to the paginated queries of one run, in the order
    the loop asks them: [.first(100)] first, then [.after(endCursor)] of
    the page before.  [MorePages] is a page with [hasNextPage] true and the
    answer to the next query; [stop] tells that [stopGrep()] ran while the
    query was awaited. *)
Inductive Pages :=
| LastPage (stop : bool) (items : list Item) (endCursor : jsstring)
| MorePages (stop : bool) (items : list Item) (endCursor : jsstring) (rest : Pages)
| QueryFails (message : jsstring).

Record SDK := mkSDK {
  (** [await sdk.projects.getCurrent()], and whether [stopGrep()] ran
      meanwhile *)
  projects_getCurrent : option jsstring;
  stop_at_getCurrent : bool;
  (** the items of [await sdk.requests.query().last(1).execute()] *)
  requests_last : list Item;
  stop_at_last : bool;
  (** [sdk.requests.query().filter(f)], paginated *)
  requests_query : jsstring -> Pages;
  requests_inScope : Request -> bool;
  (** the two readings of [Date.now()] *)
  startTime : Z;
  endTime : Z
}.

(** The payloads of [sdk.api.send]. *)
Inductive Event :=
| progressEvent (percent : Z)               (* "caidogrep:progress" *)
| matchesArray (sentMatches : list MatchResult)  (* "caidogrep:matches", array form *)
| matchesCount_ (n : Z).                    (* "caidogrep:matches", count form *)

(** The module-level state, and the events sent so far (oldest first).
    [stopPromise] and [stopResolve] are set together by [stopGrep()] and
    reset together when it resumes; [stopPromise w] tells that the promise
    is set and not resolved: a [stopGrep()] call is waiting for the run to
    call [stopResolve]. *)
Record World := mkWorld {
  isGrepActive : bool;
  grepStore : JSMap MatchResult;
  sent : list Event;
  stopPromise : bool
}.

Definition set_active (b : bool) (w : World) : World :=
  mkWorld b (grepStore w) (sent w) (stopPromise w).
Definition set_store (s : JSMap MatchResult) (w : World) : World :=
  mkWorld (isGrepActive w) s (sent w) (stopPromise w).
Definition send (e : Event) (w : World) : World :=
  mkWorld (isGrepActive w) (grepStore w) (sent w ++ [e]) (stopPromise w).

(** [stopGrep()] up to its [await stopPromise]: without an active run it
    returns at once and changes nothing; otherwise it sets the promise,
    clears the flag and waits. *)
Definition stopGrep (w : World) : World :=
  if negb (isGrepActive w) then w
  else mkWorld false (grepStore w) (sent w) true.

(** [if (stopResolve) stopResolve()]: the promise is resolved, and the
    waiting [stopGrep()] resumes and resets [stopPromise] and
    [stopResolve] to null. *)
Definition stopResolve (w : World) : World :=
  mkWorld (isGrepActive w) (grepStore w) (sent w) false.

(** A suspension point of the run: [stopGrep()] may be called there. *)
Definition await (stop : bool) (w : World) : World :=
  if stop then stopGrep w else w.

(** [grepStore.addMatch(match)] *)
Definition addMatch (store : JSMap MatchResult) (m : MatchResult)
  : bool * JSMap MatchResult :=
  if negb (map_has store (value m))
  then (true, map_set store (value m) m)
  else (false, store).

(** [grepStore.getMatches()] *)
Definition getMatches (store : JSMap MatchResult) : list MatchResult :=
  map_values store.

(* ===================================================================== *)
(** * services/grep.ts                                                   *)
(* ===================================================================== *)

(** [string | null]: [None] is [null]. *)
Definition applyTransform (v : jsstring) (script : Script) : option jsstring :=
  match script_run script v with
  | Normal VNull => None
  | Normal VUndefined => None
  | Normal (VString result) => Some result
  | Normal (VOther (Normal str)) => Some str
  | Normal (VOther (Throw _)) => Some v
  | Throw _ => Some v
  end.

(** The locals of [fetchAndProcessRequests] that the loops update. *)
Record Frame := mkFrame {
  matches : JSMap MatchResult;
  processedRequestID : N;
  sentMatchCount : Z
}.

Definition set_matches (m : JSMap MatchResult) (f : Frame) : Frame :=
  mkFrame m (processedRequestID f) (sentMatchCount f).
Definition set_processed (id : N) (f : Frame) : Frame :=
  mkFrame (matches f) id (sentMatchCount f).
Definition set_sentCount (n : Z) (f : Frame) : Frame :=
  mkFrame (matches f) (processedRequestID f) n.

(** [maxResults && matches.size >= maxResults] *)
Definition maxReached (options : GrepOptions) (m : JSMap MatchResult) : bool :=
  match maxResults options with
  | Some k => negb (k =? 0) && (k <=? map_size m)
  | None => false
  end.

(** [!maxResults || matches.size < maxResults] *)
Definition belowMax (options : GrepOptions) (m : JSMap MatchResult) : bool :=
  match maxResults options with
  | Some k => (k =? 0) || (map_size m <? k)
  | None => true
  end.

Definition findMatchesInRequestResponse (rt : Runtime) (req : Request)
  (resp : option Response) (regex : RegExp) (matchGroups : option (list Z))
  (includeRequests includeResponses : bool) : list MatchResult :=
  let requestId := getId req in
  let contentMatches : list MatchResult := [] in
  let contentMatches :=
    if includeRequests
    then contentMatches ++
         map (fun extracted =>
                mkMatchResult (e_value extracted) requestId request
                  (e_startIndex extracted) (e_endIndex extracted))
             (extractMatches rt (toText (getRaw req)) regex matchGroups)
    else contentMatches in
  match includeResponses, resp with
  | true, Some resp =>
      contentMatches ++
      map (fun extracted =>
             mkMatchResult (e_value extracted) requestId response
               (e_startIndex extracted) (e_endIndex extracted))
          (extractMatches rt (toText (resp_getRaw resp)) regex matchGroups)
  | _, _ => contentMatches
  end.

(** The block [if (options.transformScript)]: the value after the
    transform script, [None] where the loop [continue]s. *)
Definition transformed (options : GrepOptions) (processedValue : jsstring)
  : option jsstring :=
  match transformScript options with
  | Some script =>
      if isEmpty (script_source script) then Some processedValue
      else match applyTransform processedValue script with
           | None => None
           | Some t =>
               let processedValue := trim t in
               if len processedValue =? 0 then None else Some processedValue
           end
  | None => Some processedValue
  end.

(** [{ ...matchResult, value: processedValue }] *)
Definition withValue (m : MatchResult) (v : jsstring) : MatchResult :=
  mkMatchResult v (requestId m) (source_ m) (startIndex m) (endIndex m).

(** The loop [for (const matchResult of newMatches)]. *)
Fixpoint processMatches (options : GrepOptions) (newMatches : list MatchResult)
  (f : Frame) (w : World) : Frame * World :=
  match newMatches with
  | [] => (f, w)
  | matchResult :: rest =>
      let processedValue := trim (value matchResult) in
      if cleanupOutput options && hasNonPrintable processedValue
      then processMatches options rest f w
      else if len processedValue =? 0
      then processMatches options rest f w
      else
        match transformed options processedValue with
        | None => processMatches options rest f w
        | Some processedValue =>
            if negb (map_has (matches f) processedValue)
            then
              let finalMatch := withValue matchResult processedValue in
              let f := set_matches (map_set (matches f) processedValue finalMatch) f in
              let w := set_store (snd (addMatch (grepStore w) finalMatch)) w in
              if maxReached options (matches f) then (f, w)
              else processMatches options rest f w
            else processMatches options rest f w
        end
  end.

Definition STOPPED : jsstring := lit "Grep operation was stopped".

(** The loop [for (const item of result.items)]. *)
Fixpoint processItems (rt : Runtime) (sdk : SDK) (regex : RegExp)
  (options : GrepOptions) (items : list Item) (f : Frame) (w : World)
  : Completion Frame * World :=
  match items with
  | [] => (Normal f, w)
  | item :: rest =>
      if negb (isGrepActive w) then (Throw STOPPED, stopResolve w)
      else
        let f := set_processed (getId (item_request item)) f in
        if maxReached options (matches f) then (Normal f, w)
        else if onlyInScope options && negb (requests_inScope sdk (item_request item))
        then processItems rt sdk regex options rest f w
        else
          let newMatches :=
            findMatchesInRequestResponse rt (item_request item)
              (item_response item) regex (matchGroups options)
              (includeRequests options) (includeResponses options) in
          let '(f, w) :=
            if 0 <? len newMatches
            then processMatches options newMatches f w
            else (f, w) in
          processItems rt sdk regex options rest f w
  end.

(** [Number(id)] of a request id: the Number nearest to it. *)
Definition Number (rt : Runtime) (id : N) : Q := round rt (inject_Z (Z.of_N id)).

(** [Math.min(Math.floor((processedRequestID / lastRequestId) * 100), 99)];
    the loop runs with a [lastRequestId] that is not 0. *)
Definition progress (rt : Runtime) (processedRequestID lastRequestId : Q) : Z :=
  Z.min
    (Qfloor (round rt (round rt (processedRequestID / lastRequestId) * 100)))
    99.

(** The block [if (matches.size > sentMatchCount)]: the new matches,
    sent after a page. *)
Definition sendNewMatches (f : Frame) (w : World) : Frame * World :=
  if sentMatchCount f <? map_size (matches f)
  then
    let newMatchResults := sliceFrom (map_values (matches f)) (sentMatchCount f) in
    let w :=
      if 25000 <? sentMatchCount f
      then send (matchesCount_ (len newMatchResults)) w
      else send (matchesArray newMatchResults) w in
    (set_sentCount (map_size (matches f)) f, w)
  else (f, w).

(** One turn of the [while] loop on a page the host serves: the
    progress sent, the query awaited, the items processed, the new matches
    sent.  When [stopGrep()] runs while the query is awaited, either
    [executeQueryWithCancellationCheck] rejects or the check that follows
    throws, with the same message; the check calls [stopResolve] first,
    and [executeGrepSearch] calls it when it catches either. *)
Definition processPage (rt : Runtime) (sdk : SDK) (regex : RegExp)
  (options : GrepOptions) (lastRequestId : N) (stop : bool)
  (items : list Item) (f : Frame) (w : World) : Completion Frame * World :=
  let w :=
    send (progressEvent
            (progress rt (Number rt (processedRequestID f)) (Number rt lastRequestId))) w in
  let w := await stop w in
  if negb (isGrepActive w) then (Throw STOPPED, stopResolve w)
  else
    match processItems rt sdk regex options items f w with
    | (Throw e, w) => (Throw e, w)
    | (Normal f, w) =>
        let '(f, w) := sendNewMatches f w in
        (Normal f, w)
    end.

(** The [while] loop of [fetchAndProcessRequests], entered with
    [hasNextPage] true and [pages] the answers still to come. *)
Fixpoint fetchLoop (rt : Runtime) (sdk : SDK) (regex : RegExp)
  (options : GrepOptions) (lastRequestId : N) (pages : Pages)
  (f : Frame) (w : World) : Completion Z * World :=
  if belowMax options (matches f) && isGrepActive w
  then
    match pages with
    | QueryFails e =>
        let w :=
          send (progressEvent
                  (progress rt (Number rt (processedRequestID f)) (Number rt lastRequestId))) w in
        (Throw e, w)
    | LastPage stop items _ =>
        match processPage rt sdk regex options lastRequestId stop items f w with
        | (Throw e, w) => (Throw e, w)
        | (Normal f, w) => (Normal (map_size (matches f)), w)
        end
    | MorePages stop items _ rest =>
        match processPage rt sdk regex options lastRequestId stop items f w with
        | (Throw e, w) => (Throw e, w)
        | (Normal f, w) => fetchLoop rt sdk regex options lastRequestId rest f w
        end
    end
  else (Normal (map_size (matches f)), w).

Definition fetchAndProcessRequests (rt : Runtime) (sdk : SDK) (regex : RegExp)
  (options : GrepOptions) (lastRequestId : N) (w : World)
  : Completion Z * World :=
  let regexFilter := buildRegexFilter regex options in
  fetchLoop rt sdk regex options lastRequestId (requests_query sdk regexFilter)
    (mkFrame [] 0%N 0) w.

Definition getLastRequestID (sdk : SDK) : option N :=
  match requests_last sdk with
  | item :: _ => Some (getId (item_request item))
  | [] => None
  end.

(** The object [executeGrepSearch] returns. *)
Record SearchResult := mkSearchResult {
  matchesCount : option Z;
  error : option jsstring
}.

Definition executeGrepSearch (rt : Runtime) (sdk : SDK) (pattern : jsstring)
  (options : GrepOptions) (w : World) : Completion SearchResult * World :=
  let w := await (stop_at_getCurrent sdk) w in
  match projects_getCurrent sdk with
  | None => (Normal (mkSearchResult None (Some (lit "No project selected"))), w)
  | Some _ =>
      let w := await (stop_at_last sdk) w in
      match getLastRequestID sdk with
      | None => (Normal (mkSearchResult None (Some (lit "No requests found"))), w)
      | Some 0%N => (Normal (mkSearchResult None (Some (lit "No requests found"))), w)
      | Some lastRequestId =>
          match RegExp_new rt pattern (lit "i") with
          | Throw e => (Throw e, w)
          | Normal regex =>
              let w := send (progressEvent 0) w in
              match fetchAndProcessRequests rt sdk regex options lastRequestId w with
              | (Throw e, w) => (Throw e, stopResolve w)
              | (Normal n, w) =>
                  (Normal (mkSearchResult (Some n) None), stopResolve w)
              end
          end
      end
  end.

(** [{ ...result, timeTaken }] *)
Record GrepData := mkGrepData {
  d_matchesCount : option Z;
  d_error : option jsstring;
  d_timeTaken : Z
}.

(** The result envelope [{ data?, error? }]. *)
Record Envelope := mkEnvelope {
  env_data : option GrepData;
  env_error : option jsstring
}.

(** The [try ... catch ... finally] statement of [grepRequests]. *)
Definition grepRequests_try (rt : Runtime) (sdk : SDK) (pattern : jsstring)
  (options : GrepOptions) (w : World) : Envelope * World :=
  let w := set_active true w in
  let w := set_store [] w in
  match executeGrepSearch rt sdk pattern options w with
  | (Normal result, w) =>
      let timeTaken := endTime sdk - startTime sdk in
      (mkEnvelope
         (Some (mkGrepData (matchesCount result) (error result) timeTaken))
         None,
       set_active false w)
  | (Throw e, w) => (mkEnvelope None (Some e), set_active false w)
  end.

(** [grepRequests]: the envelope returned, [None] when the call never
    returns.  [await stopPromise] on a promise that is set and not
    resolved waits for a [stopResolve()] that only a run can call, and no
    run starts while the call waits: the flag is false, so a further
    [grepRequests] waits at the same place and a further [stopGrep()]
    returns at once. *)
Definition grepRequests (rt : Runtime) (sdk : SDK) (pattern : jsstring)
  (options : GrepOptions) (w : World) : option Envelope * World :=
  if isGrepActive w
  then (Some (mkEnvelope None (Some (lit "A grep scan is already running"))), w)
  else if stopPromise w then (None, w)
  else
    let '(envelope, w) := grepRequests_try rt sdk pattern options w in
    (Some envelope, w).

(* ===================================================================== *)
(** * Specification-side definitions                                     *)
(* ===================================================================== *)

(** [needle] occurs in [hay] at position [p]. *)
Definition occursAt (hay needle : jsstring) (p : nat) : Prop :=
  firstn (List.length needle) (skipn p hay) = needle
  /\ (p + List.length needle <= List.length hay)%nat.

(** [p] is the position of the first occurrence of [needle] in [hay]. *)
Definition firstOccurrence (hay needle : jsstring) (p : nat) : Prop :=
  occursAt hay needle p /\ forall q, (q < p)%nat -> ~ occursAt hay needle q.

Definition isDefined {A : Type} (o : option A) : bool :=
  match o with Some _ => true | None => false end.

(** The value of the first listed group index whose captured value is
    defined. *)
Definition firstDefinedGroup (m : RegExpMatchArray) (gs : list Z)
  : option jsstring :=
  match find (fun i => isDefined (group m i)) gs with
  | Some i => group m i
  | None => None
  end.

(** What the extractor is specified to emit for the match [m] under the
    group list [gs]. *)
Definition emitsAsSpecified (gs : list Z) (m : RegExpMatchArray)
  (e : ExtractedMatch) : Prop :=
  match firstDefinedGroup m gs with
  | Some v =>
      e_value e = v
      /\ forall p, firstOccurrence (m_whole m) v p ->
                   e_startIndex e = m_index m + Z.of_nat p
  | None => e = wholeMatch m
  end.

(** The index range of [e] is the place of its value in [text]. *)
Definition rangeHoldsValue (text : jsstring) (e : ExtractedMatch) : Prop :=
  e_endIndex e = e_startIndex e + len (e_value e)
  /\ slice text (e_startIndex e) (e_endIndex e) = e_value e.

(** The index range of [e] is a non-empty range of [text]. *)
Definition rangeInText (text : jsstring) (e : ExtractedMatch) : Prop :=
  0 <= e_startIndex e < e_endIndex e /\ e_endIndex e <= len text.

(** ** The run, seen as a stream of candidates *)

(** The body of the loop over [newMatches] up to the transform, for
    one raw match: its final value, [None] where the loop moves on to the
    next match. *)
Definition finalValue (options : GrepOptions) (matchResult : MatchResult)
  : option jsstring :=
  let processedValue := trim (value matchResult) in
  if cleanupOutput options && hasNonPrintable processedValue then None
  else if len processedValue =? 0 then None
  else transformed options processedValue.

(** The [finalMatch] a raw match stands for, if it is not discarded. *)
Definition candidate (options : GrepOptions) (matchResult : MatchResult)
  : option MatchResult :=
  match finalValue options matchResult with
  | Some v => Some (withValue matchResult v)
  | None => None
  end.

Fixpoint candidates (options : GrepOptions) (raw : list MatchResult)
  : list MatchResult :=
  match raw with
  | [] => []
  | matchResult :: rest =>
      match candidate options matchResult with
      | Some c => c :: candidates options rest
      | None => candidates options rest
      end
  end.

(** The raw matches of a list of records, in the order the loop meets
    them; a record out of scope gives none under [onlyInScope]. *)
Definition rawMatchesOf (rt : Runtime) (sdk : SDK) (regex : RegExp)
  (options : GrepOptions) (items : list Item) : list MatchResult :=
  flat_map
    (fun item =>
       if onlyInScope options && negb (requests_inScope sdk (item_request item))
       then []
       else findMatchesInRequestResponse rt (item_request item)
              (item_response item) regex (matchGroups options)
              (includeRequests options) (includeResponses options))
    items.

(** Keep the first match seen for each final value. *)
Definition insertNew (m : JSMap MatchResult) (c : MatchResult)
  : JSMap MatchResult :=
  if map_has m (value c) then m else m ++ [(value c, c)].

Definition dedupFirst (cs : list MatchResult) (m : JSMap MatchResult)
  : JSMap MatchResult :=
  fold_left insertNew cs m.

(** The same, with nothing inserted once [maxResults] is reached. *)
Definition collectStep (options : GrepOptions) (m : JSMap MatchResult)
  (c : MatchResult) : JSMap MatchResult :=
  if maxReached options m then m else insertNew m c.

Definition collect (options : GrepOptions) (cs : list MatchResult)
  (m : JSMap MatchResult) : JSMap MatchResult :=
  fold_left (collectStep options) cs m.

(** All records the host serves to the run. *)
Fixpoint allItems (pages : Pages) : list Item :=
  match pages with
  | LastPage _ items _ => items
  | MorePages _ items _ rest => items ++ allItems rest
  | QueryFails _ => []
  end.

(** The records of the pages the run receives before it is stopped or a
    query fails. *)
Fixpoint scannedItems (pages : Pages) : list Item :=
  match pages with
  | LastPage stop items _ => if stop then [] else items
  | MorePages stop items _ rest =>
      if stop then [] else items ++ scannedItems rest
  | QueryFails _ => []
  end.

(** ** The discipline of the [matches] events *)

(** The number of matches sent, after [e] is sent on top of [s]. *)
Definition sentAfter (s : Z) (e : Event) : Z :=
  match e with
  | progressEvent _ => s
  | matchesArray new => s + len new
  | matchesCount_ n => s + n
  end.

(** [e] is a rightful event when [s] of the matches [all] were sent
    before: an array of the next unsent matches while [s] is at most
    25000, their bare count above. *)
Definition batchOk (all : list MatchResult) (s : Z) (e : Event) : Prop :=
  match e with
  | progressEvent _ => True
  | matchesArray new =>
      s <= 25000 /\ new <> [] /\ s + len new <= len all
      /\ new = slice all s (s + len new)
  | matchesCount_ n => 25000 < s /\ 0 < n /\ s + n <= len all
  end.

Fixpoint batchesOk (all : list MatchResult) (s : Z) (log : list Event) : Prop :=
  match log with
  | [] => True
  | e :: log' => batchOk all s e /\ batchesOk all (sentAfter s e) log'
  end.

Definition sentTotal (s : Z) (log : list Event) : Z := fold_left sentAfter log s.


(** A progress event carries the progress computed for some request id. *)
Definition progressOf (rt : Runtime) (lastRequestId : N) (e : Event) : Prop :=
  match e with
  | progressEvent p =>
      exists pid : N, p = progress rt (Number rt pid) (Number rt lastRequestId)
  | _ => True
  end.

(** ** Progress *)

(** The progress formula of the specification,
    [floor(min(processedId / lastId, 0.99) * 100)], in the same
    arithmetic as the code. *)
Definition progressSpec (rt : Runtime) (processedId lastId : Q) : Z :=
  Qfloor
    (round rt (Qmin (round rt (processedId / lastId)) (round rt (99 # 100)) * 100)).

(** What the proofs use of the rounding of Number arithmetic: on
    non-negative numbers rounding keeps the order; 0 and 1 are Numbers; and
    the product of the Number nearest to 0.99 by 100 rounds to 99. *)
Definition roundsToNearest (rt : Runtime) : Prop :=
  (forall a b : Q, (0 <= a)%Q -> (a <= b)%Q -> (round rt a <= round rt b)%Q)
  /\ (round rt 0 == 0)%Q
  /\ (round rt 1 == 1)%Q
  /\ (round rt (round rt (99 # 100) * 100) == 99)%Q.

(** ** The filter expression *)

(** The pattern source with backslashes and double quotes escaped, and
    nothing else changed. *)
Definition escapeSpec (src : jsstring) : jsstring :=
  flat_map
    (fun c =>
       if (c =? backslash)%N then [backslash; backslash]
       else if (c =? dquote)%N then [backslash; dquote]
       else [c])
    src.

Definition quoted (s : jsstring) : jsstring := [dquote] ++ s ++ [dquote].

(** The parenthesized OR of the raw-regex terms the flags select; empty
    when neither flag is set. *)
Definition regexTerm (regex : RegExp) (options : GrepOptions) : jsstring :=
  let pat := quoted (escapeSpec (source regex)) in
  match includeRequests options, includeResponses options with
  | true, true =>
      lit "(" ++ lit "req.raw.regex:" ++ pat ++ lit " or "
      ++ lit "resp.raw.regex:" ++ pat ++ lit ")"
  | true, false => lit "(" ++ lit "req.raw.regex:" ++ pat ++ lit ")"
  | false, true => lit "(" ++ lit "resp.raw.regex:" ++ pat ++ lit ")"
  | false, false => []
  end.

Definition sizeTerm (options : GrepOptions) : jsstring :=
  if skipLargeResponses options
  then lit "resp.len.lt:10485760"
  else lit "resp.len.lt:104857600".

Definition extensionTerm (ext : jsstring) : jsstring :=
  lit "req.ext.nlike:" ++ quoted ext.

(** The custom filter expression, when present. *)
Definition customTerm (options : GrepOptions) : list jsstring :=
  match customHTTPQL options with
  | Some (c :: custom) => [c :: custom]
  | _ => []
  end.

(** The filter as one AND chain. *)
Definition filterSpec (regex : RegExp) (options : GrepOptions) : jsstring :=
  join (lit " and ")
    (customTerm options
     ++ [regexTerm regex options; sizeTerm options]
     ++ map extensionTerm CLEANUP_EXTENSIONS).

(** ** The run as a whole *)

(** The compiled pattern and the last request id of a run that gets to
    the pagination loop. *)
Definition runSetup (rt : Runtime) (sdk : SDK) (pattern : jsstring)
  : option (RegExp * N) :=
  match projects_getCurrent sdk, getLastRequestID sdk with
  | Some _, Some lastRequestId =>
      if (lastRequestId =? 0)%N then None
      else match RegExp_new rt pattern (lit "i") with
           | Normal regex => Some (regex, lastRequestId)
           | Throw _ => None
           end
  | _, _ => None
  end.

(** The raw matches of all the records the host serves to the run. *)
Definition runRawMatches (rt : Runtime) (sdk : SDK) (pattern : jsstring)
  (options : GrepOptions) : list MatchResult :=
  match runSetup rt sdk pattern with
  | Some (regex, _) =>
      rawMatchesOf rt sdk regex options
        (allItems (requests_query sdk (buildRegexFilter regex options)))
  | None => []
  end.

(** A progress event of the run: the initial 0, or the progress computed
    for some request id against the last request id. *)
Definition runProgress (rt : Runtime) (sdk : SDK) (e : Event) : Prop :=
  match e with
  | progressEvent p =>
      p = 0
      \/ exists lastRequestId pid : N,
           getLastRequestID sdk = Some lastRequestId
           /\ lastRequestId <> 0%N
           /\ p = progress rt (Number rt pid) (Number rt lastRequestId)
  | _ => True
  end.

(** ** The run, iteration by iteration *)

(** The progress values of a log, in the order sent. *)
Definition progressValues (log : list Event) : list Z :=
  flat_map (fun e => match e with progressEvent p => [p] | _ => [] end) log.

(** The id of the last request processed, after the items of a page
    were all processed: the id of the last item, and the id before
    when the page is empty. *)
Definition lastProcessed (items : list Item) (processedId : N) : N :=
  fold_left (fun _ item => getId (item_request item)) items processedId.

(** The matches collected once the items of a page are processed. *)
Definition afterPage (rt : Runtime) (sdk : SDK) (regex : RegExp)
  (options : GrepOptions) (items : list Item) (m : JSMap MatchResult)
  : JSMap MatchResult :=
  collect options (candidates options (rawMatchesOf rt sdk regex options items)) m.

(** The iterations of the pagination loop, each by the id of the last
    request processed when it starts: an iteration takes place while
    [maxResults] is not reached, and a next one follows a page that has a
    next page, whose query neither fails nor is stopped. *)
Fixpoint iterationIds (rt : Runtime) (sdk : SDK) (regex : RegExp)
  (options : GrepOptions) (pages : Pages) (processedId : N)
  (m : JSMap MatchResult) : list N :=
  if maxReached options m then []
  else
    processedId ::
    match pages with
    | MorePages false items _ rest =>
        iterationIds rt sdk regex options rest (lastProcessed items processedId)
          (afterPage rt sdk regex options items m)
    | _ => []
    end.

(** The error that ends the pagination loop, if any: that of the first
    iteration whose query fails or is stopped. *)
Fixpoint loopFailure (rt : Runtime) (sdk : SDK) (regex : RegExp)
  (options : GrepOptions) (pages : Pages) (m : JSMap MatchResult)
  : option jsstring :=
  if maxReached options m then None
  else
    match pages with
    | QueryFails message => Some message
    | LastPage stop _ _ => if stop then Some STOPPED else None
    | MorePages stop items _ rest =>
        if stop then Some STOPPED
        else loopFailure rt sdk regex options rest
               (afterPage rt sdk regex options items m)
    end.

(** [stopGrep()] is called while the run awaits the project or the last
    request. *)
Definition stoppedInSetup (sdk : SDK) : bool :=
  stop_at_getCurrent sdk || stop_at_last sdk.

(** The raw matches of the records the run receives: those of the pages
    served before a stop or a failed query. *)
Definition runScannedMatches (rt : Runtime) (sdk : SDK) (pattern : jsstring)
  (options : GrepOptions) : list MatchResult :=
  match runSetup rt sdk pattern with
  | Some (regex, _) =>
      if stoppedInSetup sdk then []
      else rawMatchesOf rt sdk regex options
             (scannedItems (requests_query sdk (buildRegexFilter regex options)))
  | None => []
  end.

(** The iterations of the run's pagination loop. *)
Definition runIterations (rt : Runtime) (sdk : SDK) (pattern : jsstring)
  (options : GrepOptions) : list N :=
  match runSetup rt sdk pattern with
  | Some (regex, _) =>
      if stoppedInSetup sdk then []
      else iterationIds rt sdk regex options
             (requests_query sdk (buildRegexFilter regex options)) 0%N []
  | None => []
  end.

(** The error that ends the run's pagination loop, if any. *)
Definition runLoopFailure (rt : Runtime) (sdk : SDK) (pattern : jsstring)
  (options : GrepOptions) : option jsstring :=
  match runSetup rt sdk pattern with
  | Some (regex, _) =>
      if stoppedInSetup sdk then None
      else loopFailure rt sdk regex options
             (requests_query sdk (buildRegexFilter regex options)) []
  | None => None
  end.

(** The last request id of a run that gets to the loop. *)
Definition runLastId (rt : Runtime) (sdk : SDK) (pattern : jsstring) : N :=
  match runSetup rt sdk pattern with
  | Some (_, lastRequestId) => lastRequestId
  | None => 0%N
  end.

(** A [stopGrep()] call is left waiting by a run that ends before the
    loop: it was called while the run awaited the project or, with a
    project, the last request. *)
Definition stopLeftWaiting (sdk : SDK) : bool :=
  stop_at_getCurrent sdk
  || (isDefined (projects_getCurrent sdk) && stop_at_last sdk).

(** A list of numbers that never goes down: each is at most all that
    come later. *)
Fixpoint ascending (l : list Z) : Prop :=
  match l with
  | [] => True
  | a :: rest => Forall (Z.le a) rest /\ ascending rest
  end.

(** The ids of the requests, in the order served, never go down. *)
Fixpoint idsAscend (ids : list N) : Prop :=
  match ids with
  | [] => True
  | a :: rest => Forall (N.le a) rest /\ idsAscend rest
  end.

(** Every entry is keyed by its own value, and no key comes twice. *)
Definition wellKeyed (m : JSMap MatchResult) : Prop :=
  Forall (fun kv => fst kv = value (snd kv)) m /\ NoDup (map_keys m).

(* ===================================================================== *)
(** * Concrete runtimes and inputs                                       *)
(* ===================================================================== *)

(** A regular-expression engine given by its table: for the listed
    (source, text) pairs the matches of [text.matchAll(/source/g)], and no
    match anywhere else. *)
Definition tableEngine
  (rows : list (jsstring * jsstring * list RegExpMatchArray))
  (text : jsstring) (re : RegExp) : list RegExpMatchArray :=
  match
    find (fun row =>
            str_eqb (fst (fst row)) (source re) && str_eqb (snd (fst row)) text)
         rows
  with
  | Some row => snd row
  | None => []
  end.

(** ** IEEE 754 binary64, rounding to nearest, ties to even

    A non-negative rational [q] is scaled by [2^1074], so that the smallest
    subnormal is 1; the exponent [e] of its binade is the position of the
    leading bit above the 52 fraction bits (0 for subnormals), and the
    Number nearest to [q] is the nearest multiple of [2^e], ties going to
    the even mantissa.  Overflow to [Infinity] is not modelled. *)
Definition two (e : Z) : Q := inject_Z (2 ^ e).

Definition roundHalfEven (x : Q) : Z :=
  let f := Qfloor x in
  match (x - inject_Z f ?= 1 # 2)%Q with
  | Lt => f
  | Gt => f + 1
  | Eq => if Z.even f then f else f + 1
  end.

Definition binary64_pos (q : Q) : Q :=
  let s := (q * two 1074)%Q in
  let e := Z.log2 (Qfloor (s / two 52)) in
  (inject_Z (roundHalfEven (s / two e) * 2 ^ e) / two 1074)%Q.

Definition binary64 (q : Q) : Q :=
  if Qle_bool 0 q then binary64_pos q else (- binary64_pos (- q))%Q.

(** The runtime of the examples: the engine of the table, with [(] as
    its one invalid pattern, and binary64 arithmetic. *)
Definition tableRuntime
  (rows : list (jsstring * jsstring * list RegExpMatchArray)) : Runtime :=
  mkRuntime
    (fun pattern fl =>
       if str_eqb pattern (lit "(")
       then Throw (lit "Invalid regular expression: /(/: Unterminated group")
       else Normal (mkRegExp pattern fl))
    (tableEngine rows) binary64.

Definition CRLF : jsstring := [13; 10]%N.

(** The raw requests of the test suite,
    ["GET <path> HTTP/1.1\r\nHost: <host>\r\n\r\n"], and a pattern whose
    one match in such a request captures the path and the host.  It is
    the pattern of the test suite with [\S*\s+] in the place of [.*?\n]:
    a [.] does not match the [\r] that ends the request line. *)
Definition requestText (path host : string) : jsstring :=
  lit "GET " ++ lit path ++ lit " HTTP/1.1" ++ CRLF
  ++ lit "Host: " ++ lit host ++ CRLF ++ CRLF.

Definition requestMatch (path host : string) : RegExpMatchArray :=
  mkMatch (lit "GET " ++ lit path ++ lit " HTTP/1.1" ++ CRLF
           ++ lit "Host: " ++ lit host)
          [Some (lit path); Some (lit host)] 0.

Definition hostPattern : jsstring :=
  lit "(?:GET|POST)\s+(\S+)\s+HTTP\S*\s+Host:\s*(\S+)".

Definition hostRow (path host : string)
  : jsstring * jsstring * list RegExpMatchArray :=
  (hostPattern, requestText path host, [requestMatch path host]).

Definition hostRequest : jsstring := requestText "/path/to/resource" "example.com".

(** [/b*/g] on ["a"]: an empty match at 0 and one at 1. *)
Definition starMatches : list RegExpMatchArray :=
  [mkMatch [] [] 0; mkMatch [] [] 1].

(** [/b*/g] on the empty text: one empty match, at 0. *)
Definition emptyTextMatch : RegExpMatchArray := mkMatch [] [] 0.

(** [/a(?=(b))/g] on ["ab"]: the match is ["a"], and group 1 captured ["b"]
    inside the lookahead, after the match. *)
Definition lookaheadMatch : RegExpMatchArray :=
  mkMatch (lit "a") [Some (lit "b")] 0.

(** [/(?<=(abc))d/g] on ["abcd"]: the match is ["d"] at 3, and group 1
    captured ["abc"] inside the lookbehind, before the match. *)
Definition lookbehindMatch : RegExpMatchArray :=
  mkMatch (lit "d") [Some (lit "abc")] 3.

Definition sampleRuntime : Runtime :=
  tableRuntime
    [ hostRow "/path/to/resource" "example.com";
      hostRow "/a" "one.com"; hostRow "/b" "two.com"; hostRow "/c" "three.com";
      hostRow "/a" "example.com"; hostRow "/b" "example.com";
      (lit "b*", lit "a", starMatches);
      (lit "b*", [], [emptyTextMatch]);
      (lit "a(?=(b))", lit "ab", [lookaheadMatch]);
      (lit "(?<=(abc))d", lit "abcd", [lookbehindMatch]) ].

(** The host of the test suite: a project is selected, the last request
    is the last of [items], and one page serves them all. *)
Definition hostOf (items : list Item) : SDK :=
  mkSDK (Some (lit "test-project")) false
        (match rev items with last :: _ => [last] | [] => [] end) false
        (fun _ => LastPage false items [])
        (fun _ => true) 1000 1250.

Definition requestItem (id : N) (raw : jsstring) : Item :=
  mkItem (mkRequest id (Some raw)) None.

(** [defaultOptions] of the test suite. *)
Definition defaultOptions : GrepOptions :=
  mkOptions true false None (Some [0]) false false None false None.

Definition withGroups (gs : list Z) (maxResults : option Z) : GrepOptions :=
  mkOptions true false maxResults (Some gs) false false None false None.

(** A host without a selected project, and one without requests. *)
Definition noProject : SDK :=
  mkSDK None false [] false (fun _ => LastPage false [] []) (fun _ => true)
        1000 1250.

Definition noRequests : SDK := hostOf [].

(** The host without a selected project, on which [stopGrep()] is called
    while the run awaits the project. *)
Definition stoppedWithoutProject : SDK :=
  mkSDK None true [] false (fun _ => LastPage false [] []) (fun _ => true)
        1000 1250.

Fixpoint countFrom (i : N) (n : nat) : list N :=
  match n with
  | O => []
  | S n' => i :: countFrom (N.succ i) n'
  end.

(** A map of [n] matches with distinct values. *)
Definition manyMatches (n : N) : JSMap MatchResult :=
  map (fun i => ([i], mkMatchResult [i] 1 request 0 1))
      (countFrom 0 (N.to_nat n)).

(** The transform of the test suite, [return match.toUpperCase();], on
    ASCII text; a script that throws; a script that returns [null]; and a
    script that returns the number 42. *)
Definition toUpperCase (s : jsstring) : jsstring :=
  map (fun c => if (97 <=? c)%N && (c <=? 122)%N then (c - 32)%N else c) s.

Definition upperScript : Script :=
  mkScript (lit "return match.toUpperCase();")
           (fun v => Normal (VString (toUpperCase v))).

Definition throwingScript : Script :=
  mkScript (lit "throw new Error('no');") (fun _ => Throw (lit "no")).

Definition nullScript : Script :=
  mkScript (lit "return null;") (fun _ => Normal VNull).

Definition numberScript : Script :=
  mkScript (lit "return 42;") (fun _ => Normal (VOther (Normal (lit "42")))).

Definition idle : World := mkWorld false [] [] false.

Definition threeHosts : SDK :=
  hostOf [ requestItem 1 (requestText "/a" "one.com");
           requestItem 2 (requestText "/b" "two.com");
           requestItem 3 (requestText "/c" "three.com") ].

(** The same three requests served on two pages, [stopGrep()] running
    while the second page is awaited. *)
Definition stoppedOnSecondPage : SDK :=
  mkSDK (Some (lit "test-project")) false
        [requestItem 3 (requestText "/c" "three.com")] false
        (fun _ =>
           MorePages false [requestItem 1 (requestText "/a" "one.com")] (lit "1")
             (LastPage true
                [ requestItem 2 (requestText "/b" "two.com");
                  requestItem 3 (requestText "/c" "three.com") ] (lit "3")))
        (fun _ => true) 1000 1250.

Definition sameHostTwice : SDK :=
  hostOf [ requestItem 1 (requestText "/a" "example.com");
           requestItem 2 (requestText "/b" "example.com") ].

(** The record of the first request of [threeHosts], and the whole match
    of the host pattern in it as the search tags it. *)
Definition firstHost : Item := requestItem 1 (requestText "/a" "one.com").

Definition wholeHostMatch : MatchResult :=
  mkMatchResult (m_whole (requestMatch "/a" "one.com")) 1 request 0
    (len (m_whole (requestMatch "/a" "one.com"))).

(* ===================================================================== *)
(** * services/grep.ts: the rest of the result store                     *)
(* ===================================================================== *)

(** [grepStore.getValues()] *)
Definition getValues (store : JSMap MatchResult) : list jsstring :=
  map_keys store.

(** The envelope of [downloadResults]. *)
Record Download := mkDownload {
  dl_data : option (list MatchResult);
  dl_error : option jsstring
}.

Definition downloadResults (w : World) : Download :=
  if map_size (grepStore w) =? 0
  then mkDownload None (Some (lit "No grep results available"))
  else mkDownload (Some (getMatches (grepStore w))) None.

(* ===================================================================== *)
(** * The handler of the match viewer's data                             *)
(* ===================================================================== *)

Record RequestData := mkRequestData {
  requestRaw : jsstring;
  responseRaw : option jsstring
}.

Record RequestDataResult := mkRequestDataResult {
  rd_data : option RequestData;
  rd_error : option jsstring
}.

(** [getRequestData], by what [await sdk.requests.get(requestId)] gives:
    the record, [undefined], or a rejection. *)
Definition getRequestData (reqRes : Completion (option Item)) : RequestDataResult :=
  match reqRes with
  | Throw message => mkRequestDataResult None (Some message)
  | Normal None => mkRequestDataResult None (Some (lit "Request not found"))
  | Normal (Some reqRes) =>
      let requestRaw := toText (getRaw (item_request reqRes)) in
      let responseRaw :=
        match item_response reqRes with
        | Some resp =>
            let text := toText (resp_getRaw resp) in
            if isEmpty text then None else Some text
        | None => None
        end in
      mkRequestDataResult (Some (mkRequestData requestRaw responseRaw)) None
  end.

(* ===================================================================== *)
(** * frontend: components/results/MatchViewer.vue                       *)
(* ===================================================================== *)

Definition escapeHtml (text : jsstring) : jsstring :=
  replaceAll 39 (lit "&#039;")
    (replaceAll 34 (lit "&quot;")
       (replaceAll 62 (lit "&gt;")
          (replaceAll 60 (lit "&lt;")
             (replaceAll 38 (lit "&amp;") text)))).

(** The opening tag of the highlight,
    [<mark style="..." id="grep-match-highlight">]. *)
Definition MARK_OPEN : jsstring :=
  lit "<mark style=" ++ [dquote]
  ++ lit "background:#dc2626;color:#fff;padding:1px 3px;border-radius:2px;font-weight:600"
  ++ [dquote] ++ lit " id=" ++ [dquote] ++ lit "grep-match-highlight"
  ++ [dquote] ++ lit ">".

Definition MARK_CLOSE : jsstring := lit "</mark>".

Definition source_eqb (a b : Source) : bool :=
  match a, b with
  | request, request => true
  | response, response => true
  | _, _ => false
  end.

(** The body the two computed properties share, from the second test on:
    [side] is the side of the pane, [text] its non-empty raw text. *)
Definition highlight (side : Source) (text : jsstring) (m : MatchResult)
  : jsstring :=
  if negb (source_eqb (source_ m) side) then escapeHtml text
  else
    let startIndex := startIndex m in
    let endIndex := endIndex m in
    if (startIndex >=? 0) && (endIndex <=? len text) && (startIndex <? endIndex)
    then
      let before := escapeHtml (slice text 0 startIndex) in
      let matched := escapeHtml (slice text startIndex endIndex) in
      let after := escapeHtml (sliceFrom text endIndex) in
      before ++ MARK_OPEN ++ matched ++ MARK_CLOSE ++ after
    else escapeHtml text.

Definition highlightedRequest (requestRaw : jsstring) (m : MatchResult)
  : jsstring :=
  if isEmpty requestRaw then [] else highlight request requestRaw m.

Definition highlightedResponse (responseRaw : option jsstring) (m : MatchResult)
  : jsstring :=
  match responseRaw with
  | None => []
  | Some raw => if isEmpty raw then [] else highlight response raw m
  end.

(* ===================================================================== *)
(** * frontend: the grep store and the batch search store                *)
(* ===================================================================== *)

(** The refs of the grep store that the backend events update. *)
Record UI := mkUI {
  ui_progress : Z;
  ui_searchResults : option (list MatchResult);
  ui_uniqueMatchesCount : Z
}.

(** The refs as [searchGrepRequests] resets them before it calls the
    backend. *)
Definition searchStart : UI := mkUI 0 None 0.

(** [searchResults.value || []] *)
Definition resultsOrEmpty (r : option (list MatchResult)) : list MatchResult :=
  match r with Some l => l | None => [] end.

(** The two handlers of [sdk.backend.onEvent], by the event received. *)
Definition onEvent (ui : UI) (e : Event) : UI :=
  match e with
  | progressEvent v =>
      mkUI v (ui_searchResults ui) (ui_uniqueMatchesCount ui)
  | matchesCount_ n =>
      mkUI (ui_progress ui) (ui_searchResults ui) (ui_uniqueMatchesCount ui + n)
  | matchesArray l =>
      mkUI (ui_progress ui)
           (Some (resultsOrEmpty (ui_searchResults ui) ++ l))
           (ui_uniqueMatchesCount ui + len l)
  end.

(** The refs after the events of a log, received in the order sent. *)
Definition receive (ui : UI) (log : list Event) : UI := fold_left onEvent log ui.

(** [Math.round(x)]: the nearest integer, ties going up. *)
Definition Math_round (x : Q) : Z := Qfloor (x + (1 # 2)).

(** [progress] of the batch search store, from the two counters of its
    status. *)
Definition batchProgress (rt : Runtime) (patternsCompleted totalPatterns : Z) : Z :=
  if totalPatterns =? 0 then 0
  else
    Math_round
      (round rt (round rt (inject_Z patternsCompleted / inject_Z totalPatterns) * 100)).

(* ===================================================================== *)
(** * Specification-side definitions for the rest of the code            *)
(* ===================================================================== *)

(** Reading a quoted string back: a backslash stands for the code unit
    after it. *)
Fixpoint unescape (s : jsstring) : jsstring :=
  match s with
  | [] => []
  | c :: rest =>
      if (c =? backslash)%N
      then match rest with
           | [] => []
           | d :: rest' => d :: unescape rest'
           end
      else c :: unescape rest
  end.

(** A double quote that no backslash escapes: where a reader of the
    quoted string would stop. *)
Fixpoint hasBareQuote (s : jsstring) : bool :=
  match s with
  | [] => false
  | c :: rest =>
      if (c =? backslash)%N
      then match rest with
           | [] => false
           | _ :: rest' => hasBareQuote rest'
           end
      else (c =? dquote)%N || hasBareQuote rest
  end.

(** The entity [escapeHtml] writes for a code unit. *)
Definition htmlEntity (c : N) : jsstring :=
  if (c =? 38)%N then lit "&amp;"
  else if (c =? 60)%N then lit "&lt;"
  else if (c =? 62)%N then lit "&gt;"
  else if (c =? 34)%N then lit "&quot;"
  else if (c =? 39)%N then lit "&#039;"
  else [c].

(** A code unit that opens or closes markup or an attribute value. *)
Definition isMarkup (c : N) : bool :=
  (c =? 60)%N || (c =? 62)%N || (c =? 34)%N || (c =? 39)%N.

(** The pane of the viewer on the side the match was found in. *)
Definition paneOf (d : RequestData) (m : MatchResult) : jsstring :=
  match source_ m with
  | request => highlightedRequest (requestRaw d) m
  | response => highlightedResponse (responseRaw d) m
  end.

(** The text of one side of a record, as the search reads it. *)
Definition sideText (item : Item) (side : Source) : jsstring :=
  match side with
  | request => toText (getRaw (item_request item))
  | response =>
      match item_response item with
      | Some resp => toText (resp_getRaw resp)
      | None => []
      end
  end.

(** The group lists under which the extractor emits whole matches. *)
Definition wholeMatchMode (matchGroups : option (list Z)) : bool :=
  match matchGroups with
  | None => true
  | Some [] => true
  | Some (g :: _) => g =? 0
  end.

(** [options.transformScript] is falsy: no script, or an empty one. *)
Definition noTransform (options : GrepOptions) : bool :=
  match transformScript options with
  | Some script => isEmpty (script_source script)
  | None => true
  end.

(** No page of the run is stopped, and no query fails. *)
Fixpoint undisturbed (pages : Pages) : bool :=
  match pages with
  | LastPage stop _ _ => negb stop
  | MorePages stop _ _ rest => negb stop && undisturbed rest
  | QueryFails _ => false
  end.


(* ===================================================================== *)
(** * Strings: lemmas                                                    *)
(* ===================================================================== *)

Lemma str_eqb_eq (a b : jsstring) : str_eqb a b = true <-> a = b.
Proof.
  revert b; induction a as [|x a IH]; intros [|y b]; simpl; split;
    try congruence; try reflexivity.
  - intros H. apply andb_true_iff in H as [Hx Hab].
    apply N.eqb_eq in Hx. apply IH in Hab. congruence.
  - intros H. injection H as -> ->. rewrite N.eqb_refl. simpl. now apply IH.
Qed.

Lemma str_eqb_refl (a : jsstring) : str_eqb a a = true.
Proof. now apply str_eqb_eq. Qed.

Lemma str_eqb_neq (a b : jsstring) : str_eqb a b = false <-> a <> b.
Proof.
  split.
  - intros H E. apply str_eqb_eq in E. congruence.
  - intros H. destruct (str_eqb a b) eqn:E; [|reflexivity].
    apply str_eqb_eq in E. contradiction.
Qed.

Lemma len_nonneg {A : Type} (l : list A) : 0 <= len l.
Proof. unfold len. lia. Qed.

Lemma len_app {A : Type} (l1 l2 : list A) : len (l1 ++ l2) = len l1 + len l2.
Proof. unfold len. rewrite length_app. lia. Qed.

Lemma len_nil_iff {A : Type} (l : list A) : len l = 0 <-> l = [].
Proof.
  unfold len. destruct l; simpl; split; intros H; try reflexivity;
    try discriminate; lia.
Qed.

(** [startsWith] is "is a prefix of". *)
Lemma startsWith_app (s p : jsstring) :
  startsWith s p = true <-> exists rest, s = p ++ rest.
Proof.
  revert s; induction p as [|a p IH]; intros s; simpl.
  - split; [intros _; now exists s | intros _; now destruct s].
  - destruct s as [|b s]; simpl.
    + split; [discriminate | intros [r H]; discriminate].
    + rewrite andb_true_iff, N.eqb_eq, IH. split.
      * intros [-> [r ->]]. now exists r.
      * intros [r H]. injection H as -> ->. split; [reflexivity | now exists r].
Qed.

Lemma startsWith_self (s : jsstring) : startsWith s s = true.
Proof. apply startsWith_app. exists []. now rewrite app_nil_r. Qed.

Lemma indexOf_from_range (s search : jsstring) (i : Z) :
  indexOf_from s search i = -1
  \/ (i <= indexOf_from s search i <= i + len s).
Proof.
  revert i; induction s as [|c s IH]; intros i; cbn [indexOf_from].
  - destruct (startsWith [] search); [right | left]; unfold len; simpl; lia.
  - destruct (startsWith (c :: s) search).
    + right. pose proof (len_nonneg (c :: s)). lia.
    + destruct (IH (i + 1)) as [H | H]; [now left | right].
      unfold len in *. simpl List.length. lia.
Qed.

(** Where [indexOf] finds the needle, the needle is there. *)
Lemma indexOf_from_found (s search : jsstring) (i k : Z) :
  indexOf_from s search i = k -> k <> -1 -> 0 <= i ->
  startsWith (skipn (Z.to_nat (k - i)) s) search = true.
Proof.
  revert i; induction s as [|c s IH]; intros i; cbn [indexOf_from].
  - destruct (startsWith [] search) eqn:E.
    + intros <- _ _. rewrite Z.sub_diag. simpl. exact E.
    + intros <- H. contradiction.
  - destruct (startsWith (c :: s) search) eqn:E.
    + intros <- _ _. rewrite Z.sub_diag. simpl. exact E.
    + intros H Hk Hi.
      pose proof (IH (i + 1) H Hk ltac:(lia)) as IH'.
      destruct (indexOf_from_range s search (i + 1)) as [R | R];
        [congruence |].
      replace (Z.to_nat (k - i)) with (S (Z.to_nat (k - (i + 1)))) by lia.
      simpl. exact IH'.
Qed.

(** [indexOf] skips no occurrence: before the index it returns, and
    everywhere when it returns [-1], the needle does not start. *)
Lemma indexOf_from_first (s search : jsstring) (i : Z) (q : nat) :
  0 <= i ->
  (indexOf_from s search i = -1 \/ Z.of_nat q < indexOf_from s search i - i) ->
  (q <= List.length s)%nat ->
  startsWith (skipn q s) search = false.
Proof.
  revert i q; induction s as [|c s IH]; intros i q Hi H Hq;
    cbn [indexOf_from List.length] in *.
  - assert (q = 0)%nat as -> by lia. cbn [skipn].
    destruct (startsWith [] search); [|reflexivity].
    destruct H; lia.
  - destruct (startsWith (c :: s) search) eqn:E.
    + destruct H; lia.
    + destruct q as [|q]; simpl; [exact E |].
      apply (IH (i + 1)); [lia | | lia].
      destruct H as [H | H]; [now left | right; lia].
Qed.

Lemma occursAt_startsWith (hay needle : jsstring) (p : nat) :
  occursAt hay needle p <->
  (startsWith (skipn p hay) needle = true /\ (p <= List.length hay)%nat).
Proof.
  unfold occursAt. rewrite startsWith_app. split.
  - intros [H L]. split; [|lia].
    exists (skipn (List.length needle) (skipn p hay)).
    rewrite <- H at 1. now rewrite firstn_skipn.
  - intros [[r H] L]. split.
    + rewrite H. rewrite firstn_app, Nat.sub_diag, firstn_all. simpl.
      now rewrite app_nil_r.
    + assert (List.length (skipn p hay) = List.length (needle ++ r))
        by now rewrite H.
      rewrite length_skipn, length_app in H0. lia.
Qed.

(** [indexOf] against the specification of a first occurrence. *)
Lemma indexOf_firstOccurrence (hay needle : jsstring) (p : nat) :
  firstOccurrence hay needle p -> indexOf hay needle = Z.of_nat p.
Proof.
  intros [Hocc Hfirst]. unfold indexOf.
  apply occursAt_startsWith in Hocc as [Hs Hp].
  destruct (indexOf_from_range hay needle 0) as [R | R].
  - rewrite (indexOf_from_first hay needle 0 p) in Hs; try lia; discriminate.
  - destruct (Z.lt_trichotomy (indexOf_from hay needle 0) (Z.of_nat p))
      as [Lt | [Eq | Gt]]; [| exact Eq |].
    + exfalso.
      apply (Hfirst (Z.to_nat (indexOf_from hay needle 0))); [lia |].
      apply occursAt_startsWith. split.
      * pose proof (indexOf_from_found hay needle 0 _ eq_refl) as F.
        rewrite Z.sub_0_r in F. apply F; lia.
      * unfold len in R. lia.
    + rewrite (indexOf_from_first hay needle 0 p) in Hs; try lia; discriminate.
Qed.

(** A text that has [w] at [i], where [w] has [g] at [k], has [g] at
    [i + k]. *)
Lemma startsWith_nested (text w g : jsstring) (i k : nat) :
  startsWith (skipn i text) w = true ->
  startsWith (skipn k w) g = true ->
  (k <= List.length w)%nat ->
  startsWith (skipn (i + k) text) g = true.
Proof.
  rewrite !startsWith_app. intros [r1 H1] [r2 H2] Hk.
  exists (r2 ++ r1).
  rewrite Nat.add_comm, <- skipn_skipn, H1, skipn_app.
  replace (k - List.length w)%nat with 0%nat by lia.
  simpl. now rewrite H2, app_assoc.
Qed.

(** [text.slice(a, a + g.length)] is [g] where [text] has [g] at [a]. *)
Lemma slice_startsWith (text g : jsstring) (a : Z) :
  0 <= a -> a <= len text ->
  startsWith (skipn (Z.to_nat a) text) g = true ->
  slice text a (a + len g) = g /\ a + len g <= len text.
Proof.
  intros Ha Hle H. apply startsWith_app in H as [r H].
  assert (L : a + len g <= len text).
  { assert (E : List.length (skipn (Z.to_nat a) text) = List.length (g ++ r))
      by now rewrite H.
    rewrite length_skipn, length_app in E. unfold len in *. lia. }
  split; [|exact L].
  unfold slice, clampIndex.
  pose proof (len_nonneg g).
  destruct (Z.ltb_spec a 0); [lia |].
  destruct (Z.ltb_spec (a + len g) 0); [lia |].
  rewrite !Z.min_l by lia.
  replace (a + len g - a) with (len g) by lia.
  rewrite H. unfold len. rewrite Nat2Z.id.
  rewrite firstn_app, Nat.sub_diag, firstn_all. simpl. now rewrite app_nil_r.
Qed.

(* ===================================================================== *)
(** * The match extractor                                                *)
(* ===================================================================== *)

Lemma push_loop_map {A B : Type} (f : A -> B) (l : list A) (acc : list B) :
  fold_left (fun results m => results ++ [f m]) l acc = acc ++ map f l.
Proof.
  revert acc; induction l as [|x l IH]; intros acc; simpl.
  - now rewrite app_nil_r.
  - rewrite IH, <- app_assoc. reflexivity.
Qed.

(** The extractor is the per-match emission mapped over the matches of a
    non-empty text. *)
Lemma extractMatches_map rt text regex mg :
  extractMatches rt text regex mg =
  if isEmpty text then []
  else map (extractOne mg) (String_matchAll rt text (RegExp_from regex (lit "g"))).
Proof.
  unfold extractMatches. destruct (isEmpty text); [reflexivity|].
  destruct (String_matchAll rt text (RegExp_from regex (lit "g"))) as [|m ms] eqn:E;
    [reflexivity|].
  cbn [isEmpty]. now rewrite push_loop_map.
Qed.

Lemma scanGroups_firstDefined (m : RegExpMatchArray) (gs : list Z) :
  scanGroups m gs =
  match firstDefinedGroup m gs with
  | Some v =>
      let off := indexOf (m_whole m) v in
      let start := m_index m + (if off >=? 0 then off else 0) in
      Some (mkExtracted v start (start + len v))
  | None => None
  end.
Proof.
  unfold firstDefinedGroup.
  induction gs as [|g gs IH]; simpl; [reflexivity|].
  destruct (group m g) as [v|] eqn:G; simpl.
  - rewrite G. reflexivity.
  - exact IH.
Qed.

Lemma extractOne_cases (mg : option (list Z)) (m : RegExpMatchArray) :
  extractOne mg m =
  match mg with
  | Some gs =>
      match scanGroups m gs with Some e => e | None => wholeMatch m end
  | None => wholeMatch m
  end.
Proof. destruct mg as [[|g gs]|]; reflexivity. Qed.

Lemma Forall2_map_right {A B : Type} (R : A -> B -> Prop) (f : A -> B) (l : list A) :
  (forall x, In x l -> R x (f x)) -> Forall2 R l (map f l).
Proof.
  induction l as [|x l IH]; intros H; simpl; constructor.
  - apply H. now left.
  - apply IH. intros y Hy. apply H. now right.
Qed.

(** C4: on a non-empty text, for each match occurrence in turn the
    extractor emits the value of the first listed group index whose
    captured value is defined, starting at the whole match's offset plus
    the position of the first occurrence of that value in the whole match;
    when no listed group took part it emits the whole match with its own
    offsets, which is also what it emits for an absent or empty list.  On
    the empty text it emits nothing, whatever the regex matches there and
    whatever the group list. *)
Theorem C4_extractMatches_group_priority
  (rt : Runtime) (text : jsstring) (regex : RegExp) (gs : list Z) :
  let found := String_matchAll rt text (RegExp_from regex (lit "g")) in
  (text <> [] ->
   Forall2 (emitsAsSpecified gs) found (extractMatches rt text regex (Some gs))
   /\ extractMatches rt text regex None = map wholeMatch found
   /\ extractMatches rt text regex (Some []) = map wholeMatch found)
  /\ (text = [] ->
      forall matchGroups, extractMatches rt text regex matchGroups = []).
Proof.
  intros found. split.
  - intros Htext. rewrite !extractMatches_map.
    destruct text as [|c text]; [contradiction|]. cbn [isEmpty].
    split; [|split; reflexivity].
    apply Forall2_map_right. intros m _.
    unfold emitsAsSpecified. rewrite extractOne_cases, scanGroups_firstDefined.
    destruct (firstDefinedGroup m gs) as [v|]; [|reflexivity].
    cbn zeta. split; [reflexivity|].
    intros p Hp. cbn [e_startIndex].
    rewrite (indexOf_firstOccurrence _ _ _ Hp).
    destruct (Z.geb_spec (Z.of_nat p) 0); lia.
  - intros -> matchGroups. reflexivity.
Qed.

(** On the empty text [/b*/g] has one match, the empty one at 0, for
    which group 0 is defined; the extractor emits nothing for it. *)
Lemma C4_counterexample_empty_text :
  String_matchAll sampleRuntime []
    (RegExp_from (mkRegExp (lit "b*") (lit "i")) (lit "g"))
  = [emptyTextMatch]
  /\ firstDefinedGroup emptyTextMatch [0] = Some []
  /\ extractMatches sampleRuntime [] (mkRegExp (lit "b*") (lit "i")) (Some [0]) = []
  /\ ~ Forall2 (emitsAsSpecified [0])
        (String_matchAll sampleRuntime []
           (RegExp_from (mkRegExp (lit "b*") (lit "i")) (lit "g")))
        (extractMatches sampleRuntime [] (mkRegExp (lit "b*") (lit "i"))
           (Some [0]))
  /\ extractMatches sampleRuntime [] (mkRegExp (lit "b*") (lit "i")) None
     <> map wholeMatch
          (String_matchAll sampleRuntime []
             (RegExp_from (mkRegExp (lit "b*") (lit "i")) (lit "g"))).
Proof.
  split; [vm_compute; reflexivity|].
  split; [vm_compute; reflexivity|].
  split; [vm_compute; reflexivity|].
  split.
  - intros H. vm_compute in H. inversion H.
  - vm_compute. discriminate.
Qed.

Example extract_path_then_host :
  extractMatches sampleRuntime hostRequest (mkRegExp hostPattern (lit "i"))
    (Some [1; 2])
  = [mkExtracted (lit "/path/to/resource") 4 21].
Proof. vm_compute. reflexivity. Qed.

Example extract_host :
  extractMatches sampleRuntime hostRequest (mkRegExp hostPattern (lit "i"))
    (Some [2])
  = [mkExtracted (lit "example.com") 38 49].
Proof. vm_compute. reflexivity. Qed.

Lemma C4_witness :
  let found :=
    String_matchAll sampleRuntime hostRequest
      (RegExp_from (mkRegExp hostPattern (lit "i")) (lit "g")) in
  Forall2 (emitsAsSpecified [1; 2]) found
    (extractMatches sampleRuntime hostRequest (mkRegExp hostPattern (lit "i"))
       (Some [1; 2]))
  /\ extractMatches sampleRuntime hostRequest (mkRegExp hostPattern (lit "i")) None
     = map wholeMatch found
  /\ extractMatches sampleRuntime hostRequest (mkRegExp hostPattern (lit "i"))
       (Some [])
     = map wholeMatch found.
Proof.
  apply (proj1 (C4_extractMatches_group_priority sampleRuntime hostRequest
                  (mkRegExp hostPattern (lit "i")) [1; 2])).
  discriminate.
Defined.

Lemma indexOf_self (s : jsstring) : indexOf s s = 0.
Proof.
  unfold indexOf. destruct s as [|c s]; cbn [indexOf_from].
  - reflexivity.
  - now rewrite startsWith_self.
Qed.

(** Every emission ends [value.length] after its start, and starts at the
    whole match's offset plus the offset [indexOf] found, or plus 0. *)
Lemma extractOne_shape (mg : option (list Z)) (m : RegExpMatchArray) :
  let e := extractOne mg m in
  e_endIndex e = e_startIndex e + len (e_value e)
  /\ e_startIndex e = m_index m + Z.max 0 (indexOf (m_whole m) (e_value e)).
Proof.
  assert (W : let e := wholeMatch m in
              e_endIndex e = e_startIndex e + len (e_value e)
              /\ e_startIndex e = m_index m + Z.max 0 (indexOf (m_whole m) (e_value e))).
  { cbn. rewrite indexOf_self. split; lia. }
  rewrite extractOne_cases. destruct mg as [gs|]; [|exact W].
  rewrite scanGroups_firstDefined.
  destruct (firstDefinedGroup m gs) as [v|]; [|exact W].
  cbn. split; [reflexivity|].
  destruct (Z.geb_spec (indexOf (m_whole m) v) 0); lia.
Qed.

(** For a match that lies in the text, an emitted value that occurs in the
    whole match is the text at the emitted range. *)
Lemma extractOne_in_text (text : jsstring) (mg : option (list Z))
  (m : RegExpMatchArray) :
  match_in_text text m = true ->
  let e := extractOne mg m in
  0 <= e_startIndex e
  /\ (0 <= indexOf (m_whole m) (e_value e) ->
      slice text (e_startIndex e) (e_endIndex e) = e_value e
      /\ e_endIndex e <= len text).
Proof.
  intros Hm e. destruct (extractOne_shape mg m) as [Hend Hstart].
  fold e in Hend, Hstart.
  unfold match_in_text in Hm.
  apply andb_true_iff in Hm as [Hm Hw]. apply andb_true_iff in Hm as [H0 Hl].
  apply Z.leb_le in H0, Hl.
  split; [lia|]. intros Hoff.
  set (off := indexOf (m_whole m) (e_value e)) in *.
  rewrite Z.max_r in Hstart by lia.
  assert (Hin : startsWith (skipn (Z.to_nat off) (m_whole m)) (e_value e) = true
                /\ off <= len (m_whole m)).
  { destruct (indexOf_from_range (m_whole m) (e_value e) 0) as [R | R];
      [unfold off, indexOf in Hoff; lia|].
    split; [|unfold off, indexOf; lia].
    pose proof (indexOf_from_found (m_whole m) (e_value e) 0 _ eq_refl) as F.
    rewrite Z.sub_0_r in F. apply F; unfold off, indexOf in Hoff; lia. }
  destruct Hin as [Hin Hoffle].
  pose proof (startsWith_nested text (m_whole m) (e_value e)
                (Z.to_nat (m_index m)) (Z.to_nat off) Hw Hin) as N.
  assert (Hw' := Hw). apply startsWith_app in Hw' as [r Hr].
  assert (Lw : m_index m + len (m_whole m) <= len text).
  { assert (E : List.length (skipn (Z.to_nat (m_index m)) text)
                = List.length (m_whole m ++ r)) by now rewrite Hr.
    rewrite length_skipn, length_app in E. unfold len in *. lia. }
  rewrite Hend, Hstart.
  apply slice_startsWith; [lia | lia |].
  replace (Z.to_nat (m_index m + off))
    with (Z.to_nat (m_index m) + Z.to_nat off)%nat by lia.
  apply N. unfold len in Hoffle. lia.
Qed.

Lemma Forall_map_intro {A B : Type} (P : B -> Prop) (f : A -> B) (l : list A) :
  (forall x, In x l -> P (f x)) -> Forall P (map f l).
Proof.
  intros H. apply Forall_forall. intros y Hy.
  apply in_map_iff in Hy as [x [<- Hx]]. now apply H.
Qed.

(** C10, as the code has it: every emitted match ends [value.length] after
    its start, and the text between its indices is its value whenever the
    value occurs in the whole match it was taken from (always so for a
    whole match; a group captured in a lookaround need not). *)
Theorem C10_extracted_range_holds_value
  (rt : Runtime) (text : jsstring) (regex : RegExp) (mg : option (list Z)) :
  let found := String_matchAll rt text (RegExp_from regex (lit "g")) in
  forallb (match_in_text text) found = true ->
  Forall
    (fun e =>
       e_endIndex e = e_startIndex e + len (e_value e)
       /\ exists m, In m found /\ e = extractOne mg m
            /\ (e_value e = m_whole m \/ 0 <= indexOf (m_whole m) (e_value e) ->
                rangeHoldsValue text e))
    (extractMatches rt text regex mg).
Proof.
  intros found Hwf. rewrite extractMatches_map.
  destruct (isEmpty text); [constructor|].
  apply Forall_map_intro. intros m Hm.
  destruct (extractOne_shape mg m) as [Hend _].
  split; [exact Hend|]. exists m. split; [exact Hm|]. split; [reflexivity|].
  intros Hocc. split; [exact Hend|].
  rewrite forallb_forall in Hwf.
  apply (extractOne_in_text text mg m (Hwf m Hm)).
  destruct Hocc as [-> | H]; [rewrite indexOf_self; lia | exact H].
Qed.

Lemma C10_witness :
  Forall
    (fun e =>
       e_endIndex e = e_startIndex e + len (e_value e)
       /\ exists m,
            In m (String_matchAll sampleRuntime hostRequest
                    (RegExp_from (mkRegExp hostPattern (lit "i")) (lit "g")))
            /\ e = extractOne (Some [2]) m
            /\ (e_value e = m_whole m \/ 0 <= indexOf (m_whole m) (e_value e) ->
                rangeHoldsValue hostRequest e))
    (extractMatches sampleRuntime hostRequest (mkRegExp hostPattern (lit "i"))
       (Some [2])).
Proof.
  apply (C10_extracted_range_holds_value sampleRuntime hostRequest
           (mkRegExp hostPattern (lit "i")) (Some [2])).
  vm_compute. reflexivity.
Defined.

(** C10 as stated fails: for [/a(?=(b))/] on ["ab"] with group 1, the
    engine's match lies in the text, the extractor emits ["b"] at 0..1, and
    the text there is ["a"]. *)
Lemma C10_counterexample_lookahead_group :
  forallb (match_in_text (lit "ab"))
    (String_matchAll sampleRuntime (lit "ab")
       (RegExp_from (mkRegExp (lit "a(?=(b))") (lit "i")) (lit "g"))) = true
  /\ extractMatches sampleRuntime (lit "ab") (mkRegExp (lit "a(?=(b))") (lit "i"))
       (Some [1])
     = [mkExtracted (lit "b") 0 1]
  /\ slice (lit "ab") 0 1 = lit "a"
  /\ ~ Forall (rangeHoldsValue (lit "ab"))
         (extractMatches sampleRuntime (lit "ab")
            (mkRegExp (lit "a(?=(b))") (lit "i")) (Some [1])).
Proof.
  split; [vm_compute; reflexivity|].
  split; [vm_compute; reflexivity|].
  split; [vm_compute; reflexivity|].
  intros H. inversion H as [|e l [_ Hs] _]; subst.
  vm_compute in Hs. discriminate.
Qed.

(* ===================================================================== *)
(** * The result map                                                     *)
(* ===================================================================== *)

Lemma map_has_true {V : Type} (m : JSMap V) (k : jsstring) :
  map_has m k = true <-> In k (map_keys m).
Proof.
  unfold map_has, map_keys. rewrite existsb_exists, in_map_iff. split.
  - intros [kv [H E]]. apply str_eqb_eq in E. now exists kv.
  - intros [kv [E H]]. exists kv. split; [exact H | now apply str_eqb_eq].
Qed.

Lemma map_has_false {V : Type} (m : JSMap V) (k : jsstring) :
  map_has m k = false <-> ~ In k (map_keys m).
Proof.
  rewrite <- map_has_true. destruct (map_has m k); split; intros H.
  - discriminate.
  - now destruct H.
  - intros E. discriminate.
  - reflexivity.
Qed.

(** [set] on a new key appends the entry. *)
Lemma map_set_new {V : Type} (m : JSMap V) (k : jsstring) (v : V) :
  map_has m k = false -> map_set m k v = m ++ [(k, v)].
Proof.
  induction m as [|[k' v'] m IH]; simpl; intros H; [reflexivity|].
  apply orb_false_iff in H as [H1 H2]. rewrite H1, IH by exact H2. reflexivity.
Qed.

Lemma map_size_app {V : Type} (m1 m2 : JSMap V) :
  map_size (m1 ++ m2) = map_size m1 + map_size m2.
Proof. apply len_app. Qed.

Lemma belowMax_maxReached (options : GrepOptions) (m : JSMap MatchResult) :
  belowMax options m = negb (maxReached options m).
Proof.
  unfold belowMax, maxReached. destruct (maxResults options) as [k|];
    [|reflexivity].
  destruct (k =? 0); simpl; [reflexivity|].
  now rewrite Z.leb_antisym, negb_involutive.
Qed.

Section Collect.
Variable options : GrepOptions.

Lemma collect_app (cs1 cs2 : list MatchResult) (m : JSMap MatchResult) :
  collect options (cs1 ++ cs2) m = collect options cs2 (collect options cs1 m).
Proof. apply fold_left_app. Qed.

Lemma collect_cons (c : MatchResult) (cs : list MatchResult)
  (m : JSMap MatchResult) :
  collect options (c :: cs) m = collect options cs (collectStep options m c).
Proof. reflexivity. Qed.

(** Once [maxResults] is reached the map stays as it is. *)
Lemma collect_maxed (cs : list MatchResult) (m : JSMap MatchResult) :
  maxReached options m = true -> collect options cs m = m.
Proof.
  intros H. induction cs as [|c cs IH]; [reflexivity|].
  rewrite collect_cons. unfold collectStep. rewrite H. exact IH.
Qed.

(** What is collected is first-seen deduplication of a prefix of the
    stream. *)
Lemma collect_dedup_prefix (cs : list MatchResult) (m : JSMap MatchResult) :
  exists cs1 cs2,
    cs = cs1 ++ cs2 /\ collect options cs m = dedupFirst cs1 m.
Proof.
  revert m; induction cs as [|c cs IH]; intros m.
  - exists [], []. split; reflexivity.
  - destruct (maxReached options m) eqn:E.
    + exists [], (c :: cs). split; [reflexivity|]. now apply collect_maxed.
    + destruct (IH (insertNew m c)) as [cs1 [cs2 [-> H]]].
      exists (c :: cs1), cs2. split; [reflexivity|].
      rewrite collect_cons. unfold collectStep.
      rewrite E. exact H.
Qed.

Lemma insertNew_size (m : JSMap MatchResult) (c : MatchResult) :
  map_size m <= map_size (insertNew m c) <= map_size m + 1.
Proof.
  unfold insertNew. destruct (map_has m (value c)); [lia|].
  rewrite map_size_app. unfold map_size, len. simpl. lia.
Qed.

(** With [maxResults = k > 0] the map never grows beyond [k]. *)
Lemma collect_bounded (k : Z) (cs : list MatchResult) (m : JSMap MatchResult) :
  maxResults options = Some k -> 0 < k ->
  map_size (collect options cs m) <= Z.max (map_size m) k.
Proof.
  intros Hk Hpos. revert m; induction cs as [|c cs IH]; intros m;
    [cbn; lia|].
  rewrite collect_cons.
  etransitivity; [apply IH|].
  unfold collectStep, maxReached. rewrite Hk.
  destruct (Z.eqb_spec k 0); [lia|]. simpl.
  destruct (Z.leb_spec k (map_size m)); [lia|].
  pose proof (insertNew_size m c). lia.
Qed.
End Collect.

Lemma dedupFirst_app (cs1 cs2 : list MatchResult) (m : JSMap MatchResult) :
  dedupFirst (cs1 ++ cs2) m = dedupFirst cs2 (dedupFirst cs1 m).
Proof. apply fold_left_app. Qed.

(** Deduplication only appends. *)
Lemma dedupFirst_extends (cs : list MatchResult) (m : JSMap MatchResult) :
  exists more, dedupFirst cs m = m ++ more.
Proof.
  revert m; induction cs as [|c cs IH]; intros m; simpl.
  - exists []. now rewrite app_nil_r.
  - destruct (IH (insertNew m c)) as [more H]. rewrite H.
    unfold insertNew. destruct (map_has m (value c)).
    + now exists more.
    + exists ((value c, c) :: more). now rewrite <- app_assoc.
Qed.

Lemma dedupFirst_size (cs : list MatchResult) (m : JSMap MatchResult) :
  map_size (dedupFirst cs m) <= map_size m + len cs.
Proof.
  revert m; induction cs as [|c cs IH]; intros m; simpl.
  - unfold len. simpl. lia.
  - etransitivity; [apply IH|].
    pose proof (insertNew_size m c). unfold len. simpl List.length. lia.
Qed.

Lemma insertNew_wellKeyed (m : JSMap MatchResult) (c : MatchResult) :
  wellKeyed m -> wellKeyed (insertNew m c).
Proof.
  intros [HK HN]. unfold insertNew.
  destruct (map_has m (value c)) eqn:E; [now split|].
  apply map_has_false in E. split.
  - apply Forall_app. split; [exact HK|]. now repeat constructor.
  - unfold map_keys in *. rewrite map_app. simpl.
    apply NoDup_app; [exact HN | repeat constructor; intros [] | ].
    intros k Hk [<- | []]. contradiction.
Qed.

Lemma dedupFirst_wellKeyed (cs : list MatchResult) (m : JSMap MatchResult) :
  wellKeyed m -> wellKeyed (dedupFirst cs m).
Proof.
  revert m; induction cs as [|c cs IH]; intros m H; simpl; [exact H|].
  apply IH. now apply insertNew_wellKeyed.
Qed.

Lemma wellKeyed_values (m : JSMap MatchResult) :
  wellKeyed m -> NoDup (map value (map_values m)).
Proof.
  intros [HK HN]. unfold map_values, map_keys in *.
  rewrite map_map.
  replace (map (fun x => value (snd x)) m) with (map fst m); [exact HN|].
  apply map_ext_in. intros kv Hkv.
  rewrite Forall_forall in HK. now apply HK.
Qed.

(** Every entry was a candidate of the stream. *)
Lemma dedupFirst_values_in (cs : list MatchResult) (m : JSMap MatchResult)
  (c : MatchResult) :
  In c (map_values (dedupFirst cs m)) -> In c (map_values m) \/ In c cs.
Proof.
  revert m; induction cs as [|x cs IH]; intros m H; simpl in *; [now left|].
  apply IH in H as [H | H]; [|now right; right].
  unfold insertNew in H. destruct (map_has m (value x)); [now left|].
  unfold map_values in *. rewrite map_app in H. apply in_app_iff in H as [H|H];
    [now left|].
  simpl in H. destruct H as [<- | []]. right. now left.
Qed.

(** The entry kept for a value is the first candidate of the stream with
    that value. *)
Lemma dedupFirst_first_seen (cs : list MatchResult) (c : MatchResult) :
  In c (map_values (dedupFirst cs [])) ->
  exists before after,
    cs = before ++ c :: after
    /\ Forall (fun x => value x <> value c) before.
Proof.
  assert (G : forall cs m,
             wellKeyed m ->
             In c (map_values (dedupFirst cs m)) ->
             In c (map_values m)
             \/ exists before after,
                  cs = before ++ c :: after
                  /\ Forall (fun x => value x <> value c) before
                  /\ ~ In (value c) (map_keys m)).
  { clear cs. induction cs as [|x cs IH]; intros m WK H; simpl in *;
      [now left|].
    destruct (IH _ (insertNew_wellKeyed m x WK) H) as [Hin | Hex].
    - unfold insertNew in Hin. destruct (map_has m (value x)) eqn:E;
        [now left|].
      unfold map_values in Hin. rewrite map_app in Hin.
      apply in_app_iff in Hin as [Hin | Hin]; [now left|].
      simpl in Hin. destruct Hin as [<- | []].
      right. exists [], cs. repeat split; [constructor|].
      now apply map_has_false.
    - destruct Hex as [before [after [-> [Hb Hn]]]].
      right. exists (x :: before), after. split; [reflexivity|].
      unfold insertNew in Hn. destruct (map_has m (value x)) eqn:E.
      + split; [|exact Hn]. constructor; [|exact Hb].
        intros Eq. apply map_has_true in E. rewrite Eq in E. contradiction.
      + unfold map_keys in Hn. rewrite map_app, in_app_iff in Hn. simpl in Hn.
        split; [constructor; [|exact Hb] | ].
        * intros Eq. apply Hn. right. now left.
        * intros Hk. apply Hn. now left. }
  intros H. destruct (G cs [] (conj (Forall_nil _) (NoDup_nil _)) H)
    as [[] | [before [after [E [Hb _]]]]].
  now exists before, after.
Qed.

(* ===================================================================== *)
(** * The loops of fetchAndProcessRequests                               *)
(* ===================================================================== *)

Lemma candidates_app (options : GrepOptions) (a b : list MatchResult) :
  candidates options (a ++ b) = candidates options a ++ candidates options b.
Proof.
  induction a as [|x a IH]; simpl; [reflexivity|].
  destruct (candidate options x); simpl; now rewrite IH.
Qed.

Lemma candidates_length (options : GrepOptions) (raw : list MatchResult) :
  len (candidates options raw) <= len raw.
Proof.
  unfold len. induction raw as [|x raw IH]; simpl; [lia|].
  destruct (candidate options x); simpl List.length; lia.
Qed.

(** One turn of the loop over [newMatches], by the candidate of the raw
    match. *)
Lemma processMatches_cons (options : GrepOptions) (matchResult : MatchResult)
  (rest : list MatchResult) (f : Frame) (w : World) :
  processMatches options (matchResult :: rest) f w =
  match candidate options matchResult with
  | None => processMatches options rest f w
  | Some c =>
      if negb (map_has (matches f) (value c))
      then
        let f' := set_matches (map_set (matches f) (value c) c) f in
        let w' := set_store (snd (addMatch (grepStore w) c)) w in
        if maxReached options (matches f') then (f', w')
        else processMatches options rest f' w'
      else processMatches options rest f w
  end.
Proof.
  cbn [processMatches]. unfold candidate, finalValue.
  destruct (cleanupOutput options && hasNonPrintable (trim (value matchResult)));
    [reflexivity|].
  destruct (len (trim (value matchResult)) =? 0); [reflexivity|].
  destruct (transformed options (trim (value matchResult))); reflexivity.
Qed.

(** The loop over [newMatches] collects their candidates, into the run's
    map and into the store alike. *)
Lemma processMatches_collect (options : GrepOptions) (raw : list MatchResult)
  (f : Frame) (w : World) :
  maxReached options (matches f) = false ->
  grepStore w = matches f ->
  let M := collect options (candidates options raw) (matches f) in
  processMatches options raw f w = (set_matches M f, set_store M w).
Proof.
  revert f w; induction raw as [|mr raw IH]; intros f w Hmax Hst.
  - destruct f, w; cbn in *; subst; reflexivity.
  - rewrite processMatches_cons. cbn [candidates].
    destruct (candidate options mr) as [c|]; [|now apply IH].
    cbn zeta. rewrite collect_cons. unfold collectStep. rewrite Hmax.
    unfold insertNew.
    destruct (map_has (matches f) (value c)) eqn:Has; cbn [negb];
      [now apply IH|].
    rewrite (map_set_new _ _ _ Has).
    unfold addMatch. rewrite Hst, Has. cbn [negb snd].
    rewrite (map_set_new _ _ _ Has).
    set (M1 := matches f ++ [(value c, c)]).
    destruct (maxReached options (matches (set_matches M1 f))) eqn:Max1.
    + cbn [matches set_matches] in Max1.
      rewrite (collect_maxed options _ _ Max1). reflexivity.
    + specialize (IH (set_matches M1 f) (set_store M1 w) Max1 eq_refl).
      cbn zeta in IH. rewrite IH. reflexivity.
Qed.

(** The loop over the items of a page collects the candidates of their
    raw matches; it sends nothing and, the run being active, throws
    nothing. *)
Lemma processItems_collect (rt : Runtime) (sdk : SDK) (regex : RegExp)
  (options : GrepOptions) (items : list Item) (f : Frame) (w : World) :
  isGrepActive w = true ->
  grepStore w = matches f ->
  let M := collect options
             (candidates options (rawMatchesOf rt sdk regex options items))
             (matches f) in
  exists pid,
    processItems rt sdk regex options items f w
    = (Normal (mkFrame M pid (sentMatchCount f)), set_store M w).
Proof.
  revert f w; induction items as [|item items IH]; intros f w Hact Hst M.
  - exists (processedRequestID f). subst M.
    destruct f, w; cbn in *; subst; reflexivity.
  - cbn [processItems]. rewrite Hact. cbn [negb].
    cbn [matches set_processed].
    destruct (maxReached options (matches f)) eqn:Max.
    + exists (getId (item_request item)). subst M.
      rewrite (collect_maxed options _ _ Max).
      destruct f, w; cbn in *; subst; reflexivity.
    + subst M. unfold rawMatchesOf. cbn [flat_map].
      fold (rawMatchesOf rt sdk regex options items).
      destruct (onlyInScope options
                && negb (requests_inScope sdk (item_request item))).
      * cbn [app].
        destruct (IH (set_processed (getId (item_request item)) f) w Hact Hst)
          as [pid H].
        exists pid. exact H.
      * set (nm := findMatchesInRequestResponse rt (item_request item)
                     (item_response item) regex (matchGroups options)
                     (includeRequests options) (includeResponses options)).
        rewrite candidates_app, collect_app.
        set (f1 := set_processed (getId (item_request item)) f).
        assert (E : (if 0 <? len nm then processMatches options nm f1 w
                     else (f1, w))
                    = processMatches options nm f1 w).
        { destruct nm; reflexivity. }
        rewrite E.
        rewrite (processMatches_collect options nm f1 w Max Hst).
        cbn [matches f1 set_processed].
        set (M1 := collect options (candidates options nm) (matches f)).
        destruct (IH (set_matches M1 f1) (set_store M1 w) Hact eq_refl)
          as [pid H].
        exists pid. rewrite H. reflexivity.
Qed.

(* ===================================================================== *)
(** * The matches events                                                 *)
(* ===================================================================== *)

Lemma slice_in_range {A : Type} (l : list A) (a b : Z) :
  0 <= a -> a <= b -> b <= len l ->
  slice l a b = firstn (Z.to_nat (b - a)) (skipn (Z.to_nat a) l).
Proof.
  intros Ha Hab Hb. unfold slice, clampIndex.
  destruct (Z.ltb_spec a 0); [lia|]. destruct (Z.ltb_spec b 0); [lia|].
  now rewrite !Z.min_l by lia.
Qed.

Lemma slice_app_l {A : Type} (l more : list A) (a b : Z) :
  0 <= a -> a <= b -> b <= len l ->
  slice (l ++ more) a b = slice l a b.
Proof.
  intros Ha Hab Hb.
  rewrite !slice_in_range; try lia; [|rewrite len_app; pose proof (len_nonneg more); lia].
  rewrite skipn_app, firstn_app, length_skipn.
  replace (Z.to_nat (b - a) - (List.length l - Z.to_nat a))%nat with 0%nat
    by (unfold len in Hb; lia).
  rewrite firstn_O, app_nil_r. reflexivity.
Qed.

Lemma sliceFrom_spec {A : Type} (l : list A) (a : Z) :
  0 <= a -> a <= len l ->
  sliceFrom l a = skipn (Z.to_nat a) l /\ len (sliceFrom l a) = len l - a.
Proof.
  intros Ha Hl. unfold sliceFrom. rewrite slice_in_range by lia.
  assert (E : firstn (Z.to_nat (len l - a)) (skipn (Z.to_nat a) l)
              = skipn (Z.to_nat a) l).
  { apply firstn_all2. rewrite length_skipn. unfold len. lia. }
  rewrite E. split; [reflexivity|].
  unfold len in *. rewrite length_skipn. lia.
Qed.

Lemma sentTotal_app (s : Z) (l1 l2 : list Event) :
  sentTotal s (l1 ++ l2) = sentTotal (sentTotal s l1) l2.
Proof. apply fold_left_app. Qed.

Lemma batchesOk_app (all : list MatchResult) (s : Z) (l1 l2 : list Event) :
  batchesOk all s (l1 ++ l2)
  <-> batchesOk all s l1 /\ batchesOk all (sentTotal s l1) l2.
Proof.
  revert s; induction l1 as [|e l1 IH]; intros s; simpl.
  - tauto.
  - rewrite IH. unfold sentTotal. simpl. tauto.
Qed.

(** Events that were rightful stay so when the list of matches grows. *)
Lemma batchesOk_extend (all more : list MatchResult) (s : Z) (log : list Event) :
  0 <= s -> batchesOk all s log -> batchesOk (all ++ more) s log.
Proof.
  revert s; induction log as [|e log IH]; intros s Hs; simpl; [trivial|].
  intros [He Hl]. pose proof (len_nonneg more) as Hm.
  destruct e as [p | new | n]; simpl in *.
  - split; [trivial | now apply IH].
  - destruct He as [H1 [H2 [H3 H4]]]. pose proof (len_nonneg new).
    split; [|apply IH; [lia | exact Hl]].
    repeat split; try assumption; [rewrite len_app; lia|].
    rewrite slice_app_l by lia. exact H4.
  - destruct He as [H1 [H2 H3]].
    split; [|apply IH; [lia | exact Hl]].
    repeat split; try assumption. rewrite len_app. lia.
Qed.


Lemma sentTotal_mono (all : list MatchResult) (s : Z) (log : list Event) :
  batchesOk all s log -> s <= sentTotal s log.
Proof.
  revert s; induction log as [|e log IH]; intros s H; [unfold sentTotal; simpl; lia|].
  simpl in H. destruct H as [He Hl]. apply IH in Hl.
  unfold sentTotal in *. simpl.
  destruct e as [p | new | n]; simpl in *;
    [lia | pose proof (len_nonneg new); lia | lia].
Qed.

Lemma collect_extends (options : GrepOptions) (cs : list MatchResult)
  (m : JSMap MatchResult) :
  exists more, collect options cs m = m ++ more.
Proof.
  destruct (collect_dedup_prefix options cs m) as [cs1 [cs2 [_ ->]]].
  apply dedupFirst_extends.
Qed.

Lemma collect_size_ge (options : GrepOptions) (cs : list MatchResult)
  (m : JSMap MatchResult) :
  map_size m <= map_size (collect options cs m).
Proof.
  destruct (collect_extends options cs m) as [more ->].
  rewrite map_size_app. pose proof (len_nonneg more). unfold map_size. lia.
Qed.

(** After a page the matches not yet sent are sent, as an array or as a
    count, and the sent count catches up with the map. *)
Lemma sendNewMatches_spec (rt : Runtime) (lastRequestId : N) (f : Frame) (w : World) :
  0 <= sentMatchCount f <= map_size (matches f) ->
  exists evs,
    sendNewMatches f w
    = (set_sentCount (map_size (matches f)) f,
       mkWorld (isGrepActive w) (grepStore w) (sent w ++ evs) (stopPromise w))
    /\ batchesOk (map_values (matches f)) (sentMatchCount f) evs
    /\ sentTotal (sentMatchCount f) evs = map_size (matches f)
    /\ Forall (progressOf rt lastRequestId) evs.
Proof.
  intros [H0 Hle]. unfold sendNewMatches.
  destruct (Z.ltb_spec (sentMatchCount f) (map_size (matches f))) as [Lt | Ge].
  - assert (Hv : len (map_values (matches f)) = map_size (matches f)).
    { unfold map_values, map_size, len. now rewrite length_map. }
    destruct (sliceFrom_spec (map_values (matches f)) (sentMatchCount f) H0
                ltac:(lia)) as [Hs Hl].
    rewrite Hv in Hl.
    destruct (Z.ltb_spec 25000 (sentMatchCount f)) as [Big | Small].
    + exists [matchesCount_ (len (sliceFrom (map_values (matches f)) (sentMatchCount f)))].
      split; [reflexivity|]. rewrite Hl.
      split; [|split; [unfold sentTotal; simpl; lia | repeat constructor]].
      simpl. repeat split; lia.
    + exists [matchesArray (sliceFrom (map_values (matches f)) (sentMatchCount f))].
      split; [reflexivity|].
      split; [|split; [unfold sentTotal; simpl; lia | repeat constructor]].
      simpl. rewrite Hl. repeat split; try lia.
      * intros E. rewrite E in Hl. unfold len in Hl. simpl in Hl. lia.
      * unfold sliceFrom. f_equal. lia.
  - exists []. rewrite app_nil_r.
    assert (E : sentMatchCount f = map_size (matches f)) by lia.
    split; [destruct f, w; cbn in *; subst; reflexivity|].
    split; [exact I|]. split; [exact E | constructor].
Qed.

(** One page of an active run: stopped while the query is awaited it
    throws with the store untouched; otherwise it collects the candidates of
    the page and sends what is new. *)
Lemma processPage_spec (rt : Runtime) (sdk : SDK) (regex : RegExp)
  (options : GrepOptions) (lastRequestId : N) (stop : bool)
  (items : list Item) (f : Frame) (w : World) :
  isGrepActive w = true ->
  grepStore w = matches f ->
  0 <= sentMatchCount f <= map_size (matches f) ->
  let p := progressEvent
             (progress rt (Number rt (processedRequestID f)) (Number rt lastRequestId)) in
  let M := collect options
             (candidates options (rawMatchesOf rt sdk regex options items))
             (matches f) in
  if stop
  then processPage rt sdk regex options lastRequestId stop items f w
       = (Throw STOPPED, mkWorld false (grepStore w) (sent w ++ [p]) false)
  else exists pid evs,
      processPage rt sdk regex options lastRequestId stop items f w
      = (Normal (mkFrame M pid (map_size M)),
         mkWorld true M (sent w ++ p :: evs) (stopPromise w))
      /\ batchesOk (map_values M) (sentMatchCount f) evs
      /\ sentTotal (sentMatchCount f) evs = map_size M
      /\ Forall (progressOf rt lastRequestId) evs.
Proof.
  intros Hact Hst Hsent p M. unfold processPage. fold p.
  destruct stop; cbn [await].
  - unfold stopGrep. cbn [isGrepActive send]. rewrite Hact. reflexivity.
  - assert (Hact' : isGrepActive (send p w) = true) by exact Hact.
    rewrite Hact'. cbn [negb].
    destruct (processItems_collect rt sdk regex options items f (send p w)
                Hact' Hst) as [pid Hpi].
    fold M in Hpi. rewrite Hpi.
    pose proof (collect_size_ge options
                  (candidates options (rawMatchesOf rt sdk regex options items))
                  (matches f)) as Hge. fold M in Hge.
    destruct (sendNewMatches_spec rt lastRequestId
                (mkFrame M pid (sentMatchCount f)) (set_store M (send p w)))
      as [evs [Hs [Hb [Ht Hp]]]]; [cbn; lia|].
    cbn in Hb, Ht.
    exists pid, evs. rewrite Hs.
    split; [|now repeat split].
    cbn. rewrite Hact. rewrite <- app_assoc. reflexivity.
Qed.

Lemma rawMatchesOf_app (rt : Runtime) (sdk : SDK) (regex : RegExp)
  (options : GrepOptions) (a b : list Item) :
  rawMatchesOf rt sdk regex options (a ++ b)
  = rawMatchesOf rt sdk regex options a ++ rawMatchesOf rt sdk regex options b.
Proof. apply flat_map_app. Qed.

Lemma len_map_values (m : JSMap MatchResult) : len (map_values m) = map_size m.
Proof. unfold map_values, map_size, len. now rewrite length_map. Qed.

(** The pagination loop: what it leaves in the store, what it sends and
    what it returns. *)
Lemma fetchLoop_spec (rt : Runtime) (sdk : SDK) (regex : RegExp)
  (options : GrepOptions) (lastRequestId : N) (pages : Pages)
  (f : Frame) (w : World) :
  grepStore w = matches f ->
  0 <= sentMatchCount f <= map_size (matches f) ->
  exists res w' evs,
    fetchLoop rt sdk regex options lastRequestId pages f w = (res, w')
    /\ grepStore w'
       = (if isGrepActive w
          then collect options
                 (candidates options
                    (rawMatchesOf rt sdk regex options (scannedItems pages)))
                 (matches f)
          else matches f)
    /\ sent w' = sent w ++ evs
    /\ batchesOk (map_values (grepStore w')) (sentMatchCount f) evs
    /\ Forall (progressOf rt lastRequestId) evs
    /\ (forall n, res = Normal n -> n = map_size (grepStore w')).
Proof.
  revert f w.
  assert (Idle : forall pages f w,
             grepStore w = matches f ->
             belowMax options (matches f) && isGrepActive w = false ->
             exists res w' evs,
               (Normal (map_size (matches f)), w) = (res, w')
               /\ grepStore w'
                  = (if isGrepActive w
                     then collect options
                            (candidates options
                               (rawMatchesOf rt sdk regex options (scannedItems pages)))
                            (matches f)
                     else matches f)
               /\ sent w' = sent w ++ evs
               /\ batchesOk (map_values (grepStore w')) (sentMatchCount f) evs
               /\ Forall (progressOf rt lastRequestId) evs
               /\ (forall n, res = Normal n -> n = map_size (grepStore w'))).
  { intros pg f w Hst C. exists (Normal (map_size (matches f))), w, [].
    split; [reflexivity|]. rewrite app_nil_r.
    split; [|repeat split; try constructor;
             intros n [= <-]; now rewrite Hst].
    destruct (isGrepActive w); [|exact Hst].
    rewrite andb_true_r, belowMax_maxReached in C.
    apply negb_false_iff in C. now rewrite collect_maxed. }
  induction pages as [stop items cur | stop items cur rest IH | msg];
    intros f w Hst Hsent; cbn [fetchLoop];
    destruct (belowMax options (matches f) && isGrepActive w) eqn:C;
    try (now apply Idle);
    apply andb_true_iff in C as [_ Hact]; rewrite Hact.
  - (* the last page *)
    pose proof (processPage_spec rt sdk regex options lastRequestId stop items
                  f w Hact Hst Hsent) as P. cbn zeta in P. cbn [scannedItems].
    destruct stop.
    + rewrite P. eexists _, _, [_]. split; [reflexivity|]. cbn.
      repeat split; try constructor; try constructor;
        [now rewrite Hst | now eexists | discriminate].
    + destruct P as [pid [evs [-> [Hb [Ht Hp]]]]].
      eexists _, _, (_ :: evs). split; [reflexivity|]. cbn [grepStore sent].
      repeat split; try assumption.
      * constructor; [now eexists | exact Hp].
      * intros n [= <-]. reflexivity.
  - (* a page with a next page *)
    pose proof (processPage_spec rt sdk regex options lastRequestId stop items
                  f w Hact Hst Hsent) as P. cbn zeta in P. cbn [scannedItems].
    destruct stop.
    + rewrite P. eexists _, _, [_]. split; [reflexivity|]. cbn.
      repeat split; try constructor; try constructor;
        [now rewrite Hst | now eexists | discriminate].
    + destruct P as [pid [evs [-> [Hb [Ht Hp]]]]].
      set (M := collect options
                  (candidates options (rawMatchesOf rt sdk regex options items))
                  (matches f)) in *.
      destruct (IH (mkFrame M pid (map_size M))
                   (mkWorld true M
                      (sent w ++ progressEvent
                         (progress rt (Number rt (processedRequestID f))
                            (Number rt lastRequestId)) :: evs)
                      (stopPromise w))
                   eq_refl)
        as [res [w' [evs' [-> [Hst' [Hsent' [Hb' [Hp' Hn']]]]]]]];
        [cbn; pose proof (len_nonneg M); unfold map_size; lia|].
      cbn [isGrepActive matches sent sentMatchCount] in Hst', Hsent', Hb'.
      exists res, w', (progressEvent
                         (progress rt (Number rt (processedRequestID f))
                            (Number rt lastRequestId)) :: evs ++ evs').
      split; [reflexivity|].
      split; [rewrite Hst', rawMatchesOf_app, candidates_app, collect_app;
              reflexivity|].
      split; [rewrite Hsent', <- app_assoc; reflexivity|].
      split; [|split; [|exact Hn']].
      * cbn [batchesOk batchOk sentAfter]. split; [exact I|].
        apply batchesOk_app. rewrite Ht. split; [|exact Hb'].
        rewrite Hst'.
        destruct (collect_extends options
                    (candidates options
                       (rawMatchesOf rt sdk regex options (scannedItems rest))) M)
          as [more ->].
        unfold map_values. rewrite map_app.
        apply batchesOk_extend; [lia | exact Hb].
      * constructor; [now eexists|]. apply Forall_app. now split.
  - (* the query fails *)
    eexists _, _, [_]. split; [reflexivity|]. cbn.
    repeat split; try constructor; try constructor;
      [now rewrite Hst | now eexists | discriminate].
Qed.

(* ===================================================================== *)
(** * The run                                                            *)
(* ===================================================================== *)

Lemma scannedItems_prefix (pages : Pages) :
  exists rest, allItems pages = scannedItems pages ++ rest.
Proof.
  induction pages as [stop items cur | stop items cur rest [r IH] | msg]; simpl.
  - destruct stop; [now exists items | exists []; now rewrite app_nil_r].
  - destruct stop; [now exists (items ++ allItems rest)|].
    exists r. now rewrite IH, app_assoc.
  - now exists [].
Qed.

(** A suspension point touches neither the store nor the events; a
    [stopGrep()] that runs there leaves the flag false. *)
Lemma await_store (stop : bool) (w : World) : grepStore (await stop w) = grepStore w.
Proof. unfold await, stopGrep. now destruct stop, (isGrepActive w). Qed.

Lemma await_sent (stop : bool) (w : World) : sent (await stop w) = sent w.
Proof. unfold await, stopGrep. now destruct stop, (isGrepActive w). Qed.

Lemma await_active (stop : bool) (w : World) :
  isGrepActive (await stop w) = negb stop && isGrepActive w.
Proof.
  unfold await, stopGrep.
  destruct stop; [|reflexivity].
  destruct (isGrepActive w) eqn:E; [reflexivity | exact E].
Qed.

Lemma await_stopPromise (stop : bool) (w : World) :
  stopPromise (await stop w) = (stop && isGrepActive w) || stopPromise w.
Proof. unfold await, stopGrep. now destruct stop, (isGrepActive w). Qed.

(** What the [try] statement of the entry point leaves behind: the
    events it sent, the store as the first-seen deduplication of a prefix
    of the run's candidates, and the count it reports. *)
Lemma grepRequests_try_spec (rt : Runtime) (sdk : SDK) (pattern : jsstring)
  (options : GrepOptions) (store0 : JSMap MatchResult) (sent0 : list Event) :
  exists env w' evs cs rest,
    grepRequests_try rt sdk pattern options (mkWorld false store0 sent0 false) = (env, w')
    /\ isGrepActive w' = false
    /\ sent w' = sent0 ++ evs
    /\ candidates options (runRawMatches rt sdk pattern options) = cs ++ rest
    /\ grepStore w' = dedupFirst cs []
    /\ batchesOk (map_values (grepStore w')) 0 evs
    /\ Forall (runProgress rt sdk) evs
    /\ (forall d n, env_data env = Some d -> d_matchesCount d = Some n ->
                    n = map_size (grepStore w'))
    /\ (forall k, maxResults options = Some k -> 0 < k ->
                  map_size (grepStore w') <= k).
Proof.
  unfold grepRequests_try, executeGrepSearch, runRawMatches, runSetup.
  cbn [isGrepActive].
  set (w1 := await (stop_at_getCurrent sdk)
               (set_store [] (set_active true (mkWorld false store0 sent0 false)))).
  assert (S1 : grepStore w1 = [] /\ sent w1 = sent0).
  { unfold w1, await. destruct (stop_at_getCurrent sdk); split; reflexivity. }
  destruct S1 as [St1 Se1].
  assert (Quiet : forall (w : World) (e : jsstring) cs0,
             grepStore w = [] -> sent w = sent0 ->
             exists env w' evs cs rest,
               (mkEnvelope (Some (mkGrepData None (Some e) (endTime sdk - startTime sdk))) None,
                set_active false w) = (env, w')
               /\ isGrepActive w' = false
               /\ sent w' = sent0 ++ evs
               /\ cs0 = cs ++ rest
               /\ grepStore w' = dedupFirst cs []
               /\ batchesOk (map_values (grepStore w')) 0 evs
               /\ Forall (runProgress rt sdk) evs
               /\ (forall d n, env_data env = Some d -> d_matchesCount d = Some n ->
                               n = map_size (grepStore w'))
               /\ (forall k, maxResults options = Some k -> 0 < k ->
                             map_size (grepStore w') <= k)).
  { intros w e cs0 Hst Hse. eexists _, _, [], [], cs0.
    split; [reflexivity|]. cbn. rewrite app_nil_r, Hst.
    repeat split; try assumption; try constructor.
    - intros d n [= <-]. discriminate.
    - intros k _ Hk. cbn. lia. }
  destruct (projects_getCurrent sdk) as [project|]; [|now apply Quiet].
  set (w2 := await (stop_at_last sdk) w1).
  assert (S2 : grepStore w2 = [] /\ sent w2 = sent0).
  { unfold w2. now rewrite await_store, await_sent. }
  destruct S2 as [St2 Se2].
  destruct (getLastRequestID sdk) as [lastRequestId|] eqn:Last;
    [|now apply Quiet].
  destruct lastRequestId as [|lastId]; [now apply Quiet|].
  cbn [N.eqb].
  destruct (RegExp_new rt pattern (lit "i")) as [regex|e].
  - unfold fetchAndProcessRequests.
    set (pages := requests_query sdk (buildRegexFilter regex options)).
    destruct (fetchLoop_spec rt sdk regex options (N.pos lastId) pages
                (mkFrame [] 0%N 0) (send (progressEvent 0) w2))
      as [res [w' [evs [-> [Hst [Hse [Hb [Hp Hn]]]]]]]];
      [exact St2 | cbn; lia |].
    cbn [matches sentMatchCount] in Hst, Hb.
    destruct (scannedItems_prefix pages) as [more Hall].
    assert (Hcs : (exists cs rest,
               candidates options (rawMatchesOf rt sdk regex options (allItems pages))
               = cs ++ rest
               /\ grepStore w' = dedupFirst cs [])
               /\ (forall k, maxResults options = Some k -> 0 < k ->
                             map_size (grepStore w') <= k)).
    { destruct (isGrepActive (send (progressEvent 0) w2)).
      - split.
        + destruct (collect_dedup_prefix options
                      (candidates options
                         (rawMatchesOf rt sdk regex options (scannedItems pages))) [])
            as [cs1 [cs2 [E1 E2]]].
          exists cs1, (cs2 ++ candidates options (rawMatchesOf rt sdk regex options more)).
          split; [|now rewrite Hst, E2].
          now rewrite Hall, rawMatchesOf_app, candidates_app, E1, app_assoc.
        + intros k Hk Hpos. rewrite Hst.
          pose proof (collect_bounded options k
                        (candidates options
                           (rawMatchesOf rt sdk regex options (scannedItems pages)))
                        [] Hk Hpos) as B.
          cbn in B. lia.
      - split.
        + exists [], (candidates options (rawMatchesOf rt sdk regex options (allItems pages))).
          split; [reflexivity | exact Hst].
        + intros k _ Hpos. rewrite Hst. cbn. lia. }
    destruct Hcs as [[cs [rest [Hpre Hded]]] Hmax].
    assert (Hev : sent w' = sent0 ++ progressEvent 0 :: evs).
    { rewrite Hse. cbn. rewrite Se2, <- app_assoc. reflexivity. }
    assert (Hpr : Forall (runProgress rt sdk) (progressEvent 0 :: evs)).
    { constructor; [now left|].
      eapply Forall_impl; [|exact Hp].
      intros [p | l | n] H; cbn [progressOf runProgress] in *; try exact I.
      destruct H as [pid ->]. right. exists (N.pos lastId), pid.
      split; [exact Last|]. split; [discriminate | reflexivity]. }
    destruct res as [n | e].
    + eexists _, _, (progressEvent 0 :: evs), cs, rest.
      split; [reflexivity|]. cbn [isGrepActive set_active grepStore sent].
      repeat split; try assumption.
      intros d k [= <-] [= <-]. now apply Hn.
    + eexists _, _, (progressEvent 0 :: evs), cs, rest.
      split; [reflexivity|]. cbn [isGrepActive set_active grepStore sent].
      repeat split; try assumption.
      intros d k [=].
  - eexists _, _, [], [], _.
    split; [reflexivity|]. cbn. rewrite app_nil_r, St2.
    repeat split; try assumption; try constructor.
    + intros d n [=].
    + intros k _ Hk. cbn. lia.
Qed.

(** What a call of the entry point on an idle service with no stop
    pending leaves behind: it returns, and the [try] statement ran. *)
Lemma grepRequests_idle (rt : Runtime) (sdk : SDK) (pattern : jsstring)
  (options : GrepOptions) (store0 : JSMap MatchResult) (sent0 : list Event) :
  grepRequests rt sdk pattern options (mkWorld false store0 sent0 false)
  = (Some (fst (grepRequests_try rt sdk pattern options
                  (mkWorld false store0 sent0 false))),
     snd (grepRequests_try rt sdk pattern options
            (mkWorld false store0 sent0 false))).
Proof.
  unfold grepRequests. cbn [isGrepActive stopPromise].
  now destruct (grepRequests_try rt sdk pattern options
                  (mkWorld false store0 sent0 false)).
Qed.

Lemma grepRequests_spec (rt : Runtime) (sdk : SDK) (pattern : jsstring)
  (options : GrepOptions) (store0 : JSMap MatchResult) (sent0 : list Event) :
  exists env w' evs cs rest,
    grepRequests rt sdk pattern options (mkWorld false store0 sent0 false)
    = (Some env, w')
    /\ isGrepActive w' = false
    /\ sent w' = sent0 ++ evs
    /\ candidates options (runRawMatches rt sdk pattern options) = cs ++ rest
    /\ grepStore w' = dedupFirst cs []
    /\ batchesOk (map_values (grepStore w')) 0 evs
    /\ Forall (runProgress rt sdk) evs
    /\ (forall d n, env_data env = Some d -> d_matchesCount d = Some n ->
                    n = map_size (grepStore w'))
    /\ (forall k, maxResults options = Some k -> 0 < k ->
                  map_size (grepStore w') <= k).
Proof.
  destruct (grepRequests_try_spec rt sdk pattern options store0 sent0)
    as [env [w' [evs [cs [rest [E H]]]]]].
  exists env, w', evs, cs, rest. split; [|exact H].
  now rewrite grepRequests_idle, E.
Qed.

(* ===================================================================== *)
(** * The run, iteration by iteration                                    *)
(* ===================================================================== *)

Lemma progressValues_app (a b : list Event) :
  progressValues (a ++ b) = progressValues a ++ progressValues b.
Proof. apply flat_map_app. Qed.

Lemma lastProcessed_cons (item : Item) (items : list Item) (pid : N) :
  lastProcessed (item :: items) pid
  = lastProcessed items (getId (item_request item)).
Proof. reflexivity. Qed.

(** The loop over the items of a page, with the id it stops at: when
    [maxResults] is not reached at the end, every item was processed. *)
Lemma processItems_exact (rt : Runtime) (sdk : SDK) (regex : RegExp)
  (options : GrepOptions) (items : list Item) (f : Frame) (w : World) :
  isGrepActive w = true ->
  grepStore w = matches f ->
  let M := afterPage rt sdk regex options items (matches f) in
  exists pid,
    processItems rt sdk regex options items f w
    = (Normal (mkFrame M pid (sentMatchCount f)), set_store M w)
    /\ (maxReached options M = false ->
        pid = lastProcessed items (processedRequestID f)).
Proof.
  revert f w; induction items as [|item items IH]; intros f w Hact Hst M;
    unfold afterPage in *.
  - exists (processedRequestID f). subst M. split; [|reflexivity].
    destruct f, w; cbn in *; subst; reflexivity.
  - cbn [processItems]. rewrite Hact. cbn [negb].
    cbn [matches set_processed]. rewrite lastProcessed_cons.
    destruct (maxReached options (matches f)) eqn:Max.
    + exists (getId (item_request item)). subst M.
      rewrite (collect_maxed options _ _ Max).
      split; [destruct f, w; cbn in *; subst; reflexivity|].
      intros H. rewrite H in Max. discriminate.
    + subst M. unfold rawMatchesOf. cbn [flat_map].
      fold (rawMatchesOf rt sdk regex options items).
      destruct (onlyInScope options
                && negb (requests_inScope sdk (item_request item))).
      * cbn [app].
        destruct (IH (set_processed (getId (item_request item)) f) w Hact Hst)
          as [pid H].
        exists pid. exact H.
      * set (nm := findMatchesInRequestResponse rt (item_request item)
                     (item_response item) regex (matchGroups options)
                     (includeRequests options) (includeResponses options)).
        rewrite candidates_app, collect_app.
        set (f1 := set_processed (getId (item_request item)) f).
        assert (E : (if 0 <? len nm then processMatches options nm f1 w
                     else (f1, w))
                    = processMatches options nm f1 w).
        { destruct nm; reflexivity. }
        rewrite E.
        rewrite (processMatches_collect options nm f1 w Max Hst).
        cbn [matches f1 set_processed].
        set (M1 := collect options (candidates options nm) (matches f)).
        destruct (IH (set_matches M1 f1) (set_store M1 w) Hact eq_refl)
          as [pid [H Hp]].
        exists pid. rewrite H. split; [reflexivity | exact Hp].
Qed.

(** The block that sends the new matches sends no progress. *)
Lemma sendNewMatches_exact (f : Frame) (w : World) :
  exists evs,
    sendNewMatches f w
    = (set_sentCount (if sentMatchCount f <? map_size (matches f)
                      then map_size (matches f) else sentMatchCount f) f,
       mkWorld (isGrepActive w) (grepStore w) (sent w ++ evs) (stopPromise w))
    /\ progressValues evs = [].
Proof.
  unfold sendNewMatches.
  destruct (sentMatchCount f <? map_size (matches f)).
  - destruct (25000 <? sentMatchCount f); eexists [_]; split; reflexivity.
  - exists []. rewrite app_nil_r. split; [|reflexivity].
    destruct f, w; reflexivity.
Qed.

(** One iteration on a page that is served: the progress of the id
    processed so far is sent first, no other progress follows, and the id
    processed afterwards is that of the last item when [maxResults] is not
    reached. *)
Lemma processPage_exact (rt : Runtime) (sdk : SDK) (regex : RegExp)
  (options : GrepOptions) (lastRequestId : N) (items : list Item)
  (f : Frame) (w : World) :
  isGrepActive w = true ->
  grepStore w = matches f ->
  0 <= sentMatchCount f <= map_size (matches f) ->
  let p := progress rt (Number rt (processedRequestID f)) (Number rt lastRequestId) in
  let M := afterPage rt sdk regex options items (matches f) in
  exists pid evs,
    processPage rt sdk regex options lastRequestId false items f w
    = (Normal (mkFrame M pid (map_size M)),
       mkWorld true M (sent w ++ progressEvent p :: evs) (stopPromise w))
    /\ progressValues evs = []
    /\ (maxReached options M = false ->
        pid = lastProcessed items (processedRequestID f)).
Proof.
  intros Hact Hst Hsent p M. unfold processPage. fold p. cbn [await].
  assert (Hact' : isGrepActive (send (progressEvent p) w) = true) by exact Hact.
  rewrite Hact'. cbn [negb].
  destruct (processItems_exact rt sdk regex options items f
              (send (progressEvent p) w) Hact' Hst) as [pid [Hpi Hpid]].
  fold M in Hpi, Hpid. rewrite Hpi.
  destruct (sendNewMatches_exact (mkFrame M pid (sentMatchCount f))
              (set_store M (send (progressEvent p) w))) as [evs [Hs Hv]].
  rewrite Hs. exists pid, evs.
  split; [|split; [exact Hv | exact Hpid]].
  cbn [matches sentMatchCount set_sentCount processedRequestID
       isGrepActive grepStore sent set_store send stopPromise].
  rewrite Hact, <- app_assoc. cbn [app].
  pose proof (collect_size_ge options
                (candidates options (rawMatchesOf rt sdk regex options items))
                (matches f)) as Hge.
  fold (afterPage rt sdk regex options items (matches f)) in Hge. fold M in Hge.
  destruct (Z.ltb_spec (sentMatchCount f) (map_size M)) as [Lt | Ge];
    [reflexivity|].
  replace (sentMatchCount f) with (map_size M) by lia. reflexivity.
Qed.

Lemma processPage_stopped (rt : Runtime) (sdk : SDK) (regex : RegExp)
  (options : GrepOptions) (lastRequestId : N) (items : list Item)
  (f : Frame) (w : World) :
  isGrepActive w = true ->
  processPage rt sdk regex options lastRequestId true items f w
  = (Throw STOPPED,
     mkWorld false (grepStore w)
       (sent w ++ [progressEvent
                     (progress rt (Number rt (processedRequestID f))
                        (Number rt lastRequestId))])
       false).
Proof.
  intros Hact. unfold processPage. cbn [await]. unfold stopGrep.
  cbn [isGrepActive send]. rewrite Hact. reflexivity.
Qed.

Lemma maxReached_belowMax (options : GrepOptions) (m : JSMap MatchResult) :
  maxReached options m = negb (belowMax options m).
Proof. rewrite belowMax_maxReached. now rewrite negb_involutive. Qed.

(** The pagination loop of an active run: how it ends, the progress
    values it sends, and the store it leaves. *)
Lemma fetchLoop_exact (rt : Runtime) (sdk : SDK) (regex : RegExp)
  (options : GrepOptions) (lastRequestId : N) (pages : Pages)
  (f : Frame) (w : World) :
  isGrepActive w = true ->
  grepStore w = matches f ->
  0 <= sentMatchCount f <= map_size (matches f) ->
  exists w' evs,
    fetchLoop rt sdk regex options lastRequestId pages f w
    = (match loopFailure rt sdk regex options pages (matches f) with
       | Some e => Throw e
       | None => Normal (map_size (grepStore w'))
       end, w')
    /\ sent w' = sent w ++ evs
    /\ progressValues evs
       = map (fun pid => progress rt (Number rt pid) (Number rt lastRequestId))
           (iterationIds rt sdk regex options pages (processedRequestID f)
              (matches f))
    /\ grepStore w'
       = collect options
           (candidates options
              (rawMatchesOf rt sdk regex options (scannedItems pages)))
           (matches f).
Proof.
  revert f w;
    induction pages as [stop items cur | stop items cur rest IH | msg];
    intros f w Hact Hst Hsent; cbn [fetchLoop loopFailure iterationIds];
    rewrite maxReached_belowMax, Hact, andb_true_r;
    destruct (belowMax options (matches f)) eqn:B; cbn [negb];
    try (exists w, []; rewrite app_nil_r, Hst;
         rewrite belowMax_maxReached in B; apply negb_false_iff in B;
         rewrite (collect_maxed options _ _ B); now repeat split).
  - (* the last page *)
    cbn [scannedItems]. destruct stop.
    + rewrite (processPage_stopped _ _ _ _ _ _ _ _ Hact).
      eexists _, [_]. split; [reflexivity|]. cbn.
      split; [reflexivity|]. split; [reflexivity | exact Hst].
    + destruct (processPage_exact rt sdk regex options lastRequestId items f w
                  Hact Hst Hsent) as [pid [evs [-> [Hv _]]]].
      eexists (mkWorld true _ _ _), (_ :: evs).
      split; [reflexivity|]. cbn [sent grepStore].
      split; [reflexivity|]. split; [|reflexivity].
      cbn [progressValues flat_map app]. fold (progressValues evs).
      now rewrite Hv.
  - (* a page with a next page *)
    cbn [scannedItems]. destruct stop.
    + rewrite (processPage_stopped _ _ _ _ _ _ _ _ Hact).
      eexists _, [_]. split; [reflexivity|]. cbn.
      split; [reflexivity|]. split; [reflexivity | exact Hst].
    + destruct (processPage_exact rt sdk regex options lastRequestId items f w
                  Hact Hst Hsent) as [pid [evs [-> [Hv Hpid]]]].
      set (M := afterPage rt sdk regex options items (matches f)) in *.
      set (p := progress rt (Number rt (processedRequestID f))
                  (Number rt lastRequestId)) in *.
      destruct (IH (mkFrame M pid (map_size M))
                   (mkWorld true M (sent w ++ progressEvent p :: evs)
                      (stopPromise w))
                   eq_refl eq_refl)
        as [w' [evs' [E [Hs' [Hv' Hst']]]]];
        [cbn; pose proof (len_nonneg M); unfold map_size; lia|].
      cbn [matches sent processedRequestID] in E, Hs', Hv', Hst'.
      exists w', (progressEvent p :: evs ++ evs').
      split; [exact E|].
      split; [rewrite Hs', <- app_assoc; reflexivity|].
      split.
      * cbn [progressValues flat_map app].
        fold (progressValues (evs ++ evs')).
        rewrite progressValues_app, Hv, Hv'. cbn [app map]. f_equal.
        destruct (maxReached options M) eqn:Max.
        -- destruct rest; cbn [iterationIds]; now rewrite Max.
        -- now rewrite (Hpid eq_refl).
      * rewrite Hst', rawMatchesOf_app, candidates_app, collect_app.
        reflexivity.
  - (* the query fails *)
    eexists _, [_]. split; [reflexivity|]. cbn.
    split; [reflexivity|]. split; [reflexivity | exact Hst].
Qed.

(** The loop of a run that was stopped before it: no iteration. *)
Lemma fetchLoop_inactive (rt : Runtime) (sdk : SDK) (regex : RegExp)
  (options : GrepOptions) (lastRequestId : N) (pages : Pages)
  (f : Frame) (w : World) :
  isGrepActive w = false ->
  fetchLoop rt sdk regex options lastRequestId pages f w
  = (Normal (map_size (matches f)), w).
Proof.
  intros H. destruct pages; cbn [fetchLoop]; now rewrite H, andb_false_r.
Qed.

Lemma runSetup_parts (rt : Runtime) (sdk : SDK) (pattern : jsstring)
  (regex : RegExp) (last : N) :
  runSetup rt sdk pattern = Some (regex, last) ->
  exists project p,
    projects_getCurrent sdk = Some project
    /\ getLastRequestID sdk = Some (N.pos p) /\ last = N.pos p
    /\ RegExp_new rt pattern (lit "i") = Normal regex.
Proof.
  unfold runSetup.
  destruct (projects_getCurrent sdk) as [project|]; [|discriminate].
  destruct (getLastRequestID sdk) as [[|p]|]; try discriminate.
  cbn [N.eqb].
  destruct (RegExp_new rt pattern (lit "i")) as [re|]; [|discriminate].
  intros [= <- <-]. now exists project, p.
Qed.

(** A run that gets to the pagination loop: the envelope it returns, the
    state it leaves and the progress values it sends. *)
Lemma grepRequests_try_loop (rt : Runtime) (sdk : SDK) (pattern : jsstring)
  (options : GrepOptions) (store0 : JSMap MatchResult) (sent0 : list Event)
  (regex : RegExp) (last : N) :
  runSetup rt sdk pattern = Some (regex, last) ->
  let store :=
    collect options (candidates options (runScannedMatches rt sdk pattern options))
      [] in
  exists evs,
    grepRequests_try rt sdk pattern options (mkWorld false store0 sent0 false)
    = (match runLoopFailure rt sdk pattern options with
       | Some e => mkEnvelope None (Some e)
       | None =>
           mkEnvelope
             (Some (mkGrepData (Some (map_size store)) None
                      (endTime sdk - startTime sdk)))
             None
       end,
       mkWorld false store (sent0 ++ progressEvent 0 :: evs) false)
    /\ progressValues evs
       = map (fun pid => progress rt (Number rt pid) (Number rt last))
           (runIterations rt sdk pattern options).
Proof.
  intros Setup store. subst store.
  unfold runScannedMatches, runLoopFailure, runIterations. rewrite Setup.
  destruct (runSetup_parts rt sdk pattern regex last Setup)
    as [project [p [Pr [La [-> Re]]]]].
  unfold grepRequests_try, executeGrepSearch, fetchAndProcessRequests.
  rewrite Pr, La, Re. cbn zeta.
  set (w2 := await (stop_at_last sdk)
               (await (stop_at_getCurrent sdk)
                  (set_store [] (set_active true (mkWorld false store0 sent0 false))))).
  assert (A2 : isGrepActive w2 = negb (stoppedInSetup sdk)).
  { unfold w2, stoppedInSetup. rewrite !await_active. cbn [isGrepActive set_store set_active].
    destruct (stop_at_getCurrent sdk), (stop_at_last sdk); reflexivity. }
  assert (G2 : grepStore w2 = []) by (unfold w2; now rewrite !await_store).
  assert (S2 : sent w2 = sent0) by (unfold w2; now rewrite !await_sent).
  set (pages := requests_query sdk (buildRegexFilter regex options)).
  destruct (stoppedInSetup sdk) eqn:Stop; cbn [negb] in A2.
  - rewrite (fetchLoop_inactive rt sdk regex options (N.pos p) pages
               (mkFrame [] 0%N 0) (send (progressEvent 0) w2) A2).
    exists []. split; [|reflexivity].
    cbn [matches map_size len List.length Z.of_nat candidates collect fold_left].
    unfold stopResolve, set_active, send. cbn [isGrepActive grepStore sent stopPromise].
    now rewrite G2, S2.
  - destruct (fetchLoop_exact rt sdk regex options (N.pos p) pages
                (mkFrame [] 0%N 0) (send (progressEvent 0) w2) A2 G2)
      as [w' [evs [E [Hs [Hv Hst]]]]]; [cbn; lia|].
    cbn [matches processedRequestID sent send] in E, Hs, Hv, Hst.
    rewrite E. exists evs. split; [|exact Hv].
    rewrite S2, <- app_assoc in Hs. cbn [app] in Hs.
    destruct (loopFailure rt sdk regex options pages []);
      unfold stopResolve, set_active; cbn [isGrepActive grepStore sent stopPromise];
      now rewrite Hs, Hst.
Qed.

(** A run that ends before the pagination loop: the envelope it returns
    and the state it leaves, with no event sent. *)
Lemma grepRequests_try_no_loop (rt : Runtime) (sdk : SDK) (pattern : jsstring)
  (options : GrepOptions) (store0 : JSMap MatchResult) (sent0 : list Event) :
  runSetup rt sdk pattern = None ->
  grepRequests_try rt sdk pattern options (mkWorld false store0 sent0 false)
  = (match projects_getCurrent sdk with
     | None =>
         mkEnvelope
           (Some (mkGrepData None (Some (lit "No project selected"))
                    (endTime sdk - startTime sdk)))
           None
     | Some _ =>
         match getLastRequestID sdk, RegExp_new rt pattern (lit "i") with
         | Some (N.pos _), Throw e => mkEnvelope None (Some e)
         | _, _ =>
             mkEnvelope
               (Some (mkGrepData None (Some (lit "No requests found"))
                        (endTime sdk - startTime sdk)))
               None
         end
     end,
     mkWorld false [] sent0 (stopLeftWaiting sdk)).
Proof.
  unfold runSetup, grepRequests_try, executeGrepSearch, stopLeftWaiting.
  cbn zeta.
  set (w0 := set_store [] (set_active true (mkWorld false store0 sent0 false))).
  assert (W1 : forall a,
             set_active false (await a w0) = mkWorld false [] sent0 a)
    by (intros []; reflexivity).
  assert (W2 : forall a b,
             set_active false (await b (await a w0))
             = mkWorld false [] sent0 (a || b))
    by (intros [] []; reflexivity).
  destruct (projects_getCurrent sdk) as [project|]; cbn [isDefined andb].
  - destruct (getLastRequestID sdk) as [[|p]|].
    + intros _. now rewrite W2.
    + cbn [N.eqb]. destruct (RegExp_new rt pattern (lit "i")) as [regex|e];
        [discriminate|].
      intros _. now rewrite W2.
    + intros _. now rewrite W2.
  - intros _. rewrite W1. now rewrite orb_false_r.
Qed.

Lemma collect_or_maxed (options : GrepOptions) (cs : list MatchResult)
  (m : JSMap MatchResult) :
  collect options cs m = dedupFirst cs m
  \/ maxReached options (collect options cs m) = true.
Proof.
  revert m; induction cs as [|c cs IH]; intros m; [now left|].
  rewrite collect_cons. unfold collectStep.
  destruct (maxReached options m) eqn:Max.
  - right. now rewrite collect_maxed.
  - apply IH.
Qed.

(* ===================================================================== *)
(** * Progress                                                           *)
(* ===================================================================== *)

Section Progress.
Variable rt : Runtime.
Hypothesis rounding : roundsToNearest rt.

Lemma round_le (a b : Q) :
  (0 <= a)%Q -> (a <= b)%Q -> (round rt a <= round rt b)%Q.
Proof. apply rounding. Qed.

Lemma round_eq (a b : Q) :
  (0 <= a)%Q -> (a == b)%Q -> (round rt a == round rt b)%Q.
Proof.
  intros H E. apply Qle_antisym; apply round_le; rewrite <- ?E; try exact H;
    rewrite E; apply Qle_refl.
Qed.

Lemma round_nonneg (a : Q) : (0 <= a)%Q -> (0 <= round rt a)%Q.
Proof.
  intros H. destruct rounding as [_ [Z0 _]].
  rewrite <- Z0. apply round_le; [apply Qle_refl | exact H].
Qed.

(** The code's progress is the specified formula, and it lies between 0
    and 99. *)
Lemma progress_spec_range (p l : Q) :
  (0 <= p)%Q -> (1 <= l)%Q ->
  progress rt p l = progressSpec rt p l /\ 0 <= progress rt p l <= 99.
Proof.
  intros Hp Hl. unfold progress, progressSpec.
  set (x := round rt (p / l)). set (c := round rt (99 # 100)).
  set (y := round rt (x * 100)).
  assert (Hx : (0 <= x)%Q).
  { apply round_nonneg. unfold Qdiv. apply Qmult_le_0_compat; [exact Hp|].
    apply Qinv_le_0_compat. eapply Qle_trans; [|exact Hl]. discriminate. }
  assert (Hc : (0 <= c)%Q) by (apply round_nonneg; discriminate).
  assert (Hy : 0 <= Qfloor y).
  { change 0 with (Qfloor 0). apply Qfloor_resp_le. apply round_nonneg.
    apply Qmult_le_0_compat; [exact Hx | discriminate]. }
  assert (H99 : (round rt (c * 100) == 99)%Q) by apply rounding.
  assert (F99 : Qfloor (round rt (c * 100)) = 99).
  { rewrite (Qfloor_comp _ _ H99). reflexivity. }
  destruct (Q.min_spec x c) as [[Lt E] | [Le E]].
  - assert (Hle : Qfloor y <= 99).
    { rewrite <- F99. apply Qfloor_resp_le. apply round_le.
      - apply Qmult_le_0_compat; [exact Hx | discriminate].
      - apply Qmult_le_compat_r; [now apply Qlt_le_weak | discriminate]. }
    rewrite Z.min_l by exact Hle.
    split; [|lia].
    apply Qfloor_comp. apply round_eq.
    + apply Qmult_le_0_compat; [exact Hx | discriminate].
    + now rewrite E.
  - assert (Hge : 99 <= Qfloor y).
    { rewrite <- F99. apply Qfloor_resp_le. apply round_le.
      - apply Qmult_le_0_compat; [exact Hc | discriminate].
      - apply Qmult_le_compat_r; [exact Le | discriminate]. }
    rewrite Z.min_r by exact Hge.
    split; [|lia].
    rewrite <- F99. apply Qfloor_comp. apply round_eq.
    + apply Qmult_le_0_compat; [exact Hc | discriminate].
    + now rewrite E.
Qed.

Lemma Number_nonneg (id : N) : (0 <= Number rt id)%Q.
Proof.
  unfold Number. apply round_nonneg.
  change 0%Q with (inject_Z 0). rewrite <- Zle_Qle. lia.
Qed.

Lemma Number_ge_1 (id : N) : id <> 0%N -> (1 <= Number rt id)%Q.
Proof.
  intros H. unfold Number. destruct rounding as [_ [_ [One _]]].
  rewrite <- One. apply round_le; [discriminate|].
  change 1%Q with (inject_Z 1). rewrite <- Zle_Qle. lia.
Qed.

Lemma runProgress_range (sdk : SDK) (e : Event) :
  runProgress rt sdk e ->
  match e with progressEvent p => 0 <= p <= 99 | _ => True end.
Proof.
  destruct e as [p | l | n]; cbn; try trivial.
  intros [-> | [lastId [pid [_ [Hl ->]]]]]; [lia|].
  apply progress_spec_range; [apply Number_nonneg | now apply Number_ge_1].
Qed.

(** C8: with a processed id at least 0 and a last id at least 1, the
    progress the loop emits, [min(floor((p / l) * 100), 99)], equals
    [floor(min(p / l, 0.99) * 100)] and lies between 0 and 99; and the
    progress values a run sends are, in order, the 0 sent before the
    loop and then, for every iteration of the loop, that formula at the id
    of the last request processed when the iteration starts and the last
    request id; every one of them lies between 0 and 99. *)
Theorem C8_progress_formula_and_range :
  (forall p l : Q, (0 <= p)%Q -> (1 <= l)%Q ->
     progress rt p l = progressSpec rt p l /\ 0 <= progress rt p l <= 99)
  /\ (forall sdk pattern options store0 sent0,
        let run :=
          grepRequests rt sdk pattern options (mkWorld false store0 sent0 false) in
        exists evs,
          sent (snd run) = sent0 ++ evs
          /\ progressValues evs
             = (if isDefined (runSetup rt sdk pattern) then [0] else [])
               ++ map (fun processedId =>
                         progressSpec rt (Number rt processedId)
                           (Number rt (runLastId rt sdk pattern)))
                    (runIterations rt sdk pattern options)
          /\ Forall (fun e => match e with
                              | progressEvent p => 0 <= p <= 99
                              | _ => True
                              end) evs).
Proof.
  split; [exact progress_spec_range|].
  intros sdk pattern options store0 sent0 run.
  destruct (grepRequests_spec rt sdk pattern options store0 sent0)
    as [env [w' [evs [cs [rest [E [_ [Hs [_ [_ [_ [Hp _]]]]]]]]]]]].
  assert (Hrange : Forall (fun e => match e with
                                    | progressEvent p => 0 <= p <= 99
                                    | _ => True
                                    end) evs).
  { eapply Forall_impl; [|exact Hp]. intros e. apply runProgress_range. }
  subst run. rewrite E. cbn [snd]. exists evs. split; [exact Hs|].
  split; [|exact Hrange].
  rewrite grepRequests_idle in E. injection E as _ Ew.
  unfold runLastId, runIterations.
  destruct (runSetup rt sdk pattern) as [[regex last]|] eqn:Setup;
    cbn [isDefined].
  - destruct (grepRequests_try_loop rt sdk pattern options store0 sent0 regex
                last Setup) as [evs' [E' Hv]].
    cbn zeta in E'. rewrite E' in Ew. cbn [snd] in Ew.
    rewrite <- Ew in Hs. cbn [sent] in Hs. apply app_inv_head in Hs.
    subst evs. cbn [progressValues flat_map app].
    fold (progressValues evs'). rewrite Hv.
    unfold runIterations. rewrite Setup. f_equal.
    apply map_ext. intros pid.
    apply progress_spec_range; [apply Number_nonneg|].
    apply Number_ge_1.
    destruct (runSetup_parts rt sdk pattern regex last Setup)
      as [_ [p [_ [_ [-> _]]]]]. discriminate.
  - rewrite (grepRequests_try_no_loop rt sdk pattern options store0 sent0 Setup)
      in Ew.
    cbn [snd] in Ew. rewrite <- Ew in Hs. cbn [sent] in Hs.
    rewrite <- (app_nil_r sent0) in Hs at 1. apply app_inv_head in Hs.
    now subst evs.
Qed.
End Progress.

(* ===================================================================== *)
(** * Deduplication, the result bound and the index ranges               *)
(* ===================================================================== *)

(** A prefix of the candidates is the candidates of a prefix of the raw
    matches. *)
Lemma candidates_prefix_raw (options : GrepOptions) (raw : list MatchResult)
  (cs rest : list MatchResult) :
  candidates options raw = cs ++ rest ->
  exists raw1 raw2, raw = raw1 ++ raw2 /\ candidates options raw1 = cs.
Proof.
  revert cs; induction raw as [|x raw IH]; intros cs H.
  - destruct cs; [|discriminate]. now exists [], [].
  - cbn [candidates] in H. destruct cs as [|c cs].
    + now exists [], (x :: raw).
    + destruct (candidate options x) as [c'|] eqn:E.
      * injection H as -> H. destruct (IH cs H) as [raw1 [raw2 [-> Hc]]].
        exists (x :: raw1), raw2. split; [reflexivity|].
        cbn [candidates]. now rewrite E, Hc.
      * destruct (IH (c :: cs) H) as [raw1 [raw2 [-> Hc]]].
        exists (x :: raw1), raw2. split; [reflexivity|].
        cbn [candidates]. now rewrite E.
Qed.

Lemma map_has_app {V : Type} (a b : JSMap V) (k : jsstring) :
  map_has (a ++ b) k = map_has a k || map_has b k.
Proof. unfold map_has. apply existsb_app. Qed.

Lemma insertNew_has (m : JSMap MatchResult) (c : MatchResult) (k : jsstring) :
  map_has (insertNew m c) k = map_has m k || str_eqb (value c) k.
Proof.
  unfold insertNew. destruct (map_has m (value c)) eqn:E.
  - destruct (str_eqb (value c) k) eqn:K; [|now rewrite orb_false_r].
    apply str_eqb_eq in K. subst k. now rewrite E.
  - rewrite map_has_app. cbn. now rewrite orb_false_r.
Qed.

Lemma dedupFirst_has (cs : list MatchResult) (m : JSMap MatchResult)
  (k : jsstring) :
  map_has (dedupFirst cs m) k
  = map_has m k || existsb (fun c => str_eqb (value c) k) cs.
Proof.
  revert m; induction cs as [|c cs IH]; intros m; cbn [dedupFirst fold_left existsb].
  - now rewrite orb_false_r.
  - fold (dedupFirst cs (insertNew m c)). rewrite IH, insertNew_has.
    now rewrite orb_assoc.
Qed.

(** The store a run leaves: the collection of the candidates of the raw
    matches it received. *)
Lemma grepRequests_store_exact (rt : Runtime) (sdk : SDK) (pattern : jsstring)
  (options : GrepOptions) (store0 : JSMap MatchResult) (sent0 : list Event) :
  grepStore
    (snd (grepRequests rt sdk pattern options (mkWorld false store0 sent0 false)))
  = collect options (candidates options (runScannedMatches rt sdk pattern options))
      [].
Proof.
  rewrite grepRequests_idle. cbn [snd].
  destruct (runSetup rt sdk pattern) as [[regex last]|] eqn:Setup.
  - destruct (grepRequests_try_loop rt sdk pattern options store0 sent0 regex
                last Setup) as [evs [E _]].
    cbn zeta in E. now rewrite E.
  - rewrite (grepRequests_try_no_loop rt sdk pattern options store0 sent0 Setup).
    unfold runScannedMatches. now rewrite Setup.
Qed.

(** The records a run receives are the first of those the host serves. *)
Lemma runScannedMatches_prefix (rt : Runtime) (sdk : SDK) (pattern : jsstring)
  (options : GrepOptions) :
  exists rest,
    runRawMatches rt sdk pattern options
    = runScannedMatches rt sdk pattern options ++ rest.
Proof.
  unfold runRawMatches, runScannedMatches.
  destruct (runSetup rt sdk pattern) as [[regex last]|]; [|now exists []].
  destruct (stoppedInSetup sdk); [now eexists|].
  destruct (scannedItems_prefix
              (requests_query sdk (buildRegexFilter regex options))) as [more ->].
  eexists. apply rawMatchesOf_app.
Qed.

(** C2: after every run the values of the Result Store are pairwise
    distinct.  The store is exactly what is collected from the candidates
    of the raw matches the run received (those of the pages served before
    a stop or a failed query), taken in order, a candidate being inserted
    under its final value unless that value is there already or
    [maxResults] is reached: so the entry kept for a value is the first
    candidate with that value, whatever its request, side or position,
    and while [maxResults] is not reached every candidate's value has its
    entry.  The count the run reports is the size of the store and at
    most the number of those raw matches. *)
Theorem C2_result_store_deduplicated
  (rt : Runtime) (sdk : SDK) (pattern : jsstring) (options : GrepOptions)
  (store0 : JSMap MatchResult) (sent0 : list Event) :
  let run :=
    grepRequests rt sdk pattern options (mkWorld false store0 sent0 false) in
  let store := grepStore (snd run) in
  let raw := runScannedMatches rt sdk pattern options in
  NoDup (map value (getMatches store))
  /\ store = collect options (candidates options raw) []
  /\ (forall c, In c (getMatches store) ->
        exists before after,
          candidates options raw = before ++ c :: after
          /\ Forall (fun x => value x <> value c) before)
  /\ (maxReached options store = false ->
      forall c, In c (candidates options raw) ->
        exists kept, In kept (getMatches store) /\ value kept = value c)
  /\ (exists rest, runRawMatches rt sdk pattern options = raw ++ rest)
  /\ (exists env,
        fst run = Some env
        /\ forall d n, env_data env = Some d -> d_matchesCount d = Some n ->
                       n = len (getMatches store) /\ n <= len raw).
Proof.
  intros run store raw.
  assert (Hst : store = collect options (candidates options raw) [])
    by apply grepRequests_store_exact.
  destruct (collect_dedup_prefix options (candidates options raw) [])
    as [cs1 [cs2 [Hcs Hd]]].
  assert (Hsize : map_size store <= len raw).
  { rewrite Hst, Hd. pose proof (dedupFirst_size cs1 []) as Hs.
    pose proof (candidates_length options raw) as Hl.
    rewrite Hcs, len_app in Hl. pose proof (len_nonneg cs2).
    unfold map_size at 2 in Hs. unfold len at 1 in Hs. simpl in Hs. lia. }
  split; [|split; [exact Hst|split; [|split; [|split]]]].
  - rewrite Hst, Hd. apply wellKeyed_values, dedupFirst_wellKeyed.
    split; constructor.
  - intros c Hin. unfold getMatches in Hin. rewrite Hst, Hd in Hin.
    apply dedupFirst_first_seen in Hin as [before [after [E Hb]]].
    exists before, (after ++ cs2). split; [|exact Hb].
    rewrite Hcs, E, <- app_assoc. reflexivity.
  - intros Hmax c Hc.
    destruct (collect_or_maxed options (candidates options raw) []) as [D | M];
      [|rewrite <- Hst in M; congruence].
    assert (Has : map_has store (value c) = true).
    { rewrite Hst, D, dedupFirst_has. cbn [map_has existsb orb].
      apply existsb_exists. exists c. split; [exact Hc | apply str_eqb_refl]. }
    assert (WK : wellKeyed store).
    { rewrite Hst, D. apply dedupFirst_wellKeyed. split; constructor. }
    apply map_has_true in Has. unfold map_keys in Has.
    apply in_map_iff in Has as [[k v] [Hk Hin]]. cbn [fst] in Hk. subst k.
    exists v. split.
    + unfold getMatches, map_values. apply in_map_iff.
      exists (value c, v). now split.
    + destruct WK as [HK _]. rewrite Forall_forall in HK.
      specialize (HK _ Hin). cbn [fst snd] in HK. now symmetry.
  - apply runScannedMatches_prefix.
  - destruct (grepRequests_spec rt sdk pattern options store0 sent0)
      as [env [w' [evs [cs [rest [E [_ [_ [_ [_ [_ [_ [Hn _]]]]]]]]]]]]].
    subst store run. rewrite E in *. cbn [fst snd] in *.
    exists env. split; [reflexivity|]. intros d n Hd' Hm.
    rewrite (Hn d n Hd' Hm).
    unfold getMatches. rewrite len_map_values. split; [reflexivity | exact Hsize].
Qed.

(** The map of the loop over [newMatches], whatever the store holds. *)
Lemma processMatches_matches (options : GrepOptions) (raw : list MatchResult)
  (f : Frame) (w : World) :
  maxReached options (matches f) = false ->
  matches (fst (processMatches options raw f w))
  = collect options (candidates options raw) (matches f).
Proof.
  revert f w; induction raw as [|mr raw IH]; intros f w Hmax; [reflexivity|].
  rewrite processMatches_cons. cbn [candidates].
  destruct (candidate options mr) as [c|]; [|now apply IH].
  cbn zeta. rewrite collect_cons. unfold collectStep. rewrite Hmax.
  unfold insertNew.
  destruct (map_has (matches f) (value c)) eqn:Has; cbn [negb];
    [now apply IH|].
  rewrite (map_set_new _ _ _ Has).
  set (M1 := matches f ++ [(value c, c)]).
  destruct (maxReached options (matches (set_matches M1 f))) eqn:Max1.
  - cbn [matches set_matches] in Max1.
    rewrite (collect_maxed options _ _ Max1). reflexivity.
  - rewrite IH by exact Max1. reflexivity.
Qed.

Lemma maxReached_at (options : GrepOptions) (k : Z) (m : JSMap MatchResult) :
  maxResults options = Some k -> 0 < k ->
  maxReached options m = (k <=? map_size m).
Proof.
  intros Hk Hpos. unfold maxReached. rewrite Hk.
  destruct (Z.eqb_spec k 0); [lia | reflexivity].
Qed.

(** C3: with [maxResults = k > 0], the store of a run never holds more
    than [k] matches and the count the run reports is at most [k]; the
    pagination loop goes on only while the map holds fewer than [k]
    matches, the processing of the records of a page stops once it holds
    [k], and the loop over the matches of a record does not grow it beyond
    [k]. *)
Theorem C3_maxResults_bound
  (rt : Runtime) (sdk : SDK) (options : GrepOptions) (k : Z) :
  maxResults options = Some k -> 0 < k ->
  (forall pattern store0 sent0,
     let run := grepRequests rt sdk pattern options (mkWorld false store0 sent0 false) in
     map_size (grepStore (snd run)) <= k
     /\ (exists env,
           fst run = Some env
           /\ forall d n, env_data env = Some d -> d_matchesCount d = Some n ->
                          n <= k))
  /\ (forall regex lastRequestId pages f w,
        k <= map_size (matches f) ->
        fetchLoop rt sdk regex options lastRequestId pages f w
        = (Normal (map_size (matches f)), w))
  /\ (forall regex item rest f w,
        isGrepActive w = true -> k <= map_size (matches f) ->
        processItems rt sdk regex options (item :: rest) f w
        = (Normal (set_processed (getId (item_request item)) f), w))
  /\ (forall raw f w,
        map_size (matches f) < k ->
        map_size (matches (fst (processMatches options raw f w))) <= k).
Proof.
  intros Hk Hpos. split; [|split; [|split]].
  - intros pattern store0 sent0 run.
    destruct (grepRequests_spec rt sdk pattern options store0 sent0)
      as [env [w' [evs [cs [rest [E [_ [_ [_ [_ [_ [_ [Hn Hmax]]]]]]]]]]]]].
    subst run. rewrite E. cbn [fst snd]. split; [now apply Hmax|].
    exists env. split; [reflexivity|].
    intros d n Hd Hm. rewrite (Hn d n Hd Hm). now apply Hmax.
  - intros regex lastRequestId pages f w Hge.
    assert (B : belowMax options (matches f) = false).
    { rewrite belowMax_maxReached, (maxReached_at options k) by assumption.
      apply negb_false_iff. now apply Z.leb_le. }
    destruct pages; cbn [fetchLoop]; rewrite B; reflexivity.
  - intros regex item rest f w Hact Hge. cbn [processItems].
    rewrite Hact. cbn [negb matches set_processed].
    rewrite (maxReached_at options k) by assumption.
    apply Z.leb_le in Hge. rewrite Hge. reflexivity.
  - intros raw f w Hlt.
    rewrite processMatches_matches.
    + pose proof (collect_bounded options k (candidates options raw)
                    (matches f) Hk Hpos). lia.
    + rewrite (maxReached_at options k) by assumption. now apply Z.leb_gt.
Qed.

Example maxResults_two_of_three :
  fst (grepRequests sampleRuntime threeHosts hostPattern
         (withGroups [2] (Some 2)) idle)
  = Some (mkEnvelope (Some (mkGrepData (Some 2) None 250)) None).
Proof. vm_compute. reflexivity. Qed.

Lemma C3_witness :
  maxResults (withGroups [2] (Some 2)) = Some 2
  /\ 0 < 2
  /\ map_size
       (grepStore
          (snd (grepRequests sampleRuntime threeHosts hostPattern
                  (withGroups [2] (Some 2)) idle))) <= 2.
Proof.
  split; [reflexivity|]. split; [lia|].
  apply (proj1 (C3_maxResults_bound sampleRuntime threeHosts
                  (withGroups [2] (Some 2)) 2 eq_refl ltac:(lia))
           hostPattern [] []).
Defined.

Lemma trim_nil : trim [] = [].
Proof. reflexivity. Qed.

(** Every raw match ends [value.length] after its start. *)
Lemma raw_match_shape (rt : Runtime) (req : Request) (resp : option Response)
  (regex : RegExp) (mg : option (list Z)) (inReq inResp : bool)
  (mr : MatchResult) :
  In mr (findMatchesInRequestResponse rt req resp regex mg inReq inResp) ->
  endIndex mr = startIndex mr + len (value mr).
Proof.
  assert (G : forall text src,
             In mr (map (fun extracted =>
                           mkMatchResult (e_value extracted) (getId req) src
                             (e_startIndex extracted) (e_endIndex extracted))
                        (extractMatches rt text regex mg)) ->
             endIndex mr = startIndex mr + len (value mr)).
  { intros text src H. apply in_map_iff in H as [e [<- He]]. cbn.
    rewrite extractMatches_map in He. destruct (isEmpty text); [destruct He|].
    apply in_map_iff in He as [m [<- _]]. apply extractOne_shape. }
  unfold findMatchesInRequestResponse. intros H.
  destruct inReq, inResp, resp as [r|]; cbn [app] in H;
    try apply in_app_iff in H as [H | H];
    try (now apply G in H); try destruct H.
Qed.

Lemma rawMatchesOf_shape (rt : Runtime) (sdk : SDK) (regex : RegExp)
  (options : GrepOptions) (items : list Item) (mr : MatchResult) :
  In mr (rawMatchesOf rt sdk regex options items) ->
  endIndex mr = startIndex mr + len (value mr).
Proof.
  unfold rawMatchesOf. intros H. apply in_flat_map in H as [item [_ H]].
  destruct (onlyInScope options && negb (requests_inScope sdk (item_request item)));
    [destruct H|].
  now apply raw_match_shape in H.
Qed.

Lemma candidates_in (options : GrepOptions) (raw : list MatchResult)
  (c : MatchResult) :
  In c (candidates options raw) ->
  exists mr, In mr raw /\ candidate options mr = Some c.
Proof.
  induction raw as [|x raw IH]; cbn [candidates]; [intros []|].
  destruct (candidate options x) as [c'|] eqn:E.
  - intros [<- | H].
    + exists x. split; [now left | exact E].
    + destruct (IH H) as [mr [Hin Hc]]. exists mr. split; [now right | exact Hc].
  - intros H. destruct (IH H) as [mr [Hin Hc]].
    exists mr. split; [now right | exact Hc].
Qed.

(** A candidate keeps the indices of its raw match, whose value is not
    empty. *)
Lemma candidate_range (options : GrepOptions) (mr c : MatchResult) :
  candidate options mr = Some c ->
  startIndex c = startIndex mr /\ endIndex c = endIndex mr /\ value mr <> [].
Proof.
  unfold candidate, finalValue.
  destruct (cleanupOutput options && hasNonPrintable (trim (value mr)));
    [discriminate|].
  destruct (Z.eqb_spec (len (trim (value mr))) 0) as [|Hne]; [discriminate|].
  destruct (transformed options (trim (value mr))); [|discriminate].
  intros [= <-]. cbn. repeat split.
  intros E. rewrite E, trim_nil in Hne. now apply Hne.
Qed.

Lemma len_pos_iff {A : Type} (l : list A) : 0 < len l <-> l <> [].
Proof.
  rewrite <- len_nil_iff. pose proof (len_nonneg l). lia.
Qed.

(** C5, as the code has it: every match the extractor emits has
    [0 <= startIndex <= endIndex = startIndex + value.length], so its range
    is non-empty exactly when its value is; it ends within the text
    whenever its value occurs in the whole match it was taken from; the
    MatchResults built from the extracted matches keep these indices; and
    every match a run admits to the Result Store has
    [startIndex < endIndex], the indices being those of the raw match. *)
Theorem C5_index_ranges (rt : Runtime) :
  (forall text regex mg,
     let found := String_matchAll rt text (RegExp_from regex (lit "g")) in
     forallb (match_in_text text) found = true ->
     Forall
       (fun e =>
          0 <= e_startIndex e <= e_endIndex e
          /\ e_endIndex e = e_startIndex e + len (e_value e)
          /\ (e_startIndex e < e_endIndex e <-> e_value e <> [])
          /\ exists m, In m found /\ e = extractOne mg m
               /\ (e_value e = m_whole m \/ 0 <= indexOf (m_whole m) (e_value e) ->
                   e_endIndex e <= len text))
       (extractMatches rt text regex mg))
  /\ (forall req resp regex mg inReq inResp mr,
        In mr (findMatchesInRequestResponse rt req resp regex mg inReq inResp) ->
        endIndex mr = startIndex mr + len (value mr)
        /\ (startIndex mr < endIndex mr <-> value mr <> []))
  /\ (forall sdk pattern options store0 sent0,
        Forall (fun c => startIndex c < endIndex c)
          (getMatches
             (grepStore
                (snd (grepRequests rt sdk pattern options
                        (mkWorld false store0 sent0 false)))))).
Proof.
  split; [|split].
  - intros text regex mg found Hwf. rewrite extractMatches_map.
    destruct (isEmpty text); [constructor|].
    apply Forall_map_intro. intros m Hm.
    rewrite forallb_forall in Hwf.
    destruct (extractOne_shape mg m) as [Hend _].
    destruct (extractOne_in_text text mg m (Hwf m Hm)) as [H0 Hin].
    pose proof (len_nonneg (e_value (extractOne mg m))) as Hl.
    pose proof (len_pos_iff (e_value (extractOne mg m))) as Hp.
    split; [lia|]. split; [exact Hend|]. split; [rewrite <- Hp; lia|].
    exists m. split; [exact Hm|]. split; [reflexivity|].
    intros Hocc. apply Hin.
    destruct Hocc as [-> | H]; [rewrite indexOf_self; lia | exact H].
  - intros req resp regex mg inReq inResp mr Hin.
    apply raw_match_shape in Hin. split; [exact Hin|].
    pose proof (len_pos_iff (value mr)) as Hp. rewrite <- Hp. lia.
  - intros sdk pattern options store0 sent0.
    destruct (grepRequests_spec rt sdk pattern options store0 sent0)
      as [env [w' [evs [cs [rest [E [_ [_ [Hc [Hst _]]]]]]]]]].
    rewrite E. cbn [snd]. apply Forall_forall. intros c Hin.
    unfold getMatches in Hin. rewrite Hst in Hin.
    apply dedupFirst_values_in in Hin as [[] | Hin].
    assert (Hin' : In c (candidates options (runRawMatches rt sdk pattern options)))
      by (rewrite Hc; apply in_or_app; now left).
    apply candidates_in in Hin' as [mr [Hraw Hcand]].
    apply candidate_range in Hcand as [-> [-> Hne]].
    assert (Hshape : endIndex mr = startIndex mr + len (value mr)).
    { unfold runRawMatches in Hraw.
      destruct (runSetup rt sdk pattern) as [[regex last]|]; [|destruct Hraw].
      now apply rawMatchesOf_shape in Hraw. }
    apply len_pos_iff in Hne. lia.
Qed.

Lemma C5_witness :
  Forall
    (fun e =>
       0 <= e_startIndex e <= e_endIndex e
       /\ e_endIndex e = e_startIndex e + len (e_value e)
       /\ (e_startIndex e < e_endIndex e <-> e_value e <> [])
       /\ exists m,
            In m (String_matchAll sampleRuntime hostRequest
                    (RegExp_from (mkRegExp hostPattern (lit "i")) (lit "g")))
            /\ e = extractOne (Some [1]) m
            /\ (e_value e = m_whole m \/ 0 <= indexOf (m_whole m) (e_value e) ->
                e_endIndex e <= len hostRequest))
    (extractMatches sampleRuntime hostRequest (mkRegExp hostPattern (lit "i"))
       (Some [1])).
Proof.
  apply (proj1 (C5_index_ranges sampleRuntime) hostRequest
           (mkRegExp hostPattern (lit "i")) (Some [1])).
  vm_compute. reflexivity.
Defined.

(** C5 as stated fails: [/b*/] matches the empty string in ["a"], at 0 and
    at 1, and the extractor emits both matches with [startIndex = endIndex]. *)
Lemma C5_counterexample_empty_match :
  forallb (match_in_text (lit "a"))
    (String_matchAll sampleRuntime (lit "a")
       (RegExp_from (mkRegExp (lit "b*") (lit "i")) (lit "g"))) = true
  /\ extractMatches sampleRuntime (lit "a") (mkRegExp (lit "b*") (lit "i")) None
     = [mkExtracted [] 0 0; mkExtracted [] 1 1]
  /\ ~ Forall (rangeInText (lit "a"))
         (extractMatches sampleRuntime (lit "a") (mkRegExp (lit "b*") (lit "i"))
            None).
Proof.
  split; [vm_compute; reflexivity|].
  split; [vm_compute; reflexivity|].
  intros H. inversion H as [|e l [[_ Hlt] _] _]; subst.
  vm_compute in Hlt. discriminate.
Qed.

(** The end index can also leave the text: for [/(?<=(abc))d/] on
    ["abcd"] with group 1 the extractor emits ["abc"] at 3..6. *)
Example lookbehind_group_range_leaves_text :
  forallb (match_in_text (lit "abcd"))
    (String_matchAll sampleRuntime (lit "abcd")
       (RegExp_from (mkRegExp (lit "(?<=(abc))d") (lit "i")) (lit "g"))) = true
  /\ extractMatches sampleRuntime (lit "abcd")
       (mkRegExp (lit "(?<=(abc))d") (lit "i")) (Some [1])
     = [mkExtracted (lit "abc") 3 6]
  /\ len (lit "abcd") = 4.
Proof. repeat split; vm_compute; reflexivity. Qed.

(* ===================================================================== *)
(** * The matches events of a run                                        *)
(* ===================================================================== *)


Example two_hosts_one_batch :
  sent (snd (grepRequests sampleRuntime threeHosts hostPattern
               (withGroups [2] None) idle))
  = [ progressEvent 0; progressEvent 0;
      matchesArray
        [ mkMatchResult (lit "one.com") 1 request 23 30;
          mkMatchResult (lit "two.com") 2 request 23 30;
          mkMatchResult (lit "three.com") 3 request 23 32 ] ].
Proof. vm_compute. reflexivity. Qed.

Example same_host_deduplicated :
  fst (grepRequests sampleRuntime sameHostTwice hostPattern
         (withGroups [2] None) idle)
  = Some (mkEnvelope (Some (mkGrepData (Some 1) None 250)) None)
  /\ getMatches
       (grepStore (snd (grepRequests sampleRuntime sameHostTwice hostPattern
                          (withGroups [2] None) idle)))
     = [mkMatchResult (lit "example.com") 1 request 23 34].
Proof. split; vm_compute; reflexivity. Qed.

Example count_form_above_threshold :
  let after := sendNewMatches (mkFrame (manyMatches 25003) 7 25001) idle in
  sent (snd after) = [matchesCount_ 2] /\ sentMatchCount (fst after) = 25003.
Proof. split; vm_compute; reflexivity. Qed.

Example array_form_at_threshold :
  let after := sendNewMatches (mkFrame (manyMatches 25001) 7 25000) idle in
  sent (snd after) = [matchesArray [mkMatchResult [25000%N] 1 request 0 1]]
  /\ sentMatchCount (fst after) = 25001.
Proof. split; vm_compute; reflexivity. Qed.

(* ===================================================================== *)
(** * The result envelope                                                *)
(* ===================================================================== *)



Example no_requests_inside_data :
  fst (grepRequests sampleRuntime noRequests (lit "test") defaultOptions idle)
  = Some (mkEnvelope
            (Some (mkGrepData None (Some (lit "No requests found")) 250)) None).
Proof. vm_compute. reflexivity. Qed.

Example already_running_error_half :
  grepRequests sampleRuntime threeHosts (lit "test") defaultOptions
    (mkWorld true [] [] false)
  = (Some (mkEnvelope None (Some (lit "A grep scan is already running"))),
     mkWorld true [] [] false).
Proof. vm_compute. reflexivity. Qed.

(** A [stopGrep()] called while a run without a selected project awaits
    the project is never answered: the run ends before any [stopResolve],
    and the next search never returns. *)
Example search_after_unanswered_stop_never_returns :
  let first := grepRequests sampleRuntime stoppedWithoutProject (lit "test")
                 defaultOptions idle in
  fst first
  = Some (mkEnvelope
            (Some (mkGrepData None (Some (lit "No project selected")) 250)) None)
  /\ snd first = mkWorld false [] [] true
  /\ grepRequests sampleRuntime threeHosts hostPattern (withGroups [2] None)
       (snd first)
     = (None, snd first).
Proof. repeat split; vm_compute; reflexivity. Qed.

(* ===================================================================== *)
(** * The transform evaluator                                            *)
(* ===================================================================== *)

Lemma trimStart_idem (s : jsstring) : trimStart (trimStart s) = trimStart s.
Proof.
  induction s as [|c s IH]; [reflexivity|]. cbn [trimStart].
  destruct (isWhiteSpace c) eqn:E; [exact IH|].
  cbn [trimStart]. now rewrite E.
Qed.

Lemma trimStart_head (s : jsstring) :
  trimStart s = []
  \/ exists c r, trimStart s = c :: r /\ isWhiteSpace c = false.
Proof.
  induction s as [|c s IH]; [now left|]. cbn [trimStart].
  destruct (isWhiteSpace c) eqn:E; [exact IH|].
  right. now exists c, s.
Qed.

Lemma trimStart_snoc (l : jsstring) (c : N) :
  isWhiteSpace c = false -> exists u, trimStart (l ++ [c]) = u ++ [c].
Proof.
  intros H. induction l as [|a l IH]; cbn [trimStart app].
  - rewrite H. now exists [].
  - destruct (isWhiteSpace a); [exact IH | now exists (a :: l)].
Qed.

(** Trimming a trimmed string changes nothing. *)
Lemma trim_idem (s : jsstring) : trim (trim s) = trim s.
Proof.
  unfold trim, trimEnd. set (t := trimStart s).
  assert (Fix : trimStart (rev (trimStart (rev t))) = rev (trimStart (rev t))).
  { destruct (trimStart_head s) as [E | [c [r [E Hc]]]]; fold t in E; rewrite E.
    - reflexivity.
    - cbn [rev]. destruct (trimStart_snoc (rev r) c Hc) as [u ->].
      rewrite rev_app_distr. cbn [rev app trimStart]. now rewrite Hc. }
  rewrite Fix, rev_involutive, trimStart_idem. reflexivity.
Qed.

(** C7: the evaluator returns [null] exactly when the script returns
    [null] or [undefined]; it returns a string the script returns as it
    is, and the string form of any other value; when the script or the
    conversion to a string throws it returns the value it was given.  In
    the run, a transform that throws on a match leaves the match in with
    its untransformed, trimmed value. *)
Theorem C7_applyTransform_fails_open (v : jsstring) (script : Script) :
  (applyTransform v script = None
   <-> script_run script v = Normal VNull
       \/ script_run script v = Normal VUndefined)
  /\ (forall s, script_run script v = Normal (VString s) ->
                applyTransform v script = Some s)
  /\ (forall str, script_run script v = Normal (VOther (Normal str)) ->
                  applyTransform v script = Some str)
  /\ (forall e, script_run script v = Throw e \/
                script_run script v = Normal (VOther (Throw e)) ->
                applyTransform v script = Some v)
  /\ (forall options matchResult e,
        transformScript options = Some script ->
        script_source script <> [] ->
        v = trim (value matchResult) -> v <> [] ->
        cleanupOutput options && hasNonPrintable v = false ->
        script_run script v = Throw e ->
        candidate options matchResult = Some (withValue matchResult v)).
Proof.
  unfold applyTransform. repeat split.
  - destruct (script_run script v) as [[| |s|[str|e]]|e]; intros H;
      try discriminate; [now right | now left].
  - intros [H | H]; now rewrite H.
  - intros s H. now rewrite H.
  - intros str H. now rewrite H.
  - intros e [H | H]; now rewrite H.
  - intros options mr e Hs Hsrc Hv Hne Hclean Hrun.
    unfold candidate, finalValue, transformed. rewrite <- Hv, Hclean.
    destruct (Z.eqb_spec (len v) 0) as [E | _];
      [apply len_nil_iff in E; contradiction|].
    rewrite Hs. destruct (script_source script) as [|c src]; [contradiction|].
    cbn [isEmpty]. unfold applyTransform. rewrite Hrun.
    assert (T : trim v = v) by (rewrite Hv; apply trim_idem).
    rewrite T.
    destruct (Z.eqb_spec (len v) 0) as [E | _];
      [apply len_nil_iff in E; contradiction | reflexivity].
Qed.

Example transform_upper :
  applyTransform (lit "example.com") upperScript = Some (lit "EXAMPLE.COM").
Proof. vm_compute. reflexivity. Qed.

Example transform_throws_keeps_value :
  applyTransform (lit "example.com") throwingScript = Some (lit "example.com").
Proof. vm_compute. reflexivity. Qed.

Example transform_null_discards :
  applyTransform (lit "example.com") nullScript = None.
Proof. reflexivity. Qed.

Example transform_number_stringified :
  applyTransform (lit "example.com") numberScript = Some (lit "42").
Proof. reflexivity. Qed.

(* ===================================================================== *)
(** * The filter expression builder                                      *)
(* ===================================================================== *)

(** The two replacements in sequence escape backslashes and double quotes,
    each once. *)
Lemma escapeRegexStr_spec (src : jsstring) : escapeRegexStr src = escapeSpec src.
Proof.
  unfold escapeRegexStr, escapeSpec.
  induction src as [|c src IH]; [reflexivity|].
  cbn [replaceAll flat_map].
  destruct (N.eqb_spec c backslash) as [-> | Hb].
  - cbn. now rewrite IH.
  - cbn [app replaceAll]. destruct (N.eqb_spec c dquote) as [-> | Hq].
    + cbn. now rewrite IH.
    + cbn [app]. now rewrite IH.
Qed.

Lemma join_merge (sep a b : jsstring) (rest : list jsstring) :
  join sep ((a ++ sep ++ b) :: rest) = a ++ sep ++ join sep (b :: rest).
Proof.
  destruct rest as [|r rest]; cbn [join]; [reflexivity|].
  now rewrite <- !app_assoc.
Qed.

Lemma extension_loop (exts : list jsstring) (acc : jsstring) :
  fold_left
    (fun regexFilter ext =>
       regexFilter ++ lit " and req.ext.nlike:" ++ [dquote] ++ ext ++ [dquote])
    exts acc
  = join (lit " and ") (acc :: map extensionTerm exts).
Proof.
  revert acc; induction exts as [|ext exts IH]; intros acc; [reflexivity|].
  cbn [fold_left map]. rewrite IH.
  transitivity
    (join (lit " and ")
       ((acc ++ lit " and " ++ extensionTerm ext) :: map extensionTerm exts)).
  - reflexivity.
  - now rewrite join_merge.
Qed.

Lemma chain2 (sep t u : jsstring) (rest : list jsstring) :
  join sep (t :: u :: rest) = join sep ((t ++ sep ++ u) :: rest).
Proof. now rewrite join_merge. Qed.

Lemma chain3 (sep c t u : jsstring) (rest : list jsstring) :
  join sep (c :: t :: u :: rest)
  = join sep ((c ++ sep ++ t ++ sep ++ u) :: rest).
Proof.
  rewrite (chain2 sep c t), (chain2 sep (c ++ sep ++ t) u).
  now rewrite <- !app_assoc.
Qed.

(** C9: the filter is the AND chain of the custom expression when
    present, the parenthesized OR of the raw-regex terms that
    [includeRequests] and [includeResponses] select (the empty string when
    neither is set), the response-size bound, 10485760 under
    [skipLargeResponses] and 104857600 otherwise, and the exclusion terms of
    the extension denylist; the pattern source is embedded with its
    backslashes and double quotes escaped and nothing else changed. *)
Theorem C9_buildRegexFilter_chain (regex : RegExp) (options : GrepOptions) :
  buildRegexFilter regex options = filterSpec regex options
  /\ (forall src, escapeRegexStr src = escapeSpec src).
Proof.
  split; [|exact escapeRegexStr_spec].
  unfold buildRegexFilter, filterSpec. cbn zeta.
  rewrite extension_loop, escapeRegexStr_spec.
  set (esc := escapeSpec (source regex)).
  set (exts := map extensionTerm CLEANUP_EXTENSIONS).
  unfold customTerm, truthyStr, regexTerm, sizeTerm, quoted. fold esc.
  destruct (customHTTPQL options) as [[|c custom]|]; cbn [app];
    [rewrite chain2 | rewrite chain3 | rewrite chain2];
    do 2 f_equal;
    destruct (includeRequests options), (includeResponses options),
             (skipLargeResponses options);
    cbn [app len List.length Z.of_nat Z.ltb Z.compare join];
    repeat (first [progress cbn [app] | rewrite <- !app_assoc]);
    reflexivity.
Qed.

Example filter_requests_only :
  startsWith
    (buildRegexFilter (mkRegExp (lit "\d+" ++ [dquote]) (lit "i"))
       (mkOptions true false None None false true None false None))
    (lit "(req.raw.regex:" ++ [dquote] ++ lit "\\d+\" ++ [dquote] ++ [dquote]
     ++ lit ") and resp.len.lt:10485760 and req.ext.nlike:" ++ [dquote]
     ++ lit "%.apng" ++ [dquote] ++ lit " and req.ext.nlike:")
  = true.
Proof. vm_compute. reflexivity. Qed.

Example filter_no_flags_custom :
  startsWith
    (buildRegexFilter (mkRegExp (lit "x") (lit "i"))
       (mkOptions false false None None false false (Some (lit "req.host.eq:a"))
          false None))
    (lit "req.host.eq:a and  and resp.len.lt:104857600 and req.ext.nlike:")
  = true.
Proof. vm_compute. reflexivity. Qed.

(* ===================================================================== *)
(** * Progress in binary64                                               *)
(* ===================================================================== *)

Lemma two_pos (e : Z) : 0 <= e -> (0 < two e)%Q.
Proof.
  intros H. unfold two. change 0%Q with (inject_Z 0). rewrite <- Zlt_Qlt.
  now apply Z.pow_pos_nonneg.
Qed.

Lemma two_add (a b : Z) : 0 <= a -> 0 <= b -> (two (a + b) == two a * two b)%Q.
Proof.
  intros Ha Hb. unfold two. rewrite Z.pow_add_r by assumption.
  rewrite inject_Z_mult. reflexivity.
Qed.

Lemma roundHalfEven_bounds (x : Q) :
  Qfloor x <= roundHalfEven x <= Qfloor x + 1.
Proof.
  unfold roundHalfEven.
  destruct (x - inject_Z (Qfloor x) ?= 1 # 2)%Q; [|lia|lia].
  destruct (Z.even (Qfloor x)); lia.
Qed.

(** An integer rounds to itself. *)
Lemma roundHalfEven_Z (n : Z) : roundHalfEven (inject_Z n) = n.
Proof.
  unfold roundHalfEven. rewrite Qfloor_Z.
  destruct (Qcompare_spec (inject_Z n - inject_Z n) (1 # 2)) as [A | A | A];
    [exfalso; lra | reflexivity | exfalso; lra].
Qed.

(** Rounding to the nearest integer keeps the order. *)
Lemma roundHalfEven_le (x y : Q) :
  (x <= y)%Q -> roundHalfEven x <= roundHalfEven y.
Proof.
  intros H. pose proof (Qfloor_resp_le _ _ H) as F.
  destruct (Z.eq_dec (Qfloor x) (Qfloor y)) as [E | N].
  - unfold roundHalfEven. rewrite E.
    destruct (Qcompare_spec (x - inject_Z (Qfloor y)) (1 # 2)) as [A | A | A];
      destruct (Qcompare_spec (y - inject_Z (Qfloor y)) (1 # 2)) as [B | B | B];
      try destruct (Z.even (Qfloor y)); try lia; exfalso; lra.
  - pose proof (roundHalfEven_bounds x). pose proof (roundHalfEven_bounds y). lia.
Qed.

Lemma Qle_div_mult (a b c : Q) : (0 < c)%Q -> (a <= b / c)%Q -> (a * c <= b)%Q.
Proof.
  intros Hc H. apply (Qmult_le_compat_r _ _ c) in H; [|now apply Qlt_le_weak].
  assert (E : (b / c * c == b)%Q)
    by (field; intros Z; rewrite Z in Hc; discriminate).
  now rewrite E in H.
Qed.

Lemma Qdiv_le_mult (a b c : Q) : (0 < c)%Q -> (a / c <= b)%Q -> (a <= b * c)%Q.
Proof.
  intros Hc H. apply (Qmult_le_compat_r _ _ c) in H; [|now apply Qlt_le_weak].
  assert (E : (a / c * c == a)%Q)
    by (field; intros Z; rewrite Z in Hc; discriminate).
  now rewrite E in H.
Qed.

(** Rounding to binary64 keeps the order of non-negative numbers: within
    a binade by the rounding of the mantissa, and across binades because a
    mantissa lies between [2^52] and [2^53]. *)
Lemma binary64_pos_le (a b : Q) :
  (0 <= a)%Q -> (a <= b)%Q -> (binary64_pos a <= binary64_pos b)%Q.
Proof.
  intros Ha Hab. unfold binary64_pos.
  set (sa := (a * two 1074)%Q). set (sb := (b * two 1074)%Q).
  set (Na := Qfloor (sa / two 52)). set (Nb := Qfloor (sb / two 52)).
  set (ea := Z.log2 Na). set (eb := Z.log2 Nb).
  pose proof (two_pos 1074 ltac:(lia)) as P1074.
  pose proof (two_pos 52 ltac:(lia)) as P52.
  assert (Hs : (sa <= sb)%Q).
  { unfold sa, sb. apply Qmult_le_compat_r; [exact Hab | now apply Qlt_le_weak]. }
  assert (Hsa : (0 <= sa)%Q).
  { unfold sa. apply Qmult_le_0_compat; [exact Ha | now apply Qlt_le_weak]. }
  assert (HN : Na <= Nb).
  { apply Qfloor_resp_le. unfold Qdiv. apply Qmult_le_compat_r; [exact Hs|].
    apply Qinv_le_0_compat. now apply Qlt_le_weak. }
  assert (HNa : 0 <= Na).
  { change 0 with (Qfloor 0). apply Qfloor_resp_le.
    unfold Qdiv. apply Qmult_le_0_compat; [exact Hsa|].
    apply Qinv_le_0_compat. now apply Qlt_le_weak. }
  assert (Hea : 0 <= ea) by apply Z.log2_nonneg.
  assert (Heb : 0 <= eb) by apply Z.log2_nonneg.
  assert (He : ea <= eb) by (apply Z.log2_le_mono; exact HN).
  assert (Mantissas : roundHalfEven (sa / two ea) * 2 ^ ea
                      <= roundHalfEven (sb / two eb) * 2 ^ eb).
  { destruct (Z.eq_dec ea eb) as [E | Hne].
    - rewrite <- E. apply Z.mul_le_mono_nonneg_r; [apply Z.pow_nonneg; lia|].
      apply roundHalfEven_le. unfold Qdiv.
      apply Qmult_le_compat_r; [exact Hs|].
      apply Qinv_le_0_compat. apply Qlt_le_weak. now apply two_pos.
    - assert (Hlt : ea < eb) by lia.
      assert (Hb52 : 2 ^ 52 <= roundHalfEven (sb / two eb)).
      { rewrite <- (roundHalfEven_Z (2 ^ 52)). apply roundHalfEven_le.
        fold (two 52).
        assert (HNb : 0 < Nb).
        { destruct (Z.lt_ge_cases 0 Nb) as [G | G]; [exact G|].
          unfold eb in Hlt. rewrite (Z.log2_nonpos Nb G) in Hlt. lia. }
        pose proof (Z.log2_spec Nb HNb) as [L _]. fold eb in L.
        pose proof (Qfloor_le (sb / two 52)) as Fl. fold Nb in Fl.
        assert (T : (two eb <= sb / two 52)%Q).
        { eapply Qle_trans; [|exact Fl]. unfold two. now rewrite <- Zle_Qle. }
        apply Qle_shift_div_l; [now apply two_pos|].
        apply Qle_div_mult in T; [|exact P52].
        rewrite Qmult_comm. exact T. }
      assert (Ha53 : roundHalfEven (sa / two ea) <= 2 ^ 53).
      { rewrite <- (roundHalfEven_Z (2 ^ 53)). apply roundHalfEven_le.
        fold (two 53).
        assert (U : Na + 1 <= 2 ^ (ea + 1)).
        { destruct (Z.eq_dec Na 0) as [Z0 | NZ].
          - unfold ea. rewrite Z0. cbn. lia.
          - pose proof (Z.log2_spec Na ltac:(lia)) as [_ U]. fold ea in U.
            unfold Z.succ in U. lia. }
        pose proof (Qlt_floor (sa / two 52)) as Fl. fold Na in Fl.
        assert (T : (sa / two 52 <= two (ea + 1))%Q).
        { apply Qlt_le_weak. eapply Qlt_le_trans; [exact Fl|].
          unfold two. now rewrite <- Zle_Qle. }
        apply Qle_shift_div_r; [now apply two_pos|].
        apply Qdiv_le_mult in T; [|exact P52].
        eapply Qle_trans; [exact T|].
        assert (E53 : (two 53 * two ea == two (ea + 1) * two 52)%Q).
        { rewrite <- !two_add by lia.
          replace (53 + ea) with (ea + 1 + 52) by lia. reflexivity. }
        rewrite E53. apply Qle_refl. }
      assert (P : 2 ^ (ea + 1) <= 2 ^ eb) by (apply Z.pow_le_mono_r; lia).
      rewrite Z.pow_add_r in P by lia.
      assert (Pa : 0 < 2 ^ ea) by (apply Z.pow_pos_nonneg; lia).
      assert (Pb : 0 < 2 ^ eb) by (apply Z.pow_pos_nonneg; lia).
      change (2 ^ 53) with (2 ^ 52 * 2) in Ha53.
      nia. }
  unfold Qdiv. apply Qmult_le_compat_r.
  - now rewrite <- Zle_Qle.
  - apply Qinv_le_0_compat. now apply Qlt_le_weak.
Qed.

(** binary64 rounding has what the progress proof asks for. *)
Lemma binary64_roundsToNearest
  (rows : list (jsstring * jsstring * list RegExpMatchArray)) :
  roundsToNearest (tableRuntime rows).
Proof.
  unfold roundsToNearest. cbn [round tableRuntime].
  split; [|repeat split; vm_compute; reflexivity].
  intros a b Ha Hab. unfold binary64.
  assert (Hb : (0 <= b)%Q) by (eapply Qle_trans; eassumption).
  apply Qle_bool_iff in Ha as Ta. apply Qle_bool_iff in Hb as Tb.
  rewrite Ta, Tb. now apply binary64_pos_le.
Qed.

(** In binary64, 57/100 times 100 falls just below 57. *)
Example progress_57_of_100 :
  progress sampleRuntime 57 100 = 56
  /\ progressSpec sampleRuntime 57 100 = 56
  /\ progress sampleRuntime 100 100 = 99
  /\ progress sampleRuntime 1 3 = 33.
Proof. repeat split; vm_compute; reflexivity. Qed.

Lemma C8_witness :
  roundsToNearest sampleRuntime
  /\ progress sampleRuntime 57 100 = progressSpec sampleRuntime 57 100
  /\ 0 <= progress sampleRuntime 57 100 <= 99.
Proof.
  split; [apply binary64_roundsToNearest|].
  apply (proj1 (C8_progress_formula_and_range sampleRuntime
                  (binary64_roundsToNearest _)) 57%Q 100%Q);
    unfold Qle; simpl; lia.
Defined.

(* ===================================================================== *)
(** * Runs of the test suite, and runs that fail                         *)
(* ===================================================================== *)

Example invalid_pattern_error_half :
  grepRequests sampleRuntime threeHosts (lit "(") defaultOptions idle
  = (Some (mkEnvelope None
             (Some (lit "Invalid regular expression: /(/: Unterminated group"))),
     idle).
Proof. vm_compute. reflexivity. Qed.

(** A stopped run is reported as an error; what it found stays in the
    store. *)
Example stopped_run_keeps_matches :
  fst (grepRequests sampleRuntime stoppedOnSecondPage hostPattern
         (withGroups [2] None) idle)
  = Some (mkEnvelope None (Some (lit "Grep operation was stopped")))
  /\ getMatches
       (grepStore
          (snd (grepRequests sampleRuntime stoppedOnSecondPage hostPattern
                  (withGroups [2] None) idle)))
     = [mkMatchResult (lit "one.com") 1 request 23 30]
  /\ sent (snd (grepRequests sampleRuntime stoppedOnSecondPage hostPattern
                  (withGroups [2] None) idle))
     = [ progressEvent 0; progressEvent 0;
         matchesArray [mkMatchResult (lit "one.com") 1 request 23 30];
         progressEvent 33 ].
Proof. repeat split; vm_compute; reflexivity. Qed.


Lemma C2_witness :
  NoDup
    (map value
       (getMatches
          (grepStore
             (snd (grepRequests sampleRuntime sameHostTwice hostPattern
                     (withGroups [2] None) idle))))).
Proof.
  apply (proj1 (C2_result_store_deduplicated sampleRuntime sameHostTwice
                  hostPattern (withGroups [2] None) [] [])).
Defined.


Lemma C7_witness :
  applyTransform (lit "example.com") throwingScript = Some (lit "example.com").
Proof.
  apply (proj1 (proj2 (proj2 (proj2
           (C7_applyTransform_fails_open (lit "example.com") throwingScript))))
           (lit "no")).
  left. reflexivity.
Defined.

(* ===================================================================== *)
(** * The extractor: group 0 and the place of the start index            *)
(* ===================================================================== *)

Lemma extractOne_group0 (gs : list Z) (m : RegExpMatchArray) :
  extractOne (Some (0 :: gs)) m = wholeMatch m.
Proof.
  cbn [extractOne scanGroups group Z.eqb]. cbn zeta.
  rewrite indexOf_self. cbn [Z.geb Z.compare].
  unfold wholeMatch. now rewrite Z.add_0_r.
Qed.

(** X1: A group list that starts with 0 (the default of the application is
    [[0]]) and an empty group list extract what [null] extracts: the whole
    match of every match, with the whole match's offsets. *)
Theorem extractMatches_group0_is_whole_match
  (rt : Runtime) (text : jsstring) (regex : RegExp) (gs : list Z) :
  extractMatches rt text regex (Some (0 :: gs)) = extractMatches rt text regex None
  /\ extractMatches rt text regex (Some []) = extractMatches rt text regex None
  /\ extractMatches rt text regex None
     = if isEmpty text then []
       else map wholeMatch (String_matchAll rt text (RegExp_from regex (lit "g"))).
Proof.
  rewrite !extractMatches_map.
  destruct (isEmpty text); [repeat split|].
  repeat split. apply map_ext. intros m. apply extractOne_group0.
Qed.

Lemma indexOf_from_fits (s search : jsstring) (i : Z) :
  indexOf_from s search i <> -1 ->
  0 <= i ->
  indexOf_from s search i - i + len search <= len s.
Proof.
  revert i; induction s as [|c s IH]; intros i; cbn [indexOf_from].
  - destruct search as [|d search]; cbn [startsWith]; [|congruence].
    intros _ _. unfold len; simpl. lia.
  - destruct (startsWith (c :: s) search) eqn:E.
    + intros _ _. apply startsWith_app in E as [r Hr].
      assert (L : len (c :: s) = len search + len r) by (rewrite Hr; apply len_app).
      pose proof (len_nonneg r). lia.
    + intros Hn Hi. specialize (IH (i + 1) Hn ltac:(lia)).
      unfold len in *. cbn [List.length]. lia.
Qed.

(** X2: Every match the extractor emits starts inside the whole match it was
    taken from, whatever the group list and whatever the engine captured;
    and when the emitted value occurs in the whole match, it also ends
    inside it. *)
Theorem extractMatches_start_inside_whole_match
  (rt : Runtime) (text : jsstring) (regex : RegExp) (mg : option (list Z)) :
  Forall2
    (fun m e =>
       m_index m <= e_startIndex e <= m_index m + len (m_whole m)
       /\ (0 <= indexOf (m_whole m) (e_value e) ->
           e_endIndex e <= m_index m + len (m_whole m)))
    (if isEmpty text then []
     else String_matchAll rt text (RegExp_from regex (lit "g")))
    (extractMatches rt text regex mg).
Proof.
  rewrite extractMatches_map. destruct (isEmpty text); [constructor|].
  apply Forall2_map_right. intros m.
  destruct (extractOne_shape mg m) as [Hend Hstart].
  set (e := extractOne mg m) in *.
  pose proof (len_nonneg (m_whole m)) as Hw.
  pose proof (len_nonneg (e_value e)) as Hv.
  destruct (indexOf_from_range (m_whole m) (e_value e) 0) as [R | R];
    fold (indexOf (m_whole m) (e_value e)) in R.
  - rewrite R in *. split; [lia|]. intros; lia.
  - split; [lia|]. intros _.
    pose proof (indexOf_from_fits (m_whole m) (e_value e) 0) as F.
    fold (indexOf (m_whole m) (e_value e)) in F. lia.
Qed.

(* ===================================================================== *)
(** * The filter builder: the quoted pattern                             *)
(* ===================================================================== *)

Lemma escapeSpec_unescape (s : jsstring) :
  unescape (escapeSpec s) = s /\ hasBareQuote (escapeSpec s) = false.
Proof.
  induction s as [|c s [IH1 IH2]]; [split; reflexivity|].
  unfold escapeSpec in *. cbn [flat_map].
  destruct (N.eqb_spec c backslash) as [->|Hb].
  - cbn. rewrite IH1. now split.
  - destruct (N.eqb_spec c dquote) as [->|Hq].
    + cbn. rewrite IH1. now split.
    + cbn [app unescape hasBareQuote].
      apply N.eqb_neq in Hb, Hq. rewrite Hb, Hq, IH1, IH2. now split.
Qed.

(** X3: The escaped pattern that [buildRegexFilter] puts between double
    quotes holds no double quote outside a backslash escape, so the quoted
    string ends where the builder closes it; undoing the escapes gives the
    pattern source back, so two different patterns never give the same
    escaped text. *)
Theorem escapeRegexStr_round_trip (src : jsstring) :
  unescape (escapeRegexStr src) = src
  /\ hasBareQuote (escapeRegexStr src) = false
  /\ (forall other, escapeRegexStr other = escapeRegexStr src -> other = src).
Proof.
  rewrite escapeRegexStr_spec.
  destruct (escapeSpec_unescape src) as [U B].
  split; [exact U|]. split; [exact B|].
  intros other E. rewrite escapeRegexStr_spec in E.
  rewrite <- U, <- E. symmetry. apply escapeSpec_unescape.
Qed.

(* ===================================================================== *)
(** * The result store object                                            *)
(* ===================================================================== *)

Lemma addMatch_insertNew (store : JSMap MatchResult) (m : MatchResult) :
  snd (addMatch store m) = insertNew store m.
Proof.
  unfold addMatch, insertNew.
  destruct (map_has store (value m)) eqn:E; cbn [negb snd]; [reflexivity|].
  now apply map_set_new.
Qed.

Lemma wellKeyed_nil : wellKeyed [].
Proof. split; constructor. Qed.

Lemma wellKeyed_keys (m : JSMap MatchResult) :
  wellKeyed m -> map_keys m = map value (map_values m).
Proof.
  intros [HK _]. unfold map_keys, map_values. rewrite map_map.
  apply map_ext_in. intros kv Hkv. rewrite Forall_forall in HK. now apply HK.
Qed.

(** X4: The store object, after any sequence of [addMatch] calls on the
    cleared store: [getValues()] lists the values of [getMatches()] in the
    same order, no value twice; every match added is answered for by an
    entry with its value, and every entry is one of the matches added;
    a further [addMatch] returns true exactly for a value that was never
    added, grows the store by that one entry, and one that returns false
    changes nothing. *)
Theorem grepStore_addMatch_contract (added : list MatchResult) :
  let store := fold_left (fun s m => snd (addMatch s m)) added [] in
  getValues store = map value (getMatches store)
  /\ NoDup (getValues store)
  /\ (forall m, In m added -> In (value m) (getValues store))
  /\ (forall m, In m (getMatches store) -> In m added)
  /\ (forall m,
        fst (addMatch store m)
        = negb (existsb (fun a => str_eqb (value a) (value m)) added)
        /\ getMatches (snd (addMatch store m))
           = getMatches store ++ (if fst (addMatch store m) then [m] else [])).
Proof.
  intros store.
  assert (E : store = dedupFirst added []).
  { unfold store, dedupFirst. generalize (@nil (jsstring * MatchResult)).
    induction added as [|a l IH]; intros s; cbn [fold_left]; [reflexivity|].
    now rewrite addMatch_insertNew, IH. }
  pose proof (dedupFirst_wellKeyed added [] wellKeyed_nil) as WK.
  rewrite <- E in WK. unfold getValues, getMatches.
  split; [now apply wellKeyed_keys|].
  split; [apply WK|].
  split; [|split].
  - intros m Hm. apply map_has_true. rewrite E, dedupFirst_has. cbn [map_has existsb orb].
    apply existsb_exists. exists m. split; [exact Hm | apply str_eqb_refl].
  - intros m Hm. rewrite E in Hm.
    apply dedupFirst_values_in in Hm as [[] | Hm]. exact Hm.
  - intros m. unfold addMatch.
    assert (H : map_has store (value m)
                = existsb (fun a => str_eqb (value a) (value m)) added).
    { rewrite E, dedupFirst_has. reflexivity. }
    rewrite H.
    destruct (existsb (fun a => str_eqb (value a) (value m)) added) eqn:X;
      cbn [negb fst snd].
    + split; [reflexivity|]. now rewrite app_nil_r.
    + split; [reflexivity|]. rewrite map_set_new by now rewrite H.
      unfold map_values. now rewrite map_app.
Qed.

(* ===================================================================== *)
(** * MatchViewer: escaping and highlighting                             *)
(* ===================================================================== *)

Lemma replaceAll_app (c : N) (rep a b : jsstring) :
  replaceAll c rep (a ++ b) = replaceAll c rep a ++ replaceAll c rep b.
Proof.
  induction a as [|x a IH]; cbn [replaceAll app]; [reflexivity|].
  now rewrite IH, app_assoc.
Qed.

Lemma replaceAll_other (c x : N) (rep : jsstring) :
  x <> c -> replaceAll c rep [x] = [x].
Proof.
  intros H. cbn [replaceAll]. apply N.eqb_neq in H. now rewrite H.
Qed.

Lemma escapeHtml_app (a b : jsstring) :
  escapeHtml (a ++ b) = escapeHtml a ++ escapeHtml b.
Proof. unfold escapeHtml. now rewrite !replaceAll_app. Qed.

Lemma escapeHtml_unit (c : N) : escapeHtml [c] = htmlEntity c.
Proof.
  unfold htmlEntity.
  destruct (N.eqb_spec c 38) as [->|H1]; [reflexivity|].
  destruct (N.eqb_spec c 60) as [->|H2]; [reflexivity|].
  destruct (N.eqb_spec c 62) as [->|H3]; [reflexivity|].
  destruct (N.eqb_spec c 34) as [->|H4]; [reflexivity|].
  destruct (N.eqb_spec c 39) as [->|H5]; [reflexivity|].
  unfold escapeHtml. now rewrite !replaceAll_other.
Qed.

Lemma escapeHtml_flat_map (text : jsstring) :
  escapeHtml text = flat_map htmlEntity text.
Proof.
  induction text as [|c text IH]; [reflexivity|].
  change (c :: text) with ([c] ++ text).
  rewrite escapeHtml_app, escapeHtml_unit, IH. reflexivity.
Qed.

Lemma htmlEntity_no_markup (c : N) : existsb isMarkup (htmlEntity c) = false.
Proof.
  unfold htmlEntity.
  destruct (N.eqb_spec c 38) as [->|H1]; [reflexivity|].
  destruct (N.eqb_spec c 60) as [->|H2]; [reflexivity|].
  destruct (N.eqb_spec c 62) as [->|H3]; [reflexivity|].
  destruct (N.eqb_spec c 34) as [->|H4]; [reflexivity|].
  destruct (N.eqb_spec c 39) as [->|H5]; [reflexivity|].
  cbn [existsb]. unfold isMarkup.
  apply N.eqb_neq in H2, H3, H4, H5. now rewrite H2, H3, H4, H5.
Qed.

(** X5: The five chained replacements of [escapeHtml] act as one pass that
    writes each code unit's entity: the ampersands of the entities written
    for [<], [>] and the two quotes are not escaped a second time.  So
    escaping distributes over concatenation, the escaped text holds none of
    [<], [>], the double quote and the single quote, and a text without any
    of the five characters is left as it is. *)
Theorem escapeHtml_single_pass (text : jsstring) :
  escapeHtml text = flat_map htmlEntity text
  /\ (forall more, escapeHtml (text ++ more) = escapeHtml text ++ escapeHtml more)
  /\ existsb isMarkup (escapeHtml text) = false
  /\ (existsb (fun c => (c =? 38)%N || isMarkup c) text = false ->
      escapeHtml text = text).
Proof.
  split; [apply escapeHtml_flat_map|].
  split; [intros more; apply escapeHtml_app|].
  rewrite escapeHtml_flat_map. split.
  - induction text as [|c text IH]; [reflexivity|].
    cbn [flat_map]. now rewrite existsb_app, htmlEntity_no_markup, IH.
  - induction text as [|c text IH]; [reflexivity|].
    cbn [existsb flat_map]. intros H.
    apply orb_false_iff in H as [Hc Ht]. rewrite (IH Ht).
    apply orb_false_iff in Hc as [H1 Hm]. unfold isMarkup in Hm.
    apply orb_false_iff in Hm as [Hm H5]. apply orb_false_iff in Hm as [Hm H4].
    apply orb_false_iff in Hm as [H2 H3].
    unfold htmlEntity. now rewrite H1, H2, H3, H4, H5.
Qed.

Lemma clampIndex_in (n i : Z) : 0 <= i <= n -> clampIndex n i = i.
Proof.
  intros H. unfold clampIndex.
  destruct (Z.ltb_spec i 0); [lia|]. now rewrite Z.min_l by lia.
Qed.

Lemma slice_three {A : Type} (l : list A) (a b : Z) :
  0 <= a <= b -> b <= len l ->
  l = slice l 0 a ++ slice l a b ++ sliceFrom l b
  /\ len (slice l 0 a) = a
  /\ len (slice l a b) = b - a.
Proof.
  intros Ha Hb. unfold sliceFrom, slice.
  pose proof (len_nonneg l) as Hl.
  rewrite (clampIndex_in (len l) 0), (clampIndex_in (len l) a),
    (clampIndex_in (len l) b), (clampIndex_in (len l) (len l)) by lia.
  cbn [Z.to_nat skipn]. rewrite Z.sub_0_r.
  assert (La : (Z.to_nat a <= List.length l)%nat) by (unfold len in *; lia).
  assert (Lb : (Z.to_nat b <= List.length l)%nat) by (unfold len in *; lia).
  split; [|split].
  - rewrite <- (firstn_skipn (Z.to_nat a) l) at 1. f_equal.
    rewrite <- (firstn_skipn (Z.to_nat (b - a)) (skipn (Z.to_nat a) l)) at 1.
    f_equal. rewrite skipn_skipn.
    replace (Z.to_nat (b - a) + Z.to_nat a)%nat with (Z.to_nat b) by lia.
    rewrite firstn_all2; [reflexivity|].
    rewrite length_skipn. unfold len. lia.
  - unfold len. rewrite length_firstn. lia.
  - unfold len. rewrite length_firstn, length_skipn. lia.
Qed.

(** The shared body of the two panes, on any text. *)
Lemma highlight_cases (side : Source) (text : jsstring) (m : MatchResult) :
  let marked :=
    source_eqb (source_ m) side
    && (0 <=? startIndex m) && (startIndex m <? endIndex m)
    && (endIndex m <=? len text) in
  exists before matched after,
    text = before ++ matched ++ after
    /\ escapeHtml text = escapeHtml before ++ escapeHtml matched ++ escapeHtml after
    /\ if marked
       then highlight side text m
            = escapeHtml before ++ MARK_OPEN ++ escapeHtml matched
              ++ MARK_CLOSE ++ escapeHtml after
            /\ len before = startIndex m
            /\ matched = slice text (startIndex m) (endIndex m)
            /\ len matched = endIndex m - startIndex m
            /\ matched <> []
       else highlight side text m = escapeHtml text.
Proof.
  intros marked. subst marked. unfold highlight. cbn zeta.
  rewrite Z.geb_leb.
  destruct (source_eqb (source_ m) side); cbn [negb andb];
    [|exists [], [], text; now repeat split].
  destruct (Z.leb_spec 0 (startIndex m)) as [H0|H0]; cbn [andb];
    [|exists [], [], text; now repeat split].
  destruct (Z.ltb_spec (startIndex m) (endIndex m)) as [Hlt|Hlt];
    destruct (Z.leb_spec (endIndex m) (len text)) as [Hle|Hle]; cbn [andb];
    try (exists [], [], text; now repeat split).
  destruct (slice_three text (startIndex m) (endIndex m)) as [E [L1 L2]];
    [lia | lia |].
  exists (slice text 0 (startIndex m)),
         (slice text (startIndex m) (endIndex m)),
         (sliceFrom text (endIndex m)).
  split; [exact E|].
  split; [rewrite E at 1; now rewrite !escapeHtml_app|].
  repeat split; try assumption.
  intros N. rewrite N in L2. unfold len in L2. simpl in L2. lia.
Qed.

(** X6: What a pane of the match viewer shows: always the escaped text, cut
    in three consecutive pieces of the text, with the highlight tags around
    the middle piece or with no tag at all.  The tags are there exactly
    when the match belongs to the pane and
    [0 <= startIndex < endIndex <= text.length]; the middle piece is then
    the non-empty text from [startIndex] to [endIndex].  A match of the
    other side, an empty range or a range that leaves the text shows the
    plain escaped text, and a response that is [null] shows nothing. *)
Theorem highlight_keeps_the_text (side : Source) (text : jsstring) (m : MatchResult) :
  let shown :=
    match side with
    | request => highlightedRequest text m
    | response => highlightedResponse (Some text) m
    end in
  let marked :=
    source_eqb (source_ m) side
    && (0 <=? startIndex m) && (startIndex m <? endIndex m)
    && (endIndex m <=? len text) in
  highlightedResponse None m = []
  /\ exists before matched after,
       text = before ++ matched ++ after
       /\ escapeHtml text = escapeHtml before ++ escapeHtml matched ++ escapeHtml after
       /\ if marked
          then shown
               = escapeHtml before ++ MARK_OPEN ++ escapeHtml matched
                 ++ MARK_CLOSE ++ escapeHtml after
               /\ len before = startIndex m
               /\ matched = slice text (startIndex m) (endIndex m)
               /\ len matched = endIndex m - startIndex m
               /\ matched <> []
          else shown = escapeHtml text.
Proof.
  intros shown marked. split; [reflexivity|].
  destruct text as [|c text].
  - exists [], [], []. split; [reflexivity|]. split; [reflexivity|].
    assert (M : marked = false).
    { subst marked. change (len (@nil N)) with 0.
      destruct (source_eqb (source_ m) side); [|reflexivity].
      destruct (Z.leb_spec 0 (startIndex m)); [|reflexivity].
      destruct (Z.ltb_spec (startIndex m) (endIndex m)); [|reflexivity].
      destruct (Z.leb_spec (endIndex m) 0); [lia | reflexivity]. }
    rewrite M. subst shown. now destruct side.
  - assert (S : shown = highlight side (c :: text) m) by (subst shown; now destruct side).
    rewrite S. apply highlight_cases.
Qed.

Lemma highlight_withValue (side : Source) (text : jsstring) (m : MatchResult)
  (v : jsstring) :
  highlight side text (withValue m v) = highlight side text m.
Proof. reflexivity. Qed.

Lemma slice_prefix_of {A : Type} (text v : list A) (a : Z) :
  0 <= a -> a + len v <= len text ->
  slice text a (a + len v) = v ->
  text = slice text 0 a ++ v ++ sliceFrom text (a + len v).
Proof.
  intros Ha Hb E. pose proof (len_nonneg v).
  destruct (slice_three text a (a + len v)) as [T _]; [lia | lia |].
  now rewrite E in T.
Qed.

Lemma isEmpty_false {A : Type} (l : list A) : 0 < len l -> isEmpty l = false.
Proof. destruct l; [unfold len; simpl; lia | reflexivity]. Qed.

Lemma highlight_range (side : Source) (text : jsstring) (m : MatchResult)
  (v : jsstring) :
  source_ m = side -> 0 <= startIndex m ->
  endIndex m = startIndex m + len v -> v <> [] -> endIndex m <= len text ->
  slice text (startIndex m) (endIndex m) = v ->
  text = slice text 0 (startIndex m) ++ v ++ sliceFrom text (endIndex m)
  /\ len (slice text 0 (startIndex m)) = startIndex m
  /\ highlight side text m
     = escapeHtml (slice text 0 (startIndex m)) ++ MARK_OPEN ++ escapeHtml v
       ++ MARK_CLOSE ++ escapeHtml (sliceFrom text (endIndex m)).
Proof.
  intros Hs H0 He Hv Hl Hsl.
  apply len_pos_iff in Hv.
  destruct (slice_three text (startIndex m) (endIndex m)) as [E [L1 _]];
    [lia | lia |].
  rewrite Hsl in E. split; [exact E|]. split; [exact L1|].
  unfold highlight. cbn zeta. rewrite Hs.
  assert (S : source_eqb side side = true) by now destruct side.
  rewrite S. cbn [negb]. rewrite Z.geb_leb.
  destruct (Z.leb_spec 0 (startIndex m)); [|lia].
  destruct (Z.leb_spec (endIndex m) (len text)); [|lia].
  destruct (Z.ltb_spec (startIndex m) (endIndex m)); [|lia].
  cbn [andb]. now rewrite Hsl.
Qed.

Lemma wholeMatchMode_extractOne (mg : option (list Z)) (m : RegExpMatchArray) :
  wholeMatchMode mg = true -> extractOne mg m = wholeMatch m.
Proof.
  destruct mg as [[|g gs]|]; cbn [wholeMatchMode]; try reflexivity.
  intros H. apply Z.eqb_eq in H. subst g. apply extractOne_group0.
Qed.

(** A whole match of a text the engine matched in: a MatchResult built
    from it has the range the viewer marks. *)
Lemma whole_match_tagged (rt : Runtime) (text : jsstring) (regex : RegExp)
  (mg : option (list Z)) (id : N) (side : Source) (mr : MatchResult) :
  wholeMatchMode mg = true ->
  forallb (match_in_text text)
    (String_matchAll rt text (RegExp_from regex (lit "g"))) = true ->
  In mr (map (fun extracted =>
                mkMatchResult (e_value extracted) id side
                  (e_startIndex extracted) (e_endIndex extracted))
             (extractMatches rt text regex mg)) ->
  source_ mr = side /\ 0 <= startIndex mr
  /\ endIndex mr = startIndex mr + len (value mr)
  /\ endIndex mr <= len text
  /\ slice text (startIndex mr) (endIndex mr) = value mr.
Proof.
  intros Hmode Hok Hin. apply in_map_iff in Hin as [e [<- He]]. cbn.
  rewrite extractMatches_map in He. destruct (isEmpty text); [destruct He|].
  apply in_map_iff in He as [m [<- Hm]].
  rewrite forallb_forall in Hok.
  destruct (extractOne_shape mg m) as [Hend _].
  destruct (extractOne_in_text text mg m (Hok m Hm)) as [H0 Hin].
  assert (Hocc : 0 <= indexOf (m_whole m) (e_value (extractOne mg m))).
  { rewrite (wholeMatchMode_extractOne mg m Hmode). cbn.
    rewrite indexOf_self. lia. }
  destruct (Hin Hocc) as [Hs Hl]. now repeat split.
Qed.

(** X7: From the search to the viewer, when whole matches are extracted
    ([matchGroups] null, empty or starting with 0) and the engine's matches
    lie in the texts: for a match with a non-empty value found in a record,
    the viewer, given the data [getRequestData] returns for that record,
    shows on the match's side the escaped text with the highlight tags
    around exactly the matched text, at the offset [startIndex]; this
    whatever value the match was stored with after trimming and
    transforming. *)
Theorem viewer_marks_whole_match
  (rt : Runtime) (item : Item) (regex : RegExp) (mg : option (list Z))
  (inReq inResp : bool) (mr : MatchResult) (stored : jsstring) :
  wholeMatchMode mg = true ->
  (forall side,
     forallb (match_in_text (sideText item side))
       (String_matchAll rt (sideText item side) (RegExp_from regex (lit "g")))
     = true) ->
  In mr (findMatchesInRequestResponse rt (item_request item) (item_response item)
           regex mg inReq inResp) ->
  value mr <> [] ->
  exists d before after,
    getRequestData (Normal (Some item)) = mkRequestDataResult (Some d) None
    /\ sideText item (source_ mr) = before ++ value mr ++ after
    /\ len before = startIndex mr
    /\ paneOf d (withValue mr stored)
       = escapeHtml before ++ MARK_OPEN ++ escapeHtml (value mr)
         ++ MARK_CLOSE ++ escapeHtml after.
Proof.
  intros Hmode Hok Hin Hv.
  assert (T : source_ mr = request
              /\ In mr (map (fun extracted =>
                               mkMatchResult (e_value extracted)
                                 (getId (item_request item)) request
                                 (e_startIndex extracted) (e_endIndex extracted))
                            (extractMatches rt (sideText item request) regex mg))
              \/ source_ mr = response
                 /\ In mr (map (fun extracted =>
                                  mkMatchResult (e_value extracted)
                                    (getId (item_request item)) response
                                    (e_startIndex extracted) (e_endIndex extracted))
                               (extractMatches rt (sideText item response) regex mg))).
  { unfold findMatchesInRequestResponse in Hin. cbn zeta in Hin.
    unfold sideText.
    assert (Tag : forall src text,
               In mr (map (fun extracted =>
                             mkMatchResult (e_value extracted)
                               (getId (item_request item)) src
                               (e_startIndex extracted) (e_endIndex extracted))
                          (extractMatches rt text regex mg)) ->
               source_ mr = src).
    { intros src text H. apply in_map_iff in H as [e [<- _]]. reflexivity. }
    destruct inReq, inResp, (item_response item) as [r|]; cbn [app] in Hin;
      try apply in_app_iff in Hin as [Hin | Hin];
      try destruct Hin;
      try (left; split; [now apply Tag in Hin | exact Hin]);
      try (right; split; [now apply Tag in Hin | exact Hin]). }
  assert (R : exists side,
             source_ mr = side
             /\ 0 <= startIndex mr
             /\ endIndex mr = startIndex mr + len (value mr)
             /\ endIndex mr <= len (sideText item side)
             /\ slice (sideText item side) (startIndex mr) (endIndex mr) = value mr).
  { destruct T as [[Hs Hm] | [Hs Hm]].
    - exists request. split; [exact Hs|].
      now apply (whole_match_tagged rt _ regex mg _ request mr Hmode (Hok request)) in Hm.
    - exists response. split; [exact Hs|].
      now apply (whole_match_tagged rt _ regex mg _ response mr Hmode (Hok response)) in Hm. }
  destruct R as [side [Hs [H0 [He [Hl Hsl]]]]].
  set (text := sideText item side) in *.
  assert (Hne : isEmpty text = false).
  { apply isEmpty_false. apply len_pos_iff in Hv. lia. }
  destruct (highlight_range side text (withValue mr stored) (value mr)
              Hs H0 He Hv Hl Hsl) as [E [L H]].
  cbn [startIndex endIndex withValue] in E, L, H.
  eexists _, (slice text 0 (startIndex mr)), (sliceFrom text (endIndex mr)).
  split; [reflexivity|].
  rewrite Hs. split; [exact E|]. split; [exact L|].
  unfold paneOf. cbn [source_ withValue requestRaw responseRaw]. rewrite Hs.
  destruct side; cbn [sideText] in text.
  - unfold highlightedRequest. fold text. rewrite Hne. exact H.
  - unfold highlightedResponse. subst text.
    destruct (item_response item) as [r|]; [|discriminate].
    rewrite Hne. cbn [isEmpty]. rewrite Hne. exact H.
Qed.

(* ===================================================================== *)
(** * The run: what is sent, and what an undisturbed run returns         *)
(* ===================================================================== *)

Lemma scannedItems_undisturbed (pages : Pages) :
  undisturbed pages = true -> scannedItems pages = allItems pages.
Proof.
  induction pages as [stop items cur | stop items cur rest IH | msg];
    cbn [undisturbed scannedItems allItems].
  - now destruct stop.
  - destruct stop; [discriminate|]. cbn [negb andb]. intros H. now rewrite IH.
  - discriminate.
Qed.

(** The loop sends every match it stores; on pages that are neither
    stopped nor failing it returns the size of the store. *)
Lemma fetchLoop_all_sent (rt : Runtime) (sdk : SDK) (regex : RegExp)
  (options : GrepOptions) (lastRequestId : N) (pages : Pages)
  (f : Frame) (w : World) :
  grepStore w = matches f ->
  sentMatchCount f = map_size (matches f) ->
  exists res w' evs,
    fetchLoop rt sdk regex options lastRequestId pages f w = (res, w')
    /\ sent w' = sent w ++ evs
    /\ sentTotal (sentMatchCount f) evs = map_size (grepStore w')
    /\ (isGrepActive w = true -> undisturbed pages = true ->
        res = Normal (map_size (grepStore w'))).
Proof.
  revert f w.
  assert (Idle : forall (pages : Pages) f w,
             grepStore w = matches f ->
             sentMatchCount f = map_size (matches f) ->
             exists res w' evs,
               (Normal (map_size (matches f)), w) = (res, w')
               /\ sent w' = sent w ++ evs
               /\ sentTotal (sentMatchCount f) evs = map_size (grepStore w')
               /\ (isGrepActive w = true -> undisturbed pages = true ->
                   res = Normal (map_size (grepStore w')))).
  { intros pg f w Hst Hs. exists (Normal (map_size (matches f))), w, [].
    split; [reflexivity|]. rewrite app_nil_r. split; [reflexivity|].
    cbn [sentTotal fold_left]. rewrite Hst. split; [exact Hs | reflexivity]. }
  induction pages as [stop items cur | stop items cur rest IH | msg];
    intros f w Hst Hs; cbn [fetchLoop];
    destruct (belowMax options (matches f) && isGrepActive w) eqn:C;
    try (now apply Idle);
    apply andb_true_iff in C as [_ Hact]; rewrite Hact.
  - pose proof (processPage_spec rt sdk regex options lastRequestId stop items
                  f w Hact Hst) as P. cbn zeta in P.
    specialize (P ltac:(pose proof (len_nonneg (matches f)); unfold map_size in *; lia)).
    destruct stop.
    + rewrite P. eexists _, _, [_]. split; [reflexivity|]. cbn.
      split; [reflexivity|]. split; [now rewrite Hst | discriminate].
    + destruct P as [pid [evs [-> [_ [Ht _]]]]].
      eexists _, _, (_ :: evs). split; [reflexivity|]. cbn [grepStore sent].
      split; [reflexivity|]. split; [exact Ht | reflexivity].
  - pose proof (processPage_spec rt sdk regex options lastRequestId stop items
                  f w Hact Hst) as P. cbn zeta in P.
    specialize (P ltac:(pose proof (len_nonneg (matches f)); unfold map_size in *; lia)).
    destruct stop.
    + rewrite P. eexists _, _, [_]. split; [reflexivity|]. cbn.
      split; [reflexivity|]. split; [now rewrite Hst | discriminate].
    + destruct P as [pid [evs [-> [_ [Ht _]]]]].
      set (M := collect options
                  (candidates options (rawMatchesOf rt sdk regex options items))
                  (matches f)) in *.
      destruct (IH (mkFrame M pid (map_size M))
                   (mkWorld true M
                      (sent w ++ progressEvent
                         (progress rt (Number rt (processedRequestID f))
                            (Number rt lastRequestId)) :: evs)
                      (stopPromise w))
                   eq_refl eq_refl)
        as [res [w' [evs' [-> [Hsent' [Ht' Hn']]]]]].
      cbn [isGrepActive matches sent sentMatchCount] in Hsent', Ht', Hn'.
      exists res, w', (progressEvent
                         (progress rt (Number rt (processedRequestID f))
                            (Number rt lastRequestId)) :: evs ++ evs').
      split; [reflexivity|].
      split; [rewrite Hsent', <- app_assoc; reflexivity|].
      split.
      * change (sentTotal (sentMatchCount f) (evs ++ evs') = map_size (grepStore w')).
        now rewrite sentTotal_app, Ht.
      * intros _ U. cbn [undisturbed negb andb] in U. now apply Hn'.
  - eexists _, _, [_]. split; [reflexivity|]. cbn.
    split; [reflexivity|]. split; [now rewrite Hst | discriminate].
Qed.

Lemma runRawMatches_setup (rt : Runtime) (sdk : SDK) (pattern : jsstring)
  (options : GrepOptions) (regex : RegExp) (last : N) :
  runSetup rt sdk pattern = Some (regex, last) ->
  runRawMatches rt sdk pattern options
  = rawMatchesOf rt sdk regex options
      (allItems (requests_query sdk (buildRegexFilter regex options))).
Proof. unfold runRawMatches. now intros ->. Qed.

Lemma loopFailure_undisturbed (rt : Runtime) (sdk : SDK) (regex : RegExp)
  (options : GrepOptions) (pages : Pages) (m : JSMap MatchResult) :
  undisturbed pages = true -> loopFailure rt sdk regex options pages m = None.
Proof.
  revert m; induction pages as [stop items cur | stop items cur rest IH | msg];
    intros m; cbn [undisturbed loopFailure];
    destruct (maxReached options m); try reflexivity.
  - now destruct stop.
  - destruct stop; [discriminate|]. cbn [negb andb]. intros H. now apply IH.
  - discriminate.
Qed.

Lemma stoppedInSetup_false (sdk : SDK) :
  stop_at_getCurrent sdk = false -> stop_at_last sdk = false ->
  stoppedInSetup sdk = false.
Proof. unfold stoppedInSetup. now intros -> ->. Qed.

(** X8: A run that is not stopped and whose queries all succeed returns the
    data half with the size of the store and no error, and it misses no
    value: the store is the first-seen collection of the candidates of all
    the records the host serves, cut only by [maxResults]; so either the
    limit is reached, or every candidate's value is in the store. *)
Theorem undisturbed_run_is_complete
  (rt : Runtime) (sdk : SDK) (pattern : jsstring) (options : GrepOptions)
  (store0 : JSMap MatchResult) (sent0 : list Event) (regex : RegExp) (last : N) :
  runSetup rt sdk pattern = Some (regex, last) ->
  stop_at_getCurrent sdk = false -> stop_at_last sdk = false ->
  undisturbed (requests_query sdk (buildRegexFilter regex options)) = true ->
  let out :=
    grepRequests rt sdk pattern options (mkWorld false store0 sent0 false) in
  let store := grepStore (snd out) in
  let cs := candidates options (runRawMatches rt sdk pattern options) in
  fst out
  = Some (mkEnvelope
            (Some (mkGrepData (Some (map_size store)) None
                     (endTime sdk - startTime sdk)))
            None)
  /\ store = collect options cs []
  /\ (maxReached options store = true
      \/ forall c, In c cs -> In (value c) (getValues store)).
Proof.
  intros Setup S1 S2 U out store cs.
  pose proof (stoppedInSetup_false sdk S1 S2) as NS.
  assert (Hraw : runScannedMatches rt sdk pattern options
                 = runRawMatches rt sdk pattern options).
  { unfold runScannedMatches, runRawMatches.
    now rewrite Setup, NS, (scannedItems_undisturbed _ U). }
  assert (Hst : store = collect options cs []).
  { unfold store, out, cs. now rewrite grepRequests_store_exact, Hraw. }
  split; [|split; [exact Hst|]].
  - unfold store, out. rewrite grepRequests_idle. cbn [fst snd].
    destruct (grepRequests_try_loop rt sdk pattern options store0 sent0 regex
                last Setup) as [evs [E _]].
    cbn zeta in E. rewrite E. cbn [fst snd grepStore].
    unfold runLoopFailure.
    now rewrite Setup, NS, (loopFailure_undisturbed _ _ _ _ _ _ U).
  - destruct (collect_or_maxed options cs []) as [D | M].
    + right. intros c Hc. unfold getValues. apply map_has_true.
      rewrite Hst, D, dedupFirst_has. cbn [map_has existsb orb].
      apply existsb_exists. exists c. split; [exact Hc | apply str_eqb_refl].
    + left. now rewrite Hst.
Qed.

(** X9: A run that is stopped while a page is awaited, or whose query fails,
    keeps in the store exactly what the pages received before yielded: the
    first-seen collection of their candidates, cut by [maxResults].  The
    page being awaited adds nothing. *)
Theorem interrupted_run_keeps_earlier_pages
  (rt : Runtime) (sdk : SDK) (pattern : jsstring) (options : GrepOptions)
  (store0 : JSMap MatchResult) (sent0 : list Event) (regex : RegExp) (last : N) :
  runSetup rt sdk pattern = Some (regex, last) ->
  stop_at_getCurrent sdk = false -> stop_at_last sdk = false ->
  let pages := requests_query sdk (buildRegexFilter regex options) in
  let out :=
    grepRequests rt sdk pattern options (mkWorld false store0 sent0 false) in
  grepStore (snd out)
  = collect options
      (candidates options (rawMatchesOf rt sdk regex options (scannedItems pages)))
      []
  /\ isGrepActive (snd out) = false
  /\ (exists env,
        fst out = Some env
        /\ forall d, env_data env = Some d ->
             d_matchesCount d = Some (map_size (grepStore (snd out)))
             /\ d_error d = None).
Proof.
  intros Setup S1 S2 pages out.
  pose proof (stoppedInSetup_false sdk S1 S2) as NS.
  unfold out. rewrite grepRequests_idle. cbn [fst snd].
  destruct (grepRequests_try_loop rt sdk pattern options store0 sent0 regex
              last Setup) as [evs [E _]].
  cbn zeta in E. rewrite E. cbn [fst snd grepStore isGrepActive].
  unfold runScannedMatches. rewrite Setup, NS. fold pages.
  split; [reflexivity|]. split; [reflexivity|].
  eexists. split; [reflexivity|]. intros d.
  destruct (runLoopFailure rt sdk pattern options); cbn [env_data];
    [discriminate|].
  intros [= <-]. split; reflexivity.
Qed.

(* ===================================================================== *)
(** * A run starts afresh                                                *)
(* ===================================================================== *)










(* ===================================================================== *)
(** * The results to download                                            *)
(* ===================================================================== *)

(** X11: [downloadResults] after a call of [grepRequests] on an idle service:
    it returns either the error "No grep results available", exactly when
    the run left the store empty, or the stored matches, which are not
    empty, pairwise different in value, and as many as the count the run
    reported if it reported one.  A run that ends before the pagination
    loop (no project, no request, invalid pattern) leaves nothing to
    download, whatever an earlier run had stored. *)
Theorem downloadResults_after_run
  (rt : Runtime) (sdk : SDK) (pattern : jsstring) (options : GrepOptions)
  (store0 : JSMap MatchResult) (sent0 : list Event) :
  let out :=
    grepRequests rt sdk pattern options (mkWorld false store0 sent0 false) in
  let dl := downloadResults (snd out) in
  (dl = mkDownload None (Some (lit "No grep results available"))
   /\ grepStore (snd out) = []
   \/ exists ms,
        dl = mkDownload (Some ms) None
        /\ ms = getMatches (grepStore (snd out))
        /\ ms <> []
        /\ NoDup (map value ms))
  /\ (exists env,
        fst out = Some env
        /\ forall d n, env_data env = Some d -> d_matchesCount d = Some n ->
                       n = len (getMatches (grepStore (snd out))))
  /\ (runSetup rt sdk pattern = None ->
      dl = mkDownload None (Some (lit "No grep results available"))).
Proof.
  intros out dl. subst dl. unfold downloadResults.
  destruct (grepRequests_spec rt sdk pattern options store0 sent0)
    as [env [w' [evs [cs [rest [E [_ [_ [_ [Hst [_ [_ [Hn _]]]]]]]]]]]]].
  fold out in E. rewrite E. cbn [fst snd].
  split; [|split].
  - destruct (grepStore w') as [|kv m] eqn:St.
    + left. now split.
    + right.
      assert (Z : (map_size (kv :: m) =? 0) = false).
      { apply Z.eqb_neq. unfold map_size, len. cbn [List.length]. lia. }
      rewrite Z.
      eexists. split; [reflexivity|]. split; [reflexivity|].
      split; [discriminate|].
      apply wellKeyed_values. rewrite Hst.
      apply dedupFirst_wellKeyed, wellKeyed_nil.
  - exists env. split; [reflexivity|].
    intros d n Hd Hc. unfold getMatches. rewrite len_map_values.
    now apply (Hn d).
  - intros Setup. unfold out in E. rewrite grepRequests_idle in E.
    rewrite (grepRequests_try_no_loop rt sdk pattern options store0 sent0 Setup)
      in E.
    injection E as _ <-. reflexivity.
Qed.

(** X12: A run that ends before the pagination loop (no project selected, no
    request in the project, a pattern that does not compile) sends no
    event at all, clears the store and leaves the flag false; but a
    [stopGrep()] called while it awaited the project or the last request
    is left waiting, since nothing calls [stopResolve] before the loop,
    and then every later search waits for ever.  Any other run sends the
    progress 0 first and leaves no [stopGrep()] waiting. *)
Theorem run_without_setup_is_silent
  (rt : Runtime) (sdk : SDK) (pattern : jsstring) (options : GrepOptions)
  (store0 : JSMap MatchResult) (sent0 : list Event) :
  let out :=
    grepRequests rt sdk pattern options (mkWorld false store0 sent0 false) in
  match runSetup rt sdk pattern with
  | None =>
      snd out = mkWorld false [] sent0 (stopLeftWaiting sdk)
      /\ (stopLeftWaiting sdk = true ->
          forall sdk' pattern' options',
            grepRequests rt sdk' pattern' options' (snd out) = (None, snd out))
  | Some _ =>
      (exists evs, sent (snd out) = sent0 ++ progressEvent 0 :: evs)
      /\ isGrepActive (snd out) = false
      /\ stopPromise (snd out) = false
  end.
Proof.
  intros out. unfold out. rewrite grepRequests_idle. cbn [snd].
  destruct (runSetup rt sdk pattern) as [[regex last]|] eqn:Setup.
  - destruct (grepRequests_try_loop rt sdk pattern options store0 sent0 regex
                last Setup) as [evs [E _]].
    cbn zeta in E. rewrite E. cbn [snd sent isGrepActive stopPromise].
    split; [now exists evs | now split].
  - rewrite (grepRequests_try_no_loop rt sdk pattern options store0 sent0 Setup).
    cbn [snd]. split; [reflexivity|].
    intros -> sdk' pattern' options'. reflexivity.
Qed.

(* ===================================================================== *)
(** * What the store holds                                               *)
(* ===================================================================== *)

Lemma finalValue_clean (options : GrepOptions) (raw : MatchResult) (v : jsstring) :
  finalValue options raw = Some v ->
  v <> [] /\ trim v = v
  /\ (noTransform options = true -> v = trim (value raw))
  /\ (cleanupOutput options = true -> noTransform options = true ->
      hasNonPrintable v = false).
Proof.
  unfold finalValue, transformed, noTransform. cbn zeta.
  destruct (cleanupOutput options && hasNonPrintable (trim (value raw))) eqn:C;
    [discriminate|].
  destruct (Z.eqb_spec (len (trim (value raw))) 0) as [|Hne]; [discriminate|].
  assert (Plain : Some (trim (value raw)) = Some v ->
                  v <> [] /\ trim v = v
                  /\ (true = true -> v = trim (value raw))
                  /\ (cleanupOutput options = true -> true = true ->
                      hasNonPrintable v = false)).
  { intros [= <-]. split; [intros Hnil; apply Hne; now rewrite Hnil|].
    split; [apply trim_idem|]. split; [reflexivity|].
    intros Hc _. now rewrite Hc in C. }
  destruct (transformScript options) as [script|]; [|exact Plain].
  destruct (isEmpty (script_source script)); [exact Plain|].
  destruct (applyTransform (trim (value raw)) script) as [t|]; [|discriminate].
  destruct (Z.eqb_spec (len (trim t)) 0) as [|Hne']; [discriminate|].
  intros [= <-]. split; [intros Hnil; apply Hne'; now rewrite Hnil|].
  split; [apply trim_idem|]. split; discriminate.
Qed.

Lemma stored_is_candidate (rt : Runtime) (sdk : SDK) (pattern : jsstring)
  (options : GrepOptions) (store0 : JSMap MatchResult) (sent0 : list Event)
  (m : MatchResult) :
  In m (getMatches
          (grepStore
             (snd (grepRequests rt sdk pattern options (mkWorld false store0 sent0 false))))) ->
  exists raw,
    In raw (runRawMatches rt sdk pattern options)
    /\ finalValue options raw = Some (value m)
    /\ m = withValue raw (value m).
Proof.
  destruct (grepRequests_spec rt sdk pattern options store0 sent0)
    as [env [w' [evs [cs [rest [E [_ [_ [Hc [Hst _]]]]]]]]]].
  rewrite E. cbn [snd]. unfold getMatches. rewrite Hst. intros Hin.
  apply dedupFirst_values_in in Hin as [[] | Hin].
  assert (Hin' : In m (candidates options (runRawMatches rt sdk pattern options)))
    by (rewrite Hc; apply in_or_app; now left).
  apply candidates_in in Hin' as [raw [Hraw Hcand]].
  exists raw. split; [exact Hraw|].
  unfold candidate in Hcand.
  destruct (finalValue options raw) as [v|]; [|discriminate].
  injection Hcand as <-. now split.
Qed.

(** X13: Every match a run stores carries a value that is not empty and that
    [trim] leaves unchanged; it is a raw match of the run with its value
    replaced, the request id, the side and the indices kept.  Without a
    transform script the value is the trimmed raw value, and with
    [cleanupOutput] it is then printable ASCII. *)
Theorem stored_values_are_trimmed
  (rt : Runtime) (sdk : SDK) (pattern : jsstring) (options : GrepOptions)
  (store0 : JSMap MatchResult) (sent0 : list Event) :
  Forall
    (fun m =>
       value m <> [] /\ trim (value m) = value m
       /\ exists raw,
            In raw (runRawMatches rt sdk pattern options)
            /\ m = withValue raw (value m)
            /\ (noTransform options = true -> value m = trim (value raw))
            /\ (cleanupOutput options = true -> noTransform options = true ->
                hasNonPrintable (value m) = false))
    (getMatches
       (grepStore
          (snd (grepRequests rt sdk pattern options (mkWorld false store0 sent0 false))))).
Proof.
  apply Forall_forall. intros m Hin.
  apply stored_is_candidate in Hin as [raw [Hraw [Hf Hm]]].
  destruct (finalValue_clean options raw (value m) Hf) as [Hne [Ht [Hp Hc]]].
  split; [exact Hne|]. split; [exact Ht|].
  exists raw. now repeat split.
Qed.

Lemma findMatches_provenance (rt : Runtime) (req : Request)
  (resp : option Response) (regex : RegExp) (mg : option (list Z))
  (inReq inResp : bool) (mr : MatchResult) :
  In mr (findMatchesInRequestResponse rt req resp regex mg inReq inResp) ->
  requestId mr = getId req
  /\ match source_ mr with
     | request => inReq = true /\ toText (getRaw req) <> []
     | response =>
         inResp = true
         /\ exists r, resp = Some r /\ toText (resp_getRaw r) <> []
     end.
Proof.
  assert (G : forall text src,
             In mr (map (fun extracted =>
                           mkMatchResult (e_value extracted) (getId req) src
                             (e_startIndex extracted) (e_endIndex extracted))
                        (extractMatches rt text regex mg)) ->
             requestId mr = getId req /\ source_ mr = src /\ text <> []).
  { intros text src H. apply in_map_iff in H as [e [<- He]]. cbn.
    split; [reflexivity|]. split; [reflexivity|].
    rewrite extractMatches_map in He. now destruct text. }
  unfold findMatchesInRequestResponse. cbn zeta. intros H.
  destruct inReq, inResp, resp as [r|]; cbn [app] in H;
    try apply in_app_iff in H as [H | H];
    try destruct H;
    apply G in H as [Hid [Hs Ht]]; rewrite Hs;
    (split; [exact Hid|]); try (now split);
    (split; [reflexivity|]); now exists r.
Qed.

(** X14: Where the stored matches come from: every match in the store after a
    run carries the id of a record the host served to that run; the
    record is in scope when [onlyInScope] is set; a match tagged
    ["request"] is there only with [includeRequests], and the request has
    a non-empty raw text; a match tagged ["response"] is there only with
    [includeResponses], and the record has a response with a non-empty raw
    text. *)
Theorem stored_matches_provenance
  (rt : Runtime) (sdk : SDK) (pattern : jsstring) (options : GrepOptions)
  (store0 : JSMap MatchResult) (sent0 : list Event) :
  Forall
    (fun m =>
       exists regex last item,
         runSetup rt sdk pattern = Some (regex, last)
         /\ In item (allItems (requests_query sdk (buildRegexFilter regex options)))
         /\ requestId m = getId (item_request item)
         /\ (onlyInScope options = true ->
             requests_inScope sdk (item_request item) = true)
         /\ includeRequests options || includeResponses options = true
         /\ sideText item (source_ m) <> []
         /\ match source_ m with
            | request => includeRequests options = true
            | response =>
                includeResponses options = true
                /\ exists r, item_response item = Some r
            end)
    (getMatches
       (grepStore
          (snd (grepRequests rt sdk pattern options (mkWorld false store0 sent0 false))))).
Proof.
  apply Forall_forall. intros m Hin.
  apply stored_is_candidate in Hin as [raw [Hraw [_ Hm]]].
  unfold runRawMatches in Hraw.
  destruct (runSetup rt sdk pattern) as [[regex last]|]; [|destruct Hraw].
  exists regex, last. unfold rawMatchesOf in Hraw.
  apply in_flat_map in Hraw as [item [Hitem Hraw]]. exists item.
  split; [reflexivity|]. split; [exact Hitem|].
  destruct (onlyInScope options && negb (requests_inScope sdk (item_request item)))
    eqn:Sc; [destruct Hraw|].
  apply findMatches_provenance in Hraw as [Hid Hsrc].
  rewrite Hm. cbn [requestId source_ withValue].
  split; [exact Hid|].
  split.
  { intros Ho. rewrite Ho in Sc. cbn in Sc. now apply negb_false_iff in Sc. }
  unfold sideText.
  destruct (source_ raw).
  - destruct Hsrc as [-> Ht]. now repeat split.
  - destruct Hsrc as [-> [r [-> Ht]]]. split; [apply orb_true_r|].
    split; [exact Ht|]. split; [reflexivity | now exists r].
Qed.

(* ===================================================================== *)
(** * The frontend store follows the events                              *)
(* ===================================================================== *)

Lemma receive_count (log : list Event) (ui : UI) (s : Z) :
  ui_uniqueMatchesCount (receive ui log)
  = ui_uniqueMatchesCount ui + (sentTotal s log - s).
Proof.
  revert ui s; induction log as [|e log IH]; intros ui s;
    cbn [receive fold_left sentTotal]; [lia|].
  fold (receive (onEvent ui e) log). fold (sentTotal (sentAfter s e) log).
  rewrite (IH _ (sentAfter s e)).
  destruct e as [p | l | n]; cbn [onEvent ui_uniqueMatchesCount sentAfter]; lia.
Qed.

Lemma firstn_plus {A : Type} (a b : nat) (l : list A) :
  firstn (a + b) l = firstn a l ++ firstn b (skipn a l).
Proof.
  revert l; induction a as [|a IH]; intros l; [reflexivity|].
  destruct l as [|x l]; cbn [Nat.add firstn skipn app].
  - now rewrite firstn_nil.
  - now rewrite IH.
Qed.

Lemma slice_extend {A : Type} (all : list A) (s k : Z) :
  0 <= s -> 0 <= k -> s + k <= len all ->
  slice all 0 s ++ slice all s (s + k) = slice all 0 (s + k).
Proof.
  intros Hs Hk Hl. unfold slice.
  rewrite (clampIndex_in (len all) 0), (clampIndex_in (len all) s),
    (clampIndex_in (len all) (s + k)) by lia.
  cbn [Z.to_nat skipn]. rewrite !Z.sub_0_r.
  replace (Z.to_nat (s + k)) with (Z.to_nat s + Z.to_nat (s + k - s))%nat by lia.
  rewrite firstn_plus. reflexivity.
Qed.

Lemma slice_0_prefix {A : Type} (all : list A) (s : Z) :
  0 <= s <= len all ->
  (exists rest, all = slice all 0 s ++ rest) /\ len (slice all 0 s) = s.
Proof.
  intros H. destruct (slice_three all s s) as [E [L _]]; [lia | lia |].
  split; [|exact L]. eexists. exact E.
Qed.

(** The results held after the events of a log: the first matches of
    [all], as many as were sent as arrays. *)
Lemma receive_results (all : list MatchResult) (log : list Event) (ui : UI) (s : Z) :
  batchesOk all s log ->
  0 <= s <= len all ->
  resultsOrEmpty (ui_searchResults ui) = slice all 0 (len (resultsOrEmpty (ui_searchResults ui))) ->
  len (resultsOrEmpty (ui_searchResults ui)) <= s ->
  (s <= 25000 -> len (resultsOrEmpty (ui_searchResults ui)) = s) ->
  let R := resultsOrEmpty (ui_searchResults (receive ui log)) in
  R = slice all 0 (len R)
  /\ len R <= sentTotal s log <= len all
  /\ (sentTotal s log <= 25000 -> len R = sentTotal s log).
Proof.
  revert ui s; induction log as [|e log IH]; intros ui s Hb Hs HR Hle Hsm;
    cbn [receive fold_left sentTotal batchesOk] in *.
  - cbn zeta. repeat split; try assumption; lia.
  - destruct Hb as [He Hb].
    fold (receive (onEvent ui e) log). fold (sentTotal (sentAfter s e) log).
    destruct e as [p | l | n]; cbn [batchOk sentAfter onEvent] in *.
    + apply IH; assumption.
    + destruct He as [H25 [Hne [Hfit Hl]]].
      pose proof (len_nonneg l) as Hl0.
      specialize (Hsm H25).
      assert (Rl : resultsOrEmpty (ui_searchResults ui) ++ l
                   = slice all 0 (s + len l)).
      { rewrite HR, Hsm, Hl at 1. apply slice_extend; lia. }
      assert (Ll : len (resultsOrEmpty (ui_searchResults ui) ++ l) = s + len l)
        by (rewrite len_app; lia).
      apply IH; cbn [ui_searchResults resultsOrEmpty]; try assumption; try lia.
      now rewrite Ll.
    + destruct He as [H25 [Hn Hfit]].
      apply IH; cbn [ui_searchResults]; try assumption; lia.
Qed.

Lemma receive_some (log : list Event) (ui : UI) :
  ui_searchResults ui <> None -> ui_searchResults (receive ui log) <> None.
Proof.
  revert ui; induction log as [|e log IH]; intros ui H; cbn [receive fold_left];
    [exact H|].
  apply IH. destruct e; cbn [onEvent ui_searchResults]; [exact H | discriminate | exact H].
Qed.

Lemma receive_none (all : list MatchResult) (log : list Event) (ui : UI) :
  batchesOk all 0 log ->
  ui_searchResults ui = None ->
  (ui_searchResults (receive ui log) = None <-> sentTotal 0 log = 0).
Proof.
  revert ui; induction log as [|e log IH]; intros ui Hb Hn;
    cbn [receive fold_left sentTotal batchesOk] in *; [tauto|].
  destruct Hb as [He Hb].
  fold (receive (onEvent ui e) log). fold (sentTotal (sentAfter 0 e) log).
  destruct e as [p | l | n]; cbn [batchOk sentAfter onEvent] in *.
  - apply IH; assumption.
  - destruct He as [_ [Hne _]].
    apply len_pos_iff in Hne.
    pose proof (sentTotal_mono all (0 + len l) log Hb) as M.
    split.
    + intros H. exfalso. revert H. apply receive_some. discriminate.
    + intros H. lia.
  - lia.
Qed.

Lemma grepRequests_all_sent (rt : Runtime) (sdk : SDK) (pattern : jsstring)
  (options : GrepOptions) (store0 : JSMap MatchResult) (sent0 : list Event) :
  exists evs,
    sent (snd (grepRequests rt sdk pattern options (mkWorld false store0 sent0 false)))
    = sent0 ++ evs
    /\ batchesOk
         (getMatches
            (grepStore
               (snd (grepRequests rt sdk pattern options (mkWorld false store0 sent0 false)))))
         0 evs
    /\ sentTotal 0 evs
       = map_size
           (grepStore
              (snd (grepRequests rt sdk pattern options (mkWorld false store0 sent0 false)))).
Proof.
  destruct (grepRequests_spec rt sdk pattern options store0 sent0)
    as [env [w' [evs [cs [rest [E [_ [Hs [_ [_ [Hb _]]]]]]]]]]].
  exists evs. rewrite E. cbn [snd]. split; [exact Hs|]. split; [exact Hb|].
  clear Hb.
  rewrite grepRequests_idle in E.
  assert (E' : grepRequests_try rt sdk pattern options
                 (mkWorld false store0 sent0 false) = (env, w')).
  { injection E as E1 E2. rewrite <- E1, <- E2. apply surjective_pairing. }
  clear E. revert E' Hs.
  unfold grepRequests_try, executeGrepSearch, fetchAndProcessRequests.
  cbn zeta.
  set (w0 := set_store [] (set_active true (mkWorld false store0 sent0 false))).
  set (w1 := await (stop_at_getCurrent sdk) w0).
  set (w2 := await (stop_at_last sdk) w1).
  assert (S1 : grepStore w1 = [] /\ sent w1 = sent0)
    by (subst w1 w0; rewrite await_store, await_sent; now split).
  assert (S2 : grepStore w2 = [] /\ sent w2 = sent0)
    by (subst w2; rewrite await_store, await_sent; exact S1).
  assert (Quiet : forall (env0 : Envelope) (w : World),
             grepStore w = [] /\ sent w = sent0 ->
             (env0, set_active false w) = (env, w') ->
             sent w' = sent0 ++ evs ->
             sentTotal 0 evs = map_size (grepStore w')).
  { intros env0 w [G S] [= _ <-] Hs. cbn [sent set_active grepStore] in *.
    rewrite S in Hs. rewrite G.
    rewrite <- (app_nil_r sent0) in Hs at 1. apply app_inv_head in Hs.
    now subst evs. }
  destruct (projects_getCurrent sdk) as [project|]; [|now apply Quiet].
  destruct (getLastRequestID sdk) as [[|p]|]; try (now apply Quiet).
  destruct (RegExp_new rt pattern (lit "i")) as [regex|e]; [|now apply Quiet].
  destruct S2 as [G2 Se2].
  destruct (fetchLoop_all_sent rt sdk regex options (N.pos p)
              (requests_query sdk (buildRegexFilter regex options))
              (mkFrame [] 0%N 0) (send (progressEvent 0) w2) G2 eq_refl)
    as [res [w3 [evs3 [E3 [Hs3 [Ht3 _]]]]]].
  rewrite E3. cbn [sentMatchCount sent send] in Hs3, Ht3.
  rewrite Se2, <- app_assoc in Hs3.
  intros E Hs.
  assert (W : w' = set_active false (stopResolve w3))
    by (destruct res; now injection E).
  subst w'. cbn [sent set_active grepStore stopResolve] in *.
  rewrite Hs3 in Hs. apply app_inv_head in Hs. subst evs.
  exact Ht3.
Qed.

(** X15: The frontend store, reset as [searchGrepRequests] resets it and then
    given the events of a run in the order they were sent: its counter of
    unique matches ends equal to the size of the result store; the results
    it holds are the first matches of the store, in the store's order; they
    are all of them when the store holds at most 25000 matches; and they
    stay [null] exactly when the run stored nothing. *)
Theorem frontend_follows_the_store
  (rt : Runtime) (sdk : SDK) (pattern : jsstring) (options : GrepOptions)
  (store0 : JSMap MatchResult) (sent0 : list Event) :
  let w' := snd (grepRequests rt sdk pattern options (mkWorld false store0 sent0 false)) in
  exists evs,
    sent w' = sent0 ++ evs
    /\ let ui := receive searchStart evs in
       let shown := resultsOrEmpty (ui_searchResults ui) in
       ui_uniqueMatchesCount ui = map_size (grepStore w')
       /\ shown = slice (getMatches (grepStore w')) 0 (len shown)
       /\ (map_size (grepStore w') <= 25000 -> shown = getMatches (grepStore w'))
       /\ (ui_searchResults ui = None <-> grepStore w' = []).
Proof.
  intros w'.
  destruct (grepRequests_all_sent rt sdk pattern options store0 sent0)
    as [evs [Hs [Hb Ht]]].
  fold w' in Hs, Hb, Ht.
  exists evs. split; [exact Hs|]. cbn zeta.
  set (all := getMatches (grepStore w')) in *.
  assert (La : len all = map_size (grepStore w'))
    by (unfold all, getMatches; apply len_map_values).
  pose proof (len_nonneg all) as Hall.
  assert (S0 : resultsOrEmpty (ui_searchResults searchStart)
               = slice all 0 (len (resultsOrEmpty (ui_searchResults searchStart)))).
  { cbn [searchStart ui_searchResults resultsOrEmpty].
    change (len (@nil MatchResult)) with 0. symmetry.
    apply len_nil_iff. apply (slice_three all 0 0); lia. }
  destruct (receive_results all evs searchStart 0 Hb ltac:(lia) S0)
    as [HR [Hle H25]]; [cbn; lia | cbn; lia |].
  cbn zeta in HR, Hle, H25.
  split; [|split; [exact HR|split]].
  - rewrite (receive_count evs searchStart 0). cbn [ui_uniqueMatchesCount searchStart].
    lia.
  - intros Hsmall. rewrite HR, H25 by lia. rewrite Ht, <- La.
    unfold slice. rewrite (clampIndex_in (len all) 0), (clampIndex_in (len all) (len all))
      by lia.
    cbn [Z.to_nat skipn]. rewrite Z.sub_0_r. apply firstn_all2. unfold len. lia.
  - rewrite (receive_none all evs searchStart Hb eq_refl), Ht, <- La.
    unfold all, getMatches, map_values.
    destruct (grepStore w'); cbn; split; try reflexivity; discriminate.
Qed.

(* ===================================================================== *)
(** * Progress never goes back                                           *)
(* ===================================================================== *)

Section ProgressOrder.
Variable rt : Runtime.
Hypothesis rounding : roundsToNearest rt.

Lemma Number_le (id id' : N) :
  (id <= id')%N -> (Number rt id <= Number rt id')%Q.
Proof.
  intros H. unfold Number. apply (round_le rt rounding).
  - change 0%Q with (inject_Z 0). rewrite <- Zle_Qle. lia.
  - rewrite <- Zle_Qle. lia.
Qed.

Lemma Qdiv_le_r (a b c : Q) :
  (0 < c)%Q -> (a <= b)%Q -> (a / c <= b / c)%Q.
Proof.
  intros Hc H. unfold Qdiv. apply Qmult_le_compat_r; [exact H|].
  apply Qinv_le_0_compat. now apply Qlt_le_weak.
Qed.

Lemma Qdiv_nonneg (a c : Q) : (0 <= a)%Q -> (0 < c)%Q -> (0 <= a / c)%Q.
Proof.
  intros Ha Hc. unfold Qdiv. apply Qmult_le_0_compat; [exact Ha|].
  apply Qinv_le_0_compat. now apply Qlt_le_weak.
Qed.

Lemma scaled_le (a b c : Q) :
  (0 < c)%Q -> (0 <= a)%Q -> (a <= b)%Q ->
  (round rt (round rt (a / c) * 100) <= round rt (round rt (b / c) * 100))%Q.
Proof.
  intros Hc Ha H.
  apply (round_le rt rounding).
  - apply Qmult_le_0_compat; [|discriminate].
    apply (round_nonneg rt rounding). now apply Qdiv_nonneg.
  - apply Qmult_le_compat_r; [|discriminate].
    apply (round_le rt rounding); [now apply Qdiv_nonneg|].
    now apply Qdiv_le_r.
Qed.

Lemma scaled_eq (x v w : Q) :
  (0 <= v)%Q -> (x == v)%Q -> (round rt v == v)%Q -> (v * 100 == w)%Q ->
  (round rt (round rt x * 100) == round rt w)%Q.
Proof.
  intros Hv Hx Hr Hw.
  assert (X0 : (0 <= x)%Q) by now rewrite Hx.
  assert (R : (round rt x == v)%Q).
  { apply Qeq_trans with (y := round rt v); [|exact Hr].
    now apply (round_eq rt rounding). }
  apply (round_eq rt rounding).
  - apply Qmult_le_0_compat; [|discriminate]. now apply (round_nonneg rt rounding).
  - now rewrite R.
Qed.

Lemma progress_le (p p' l : Q) :
  (0 <= p)%Q -> (p <= p')%Q -> (1 <= l)%Q ->
  progress rt p l <= progress rt p' l.
Proof.
  intros Hp H Hl. unfold progress.
  apply Z.min_le_compat_r. apply Qfloor_resp_le.
  apply scaled_le; try assumption.
  eapply Qlt_le_trans; [|exact Hl]. reflexivity.
Qed.

Lemma progress_at_last (l : Q) : (1 <= l)%Q -> progress rt l l = 99.
Proof.
  intros Hl.
  assert (L0 : (0 < l)%Q) by (eapply Qlt_le_trans; [|exact Hl]; reflexivity).
  destruct (progress_spec_range rt rounding l l (Qlt_le_weak _ _ L0) Hl) as [_ [_ Hmax]].
  apply Z.le_antisymm; [exact Hmax|].
  unfold progress. apply Z.min_glb; [|lia].
  destruct rounding as [_ [_ [One H99]]].
  assert (F99 : Qfloor (round rt (round rt (99 # 100) * 100)) = 99)
    by (rewrite (Qfloor_comp _ _ H99); reflexivity).
  rewrite <- F99. apply Qfloor_resp_le.
  assert (E : (l / l == 1)%Q) by (field; intros Z; rewrite Z in L0; discriminate).
  apply (round_le rt rounding).
  - apply Qmult_le_0_compat; [|discriminate].
    apply (round_nonneg rt rounding). discriminate.
  - apply Qmult_le_compat_r; [|discriminate].
    apply (round_le rt rounding); [discriminate|]. rewrite E. discriminate.
Qed.

Lemma progress_at_zero (lastRequestId : N) :
  lastRequestId <> 0%N ->
  progress rt (Number rt 0) (Number rt lastRequestId) = 0.
Proof.
  intros Hl. unfold progress.
  destruct rounding as [_ [Z0 _]].
  assert (E : (round rt (round rt (Number rt 0 / Number rt lastRequestId) * 100)
               == round rt 0)%Q).
  { apply (scaled_eq _ 0); [discriminate | | exact Z0 | reflexivity].
    unfold Number. cbn [Z.of_N inject_Z]. change (0 # 1) with 0%Q.
    rewrite Z0. unfold Qdiv. apply Qmult_0_l. }
  rewrite E in *. rewrite (Qfloor_comp _ _ Z0). reflexivity.
Qed.

Lemma progress_by_id (lastRequestId id id' : N) :
  lastRequestId <> 0%N -> (id <= id')%N ->
  progress rt (Number rt id) (Number rt lastRequestId)
  <= progress rt (Number rt id') (Number rt lastRequestId).
Proof.
  intros Hl H.
  apply progress_le;
    [apply (Number_nonneg rt rounding) | now apply Number_le
    | now apply (Number_ge_1 rt rounding)].
Qed.

Lemma progress_past_last (lastRequestId id : N) :
  lastRequestId <> 0%N -> (lastRequestId <= id)%N ->
  progress rt (Number rt id) (Number rt lastRequestId) = 99.
Proof.
  intros Hl H.
  pose proof (Number_ge_1 rt rounding lastRequestId Hl) as L1.
  apply Z.le_antisymm.
  - apply (progress_spec_range rt rounding); [apply (Number_nonneg rt rounding) | exact L1].
  - rewrite <- (progress_at_last (Number rt lastRequestId) L1).
    now apply progress_by_id.
Qed.

(** ** The ids at which the loop sends its progress *)

Lemma idsAscend_app (l1 l2 : list N) :
  idsAscend (l1 ++ l2) ->
  idsAscend l1 /\ idsAscend l2
  /\ forall a, In a l1 -> Forall (N.le a) l2.
Proof.
  induction l1 as [|x l1 IH]; cbn [app idsAscend].
  - intros H. repeat split; [exact H | intros a []].
  - intros [F H]. destruct (IH H) as [A1 [A2 A3]].
    apply Forall_app in F. destruct F as [F1 F2].
    repeat split; try assumption.
    intros a [<-|Ha]; [exact F2 | now apply A3].
Qed.

Lemma lastProcessed_in (items : list Item) (processedId : N) :
  lastProcessed items processedId = processedId /\ items = []
  \/ In (lastProcessed items processedId)
        (map (fun item => getId (item_request item)) items).
Proof.
  revert processedId; induction items as [|item items IH]; intros processedId.
  - left. now split.
  - right. rewrite lastProcessed_cons. cbn [map].
    destruct (IH (getId (item_request item))) as [[E _]|H].
    + left. now rewrite E.
    + now right.
Qed.

Lemma Forall_le_trans (a b : N) (l : list N) :
  (a <= b)%N -> Forall (N.le b) l -> Forall (N.le a) l.
Proof.
  intros H F. eapply Forall_impl; [|exact F].
  intros c Hc. cbn beta in Hc. lia.
Qed.

(** On a host that serves the requests by growing id, the loop's
    iterations start at ids that never go down. *)
Lemma iterationIds_ascend (sdk : SDK) (regex : RegExp) (options : GrepOptions)
  (pages : Pages) :
  forall (processedId : N) (m : JSMap MatchResult),
    Forall (N.le processedId)
      (map (fun item => getId (item_request item)) (allItems pages)) ->
    idsAscend (map (fun item => getId (item_request item)) (allItems pages)) ->
    Forall (N.le processedId)
      (iterationIds rt sdk regex options pages processedId m)
    /\ idsAscend (iterationIds rt sdk regex options pages processedId m).
Proof.
  assert (One : forall pid : N,
             Forall (N.le pid) [pid] /\ idsAscend [pid]).
  { intros pid. split; [constructor; [lia | constructor]|].
    cbn [idsAscend]. now split. }
  induction pages as [stop items c | stop items c rest IH | message];
    intros pid m F A; cbn [iterationIds];
    destruct (maxReached options m); try (now split; [constructor | exact I]);
    try apply One.
  destruct stop; [apply One|].
  cbn [allItems] in F, A. rewrite map_app in F, A.
  apply Forall_app in F. destruct F as [F1 F2].
  destruct (idsAscend_app _ _ A) as [A1 [A2 A3]].
  assert (Hle : (pid <= lastProcessed items pid)%N).
  { destruct (lastProcessed_in items pid) as [[E _]|H]; [lia|].
    rewrite Forall_forall in F1. now apply F1. }
  assert (F' : Forall (N.le (lastProcessed items pid))
                 (map (fun item => getId (item_request item)) (allItems rest))).
  { destruct (lastProcessed_in items pid) as [[E _]|H]; [now rewrite E|].
    now apply A3. }
  destruct (IH (lastProcessed items pid) (afterPage rt sdk regex options items m)
              F' A2) as [G1 G2].
  pose proof (Forall_le_trans _ _ _ Hle G1) as G.
  split; [constructor; [lia | exact G]|].
  cbn [idsAscend]. now split.
Qed.

Lemma ascending_map (f : N -> Z) (ids : list N) :
  (forall a b, (a <= b)%N -> f a <= f b) ->
  idsAscend ids -> ascending (map f ids).
Proof.
  intros Mono. induction ids as [|a ids IH]; cbn [map idsAscend ascending];
    [trivial|].
  intros [F A]. split; [|now apply IH].
  apply Forall_map. eapply Forall_impl; [|exact F].
  intros b Hb. now apply Mono.
Qed.

(** X16: On a host that serves the requests by growing id, the progress
    values a run sends never go back and stay between 0 and 99, whether
    the run ends, is stopped or fails; the value sent at a request id is
    0 at id 0, grows with the id, and is 99 at the last request id and at
    every id above it: it never shows 100. *)
Theorem progress_grows_with_the_request_id
  (sdk : SDK) (pattern : jsstring) (options : GrepOptions)
  (store0 : JSMap MatchResult) (sent0 : list Event) :
  (forall regex lastRequestId,
     runSetup rt sdk pattern = Some (regex, lastRequestId) ->
     idsAscend
       (map (fun item => getId (item_request item))
          (allItems (requests_query sdk (buildRegexFilter regex options))))) ->
  let run :=
    grepRequests rt sdk pattern options (mkWorld false store0 sent0 false) in
  (exists evs,
     sent (snd run) = sent0 ++ evs
     /\ ascending (progressValues evs)
     /\ Forall (fun p => 0 <= p <= 99) (progressValues evs))
  /\ (forall lastRequestId : N,
        lastRequestId <> 0%N ->
        progress rt (Number rt 0) (Number rt lastRequestId) = 0
        /\ (forall id id' : N,
              (id <= id')%N ->
              progress rt (Number rt id) (Number rt lastRequestId)
              <= progress rt (Number rt id') (Number rt lastRequestId))
        /\ (forall id : N,
              (lastRequestId <= id)%N ->
              progress rt (Number rt id) (Number rt lastRequestId) = 99)).
Proof.
  intros Served run. split.
  - unfold run. rewrite grepRequests_idle. cbn [snd].
    destruct (runSetup rt sdk pattern) as [[regex last]|] eqn:Setup.
    + destruct (grepRequests_try_loop rt sdk pattern options store0 sent0 regex
                  last Setup) as [evs [E P]].
      cbn zeta in E. rewrite E. cbn [snd sent].
      exists (progressEvent 0 :: evs). split; [reflexivity|].
      change (progressValues (progressEvent 0 :: evs))
        with (0 :: progressValues evs).
      rewrite P.
      destruct (runSetup_parts rt sdk pattern regex last Setup)
        as [project [p [_ [_ [Hp _]]]]].
      assert (Hl : last <> 0%N) by (rewrite Hp; discriminate).
      assert (R : Forall (fun p => 0 <= p <= 99)
                    (map (fun pid => progress rt (Number rt pid) (Number rt last))
                       (runIterations rt sdk pattern options))).
      { apply Forall_map, Forall_forall. intros pid _.
        apply (progress_spec_range rt rounding);
          [apply (Number_nonneg rt rounding) | now apply (Number_ge_1 rt rounding)]. }
      split; [|constructor; [lia | exact R]].
      cbn [ascending]. split.
      * eapply Forall_impl; [|exact R]. intros v Hv. cbn beta in Hv. lia.
      * apply ascending_map; [intros a b; now apply progress_by_id|].
        unfold runIterations. rewrite Setup.
        destruct (stoppedInSetup sdk); [exact I|].
        apply iterationIds_ascend; [|now apply (Served regex last)].
        apply Forall_forall. intros x _. lia.
    + rewrite (grepRequests_try_no_loop rt sdk pattern options store0 sent0 Setup).
      cbn [snd sent]. exists []. rewrite app_nil_r.
      split; [reflexivity|]. split; [exact I | constructor].
  - intros last Hl. split; [now apply progress_at_zero|].
    split; [intros id id' H; now apply progress_by_id|].
    intros id H. now apply progress_past_last.
Qed.

Hypothesis hundred : (round rt 100 == 100)%Q.

(** X17: The percentage of the batch search: 0 before any pattern is set, and
    otherwise between 0 and 100, 0 when no pattern is completed, 100 when
    all are, and never smaller after one more pattern is completed. *)
Theorem batchProgress_is_a_percentage (patternsCompleted totalPatterns : Z) :
  0 <= patternsCompleted <= totalPatterns ->
  0 <= batchProgress rt patternsCompleted totalPatterns <= 100
  /\ batchProgress rt 0 totalPatterns = 0
  /\ (0 < totalPatterns -> batchProgress rt totalPatterns totalPatterns = 100)
  /\ forall more,
       patternsCompleted <= more ->
       batchProgress rt patternsCompleted totalPatterns
       <= batchProgress rt more totalPatterns.
Proof.
  intros [H0 Hle]. unfold batchProgress.
  destruct (Z.eqb_spec totalPatterns 0) as [->|Hne]; [repeat split; lia|].
  assert (Tpos : (0 < inject_Z totalPatterns)%Q)
    by (change 0%Q with (inject_Z 0); rewrite <- Zlt_Qlt; lia).
  assert (Mono : forall a b : Z,
             0 <= a <= b ->
             Math_round (round rt (round rt (inject_Z a / inject_Z totalPatterns) * 100))
             <= Math_round (round rt (round rt (inject_Z b / inject_Z totalPatterns) * 100))).
  { intros a b [Ha Hab]. unfold Math_round. apply Qfloor_resp_le.
    apply Qplus_le_compat; [|apply Qle_refl].
    apply scaled_le; [exact Tpos | |].
    - change 0%Q with (inject_Z 0). rewrite <- Zle_Qle. lia.
    - rewrite <- Zle_Qle. lia. }
  assert (At0 : Math_round (round rt (round rt (inject_Z 0 / inject_Z totalPatterns) * 100))
                = 0).
  { destruct rounding as [_ [Z0 _]].
    assert (E : (round rt (round rt (inject_Z 0 / inject_Z totalPatterns) * 100) == 0)%Q).
    { apply Qeq_trans with (y := round rt 0); [|exact Z0].
      apply (scaled_eq _ 0); [discriminate | | exact Z0 | reflexivity].
      unfold Qdiv. apply Qmult_0_l. }
    unfold Math_round. rewrite (Qfloor_comp _ (0 + (1 # 2))%Q); [reflexivity|].
    now rewrite E. }
  assert (AtT : Math_round
                  (round rt (round rt (inject_Z totalPatterns / inject_Z totalPatterns) * 100))
                = 100).
  { destruct rounding as [_ [_ [One _]]].
    assert (E : (round rt (round rt (inject_Z totalPatterns / inject_Z totalPatterns) * 100)
                 == 100)%Q).
    { apply Qeq_trans with (y := round rt 100); [|exact hundred].
      apply (scaled_eq _ 1); [discriminate | | exact One | reflexivity].
      field. intros Z. rewrite Z in Tpos. discriminate. }
    unfold Math_round. rewrite (Qfloor_comp _ (100 + (1 # 2))%Q); [reflexivity|].
    now rewrite E. }
  split; [|split; [exact At0 | split; [intros _; exact AtT|]]].
  - pose proof (Mono 0 patternsCompleted ltac:(lia)) as M0.
    pose proof (Mono patternsCompleted totalPatterns ltac:(lia)) as M1.
    rewrite At0 in M0. rewrite AtT in M1. split; assumption.
  - intros more Hm. apply Mono. lia.
Qed.

End ProgressOrder.

(* ===================================================================== *)
(** * The properties above, on the inputs of the test suite              *)
(* ===================================================================== *)

Lemma viewer_marks_whole_match_witness :
  In wholeHostMatch
    (findMatchesInRequestResponse sampleRuntime (item_request firstHost)
       (item_response firstHost) (mkRegExp hostPattern (lit "i")) (Some [0])
       true false)
  /\ exists d before after,
       getRequestData (Normal (Some firstHost)) = mkRequestDataResult (Some d) None
       /\ sideText firstHost (source_ wholeHostMatch)
          = before ++ value wholeHostMatch ++ after
       /\ len before = startIndex wholeHostMatch
       /\ paneOf d (withValue wholeHostMatch (lit "stored"))
          = escapeHtml before ++ MARK_OPEN ++ escapeHtml (value wholeHostMatch)
            ++ MARK_CLOSE ++ escapeHtml after.
Proof.
  assert (H : In wholeHostMatch
                (findMatchesInRequestResponse sampleRuntime (item_request firstHost)
                   (item_response firstHost) (mkRegExp hostPattern (lit "i"))
                   (Some [0]) true false))
    by (vm_compute; left; reflexivity).
  split; [exact H|].
  apply (viewer_marks_whole_match sampleRuntime firstHost
           (mkRegExp hostPattern (lit "i")) (Some [0]) true false wholeHostMatch
           (lit "stored") eq_refl);
    [intros []; vm_compute; reflexivity | exact H | discriminate].
Defined.

Example viewer_shows_first_host :
  highlightedRequest (requestText "/a" "one.com")
    (mkMatchResult (lit "one.com") 1 request 23 30)
  = lit "GET /a HTTP/1.1" ++ CRLF ++ lit "Host: " ++ MARK_OPEN ++ lit "one.com"
    ++ MARK_CLOSE ++ CRLF ++ CRLF.
Proof. vm_compute. reflexivity. Qed.

Example escapeHtml_script_tag :
  escapeHtml (lit "<a href='x'>Q&A</a>")
  = lit "&lt;a href=&#039;x&#039;&gt;Q&amp;A&lt;/a&gt;".
Proof. vm_compute. reflexivity. Qed.

Lemma undisturbed_run_is_complete_witness :
  runSetup sampleRuntime threeHosts hostPattern
  = Some (mkRegExp hostPattern (lit "i"), 3%N)
  /\ fst (grepRequests sampleRuntime threeHosts hostPattern (withGroups [2] None) idle)
     = Some (mkEnvelope
               (Some (mkGrepData
                        (Some (map_size
                                 (grepStore
                                    (snd (grepRequests sampleRuntime threeHosts
                                            hostPattern (withGroups [2] None)
                                            idle)))))
                        None (endTime threeHosts - startTime threeHosts)))
               None)
  /\ grepStore
       (snd (grepRequests sampleRuntime threeHosts hostPattern
               (withGroups [2] None) idle))
     = collect (withGroups [2] None)
         (candidates (withGroups [2] None)
            (runRawMatches sampleRuntime threeHosts hostPattern (withGroups [2] None)))
         []
  /\ (maxReached (withGroups [2] None)
        (grepStore
           (snd (grepRequests sampleRuntime threeHosts hostPattern
                   (withGroups [2] None) idle))) = true
      \/ forall c,
           In c (candidates (withGroups [2] None)
                   (runRawMatches sampleRuntime threeHosts hostPattern
                      (withGroups [2] None))) ->
           In (value c)
              (getValues
                 (grepStore
                    (snd (grepRequests sampleRuntime threeHosts hostPattern
                            (withGroups [2] None) idle))))).
Proof.
  split; [vm_compute; reflexivity|].
  apply (undisturbed_run_is_complete sampleRuntime threeHosts hostPattern
           (withGroups [2] None) [] [] (mkRegExp hostPattern (lit "i")) 3%N);
    vm_compute; reflexivity.
Defined.

Lemma interrupted_run_keeps_earlier_pages_witness :
  grepStore
    (snd (grepRequests sampleRuntime stoppedOnSecondPage hostPattern
            (withGroups [2] None) idle))
  = collect (withGroups [2] None)
      (candidates (withGroups [2] None)
         (rawMatchesOf sampleRuntime stoppedOnSecondPage
            (mkRegExp hostPattern (lit "i")) (withGroups [2] None)
            (scannedItems
               (requests_query stoppedOnSecondPage
                  (buildRegexFilter (mkRegExp hostPattern (lit "i"))
                     (withGroups [2] None))))))
      []
  /\ isGrepActive
       (snd (grepRequests sampleRuntime stoppedOnSecondPage hostPattern
               (withGroups [2] None) idle)) = false
  /\ (exists env,
        fst (grepRequests sampleRuntime stoppedOnSecondPage hostPattern
               (withGroups [2] None) idle) = Some env
        /\ forall d,
             env_data env = Some d ->
             d_matchesCount d
             = Some (map_size
                       (grepStore
                          (snd (grepRequests sampleRuntime stoppedOnSecondPage
                                  hostPattern (withGroups [2] None) idle))))
             /\ d_error d = None).
Proof.
  apply (interrupted_run_keeps_earlier_pages sampleRuntime stoppedOnSecondPage
           hostPattern (withGroups [2] None) [] []
           (mkRegExp hostPattern (lit "i")) 3%N);
    vm_compute; reflexivity.
Defined.

Lemma progress_grows_with_the_request_id_witness :
  roundsToNearest sampleRuntime
  /\ idsAscend
       (map (fun item => getId (item_request item))
          (allItems
             (requests_query stoppedOnSecondPage
                (buildRegexFilter (mkRegExp hostPattern (lit "i"))
                   (withGroups [2] None)))))
  /\ (exists evs,
        sent (snd (grepRequests sampleRuntime stoppedOnSecondPage hostPattern
                     (withGroups [2] None) idle))
        = [] ++ evs
        /\ ascending (progressValues evs)
        /\ Forall (fun p => 0 <= p <= 99) (progressValues evs))
  /\ (forall lastRequestId : N,
        lastRequestId <> 0%N ->
        progress sampleRuntime (Number sampleRuntime 0)
          (Number sampleRuntime lastRequestId) = 0
        /\ (forall id id' : N,
              (id <= id')%N ->
              progress sampleRuntime (Number sampleRuntime id)
                (Number sampleRuntime lastRequestId)
              <= progress sampleRuntime (Number sampleRuntime id')
                   (Number sampleRuntime lastRequestId))
        /\ (forall id : N,
              (lastRequestId <= id)%N ->
              progress sampleRuntime (Number sampleRuntime id)
                (Number sampleRuntime lastRequestId) = 99)).
Proof.
  assert (Served : idsAscend
                     (map (fun item => getId (item_request item))
                        (allItems
                           (requests_query stoppedOnSecondPage
                              (buildRegexFilter (mkRegExp hostPattern (lit "i"))
                                 (withGroups [2] None))))))
    by (cbn; repeat split; repeat constructor; discriminate).
  split; [apply binary64_roundsToNearest|]. split; [exact Served|].
  apply (progress_grows_with_the_request_id sampleRuntime
           (binary64_roundsToNearest _) stoppedOnSecondPage hostPattern
           (withGroups [2] None) [] []).
  intros regex lastRequestId _. exact Served.
Defined.

Example progress_of_a_stopped_run :
  progressValues
    (sent (snd (grepRequests sampleRuntime stoppedOnSecondPage hostPattern
                  (withGroups [2] None) idle)))
  = [0; 0; 33].
Proof. vm_compute. reflexivity. Qed.

Lemma batchProgress_is_a_percentage_witness :
  roundsToNearest sampleRuntime
  /\ 0 <= batchProgress sampleRuntime 1 3 <= 100
  /\ batchProgress sampleRuntime 0 3 = 0
  /\ (0 < 3 -> batchProgress sampleRuntime 3 3 = 100)
  /\ forall more,
       1 <= more -> batchProgress sampleRuntime 1 3 <= batchProgress sampleRuntime more 3.
Proof.
  split; [apply binary64_roundsToNearest|].
  apply (batchProgress_is_a_percentage sampleRuntime (binary64_roundsToNearest _)).
  - vm_compute. reflexivity.
  - lia.
Defined.

Example batchProgress_one_third :
  batchProgress sampleRuntime 1 3 = 33 /\ batchProgress sampleRuntime 2 3 = 67
  /\ batchProgress sampleRuntime 1 200 = 1 /\ batchProgress sampleRuntime 0 0 = 0.
Proof. repeat split; vm_compute; reflexivity. Qed.

Example frontend_after_three_hosts :
  receive searchStart
    (sent (snd (grepRequests sampleRuntime threeHosts hostPattern
                  (withGroups [2] None) idle)))
  = mkUI 0
      (Some [ mkMatchResult (lit "one.com") 1 request 23 30;
              mkMatchResult (lit "two.com") 2 request 23 30;
              mkMatchResult (lit "three.com") 3 request 23 32 ])
      3.
Proof. vm_compute. reflexivity. Qed.

Example download_after_stop :
  downloadResults
    (snd (grepRequests sampleRuntime stoppedOnSecondPage hostPattern
            (withGroups [2] None) idle))
  = mkDownload (Some [mkMatchResult (lit "one.com") 1 request 23 30]) None
  /\ downloadResults
       (snd (grepRequests sampleRuntime noProject hostPattern (withGroups [2] None)
               (mkWorld false (manyMatches 3) [] false)))
     = mkDownload None (Some (lit "No grep results available")).
Proof. split; vm_compute; reflexivity. Qed.
